(** * KLineChart [src/common/utils/format.ts]: display-formatting utilities

    A shallow embedding of the formatting module and the proofs of the
    properties stated about it.

    Conventions of the embedding.
    - A JavaScript string is a [list ascii].  Non-ASCII text (the subscript
      glyphs) is carried in UTF-8; every pattern of the module names ASCII
      characters only, and every negated class or dot sits where it consumes
      a whole multi-byte sequence, so matching byte by byte and matching code
      unit by code unit agree.
    - Regular expressions are run by a backtracking matcher that follows the
      pattern semantics of ECMA-262 (sec. 22.2.2): matchers take a state and
      a continuation, alternation is ordered, quantifiers are greedy or lazy
      and refuse an empty iteration once the minimum is reached.
    - A JavaScript number is an IEEE-754 binary64 value, [spec_float] with
      [prec = 53] and [emax = 1024].
    - An operation that can raise returns a [Result]. *)

From Stdlib Require Import List Ascii String ZArith Lia Bool Arith SpecFloat.
From Stdlib Require Import DecimalPos DecimalN DecimalNat.
Import ListNotations.

Open Scope string_scope.
Open Scope list_scope.


(* ================================================================== *)
(** * Strings *)

Definition jsString := list ascii.

Coercion list_ascii_of_string : string >-> list.

Definition code (c : ascii) : N := N_of_ascii c.

Definition inRange (lo hi c : ascii) : bool :=
  (code lo <=? code c)%N && (code c <=? code hi)%N.

Definition isDigit (c : ascii) : bool := inRange "0" "9" c.

Fixpoint str_eqb (a b : jsString) : bool :=
  match a, b with
  | [], [] => true
  | x :: a', y :: b' => Ascii.eqb x y && str_eqb a' b'
  | _, _ => false
  end.

(** [isPrefix p s]: [s] starts with [p]; the rest of [s] when it does. *)
Fixpoint stripPrefix (p s : jsString) : option jsString :=
  match p, s with
  | [], _ => Some s
  | x :: p', y :: s' => if Ascii.eqb x y then stripPrefix p' s' else None
  | _ :: _, [] => None
  end.

(* ================================================================== *)
(** * Completion records *)

(** [TypeError], [RangeError] and [SyntaxError] are the errors JavaScript
    raises.  [OutsideFragment] is no JavaScript error: it marks a pattern
    given to [new RegExp] that uses syntax the embedding does not cover. *)
Inductive Error : Type := TypeError | RangeError | SyntaxError | OutsideFragment.

Inductive Result (A : Type) : Type :=
| Ok (a : A)
| Throw (e : Error).

Arguments Ok {A} a.
Arguments Throw {A} e.

Definition bind {A B : Type} (r : Result A) (f : A -> Result B) : Result B :=
  match r with
  | Ok a => f a
  | Throw e => Throw e
  end.

Notation "'let*' x ':=' r 'in' k" := (bind r (fun x => k))
  (at level 10, x name, r at level 100, k at level 200).

Definition returns {A : Type} (r : Result A) : Prop := exists a, r = Ok a.

(* ================================================================== *)
(** * Regular expressions (ECMA-262, 22.2) *)

Module RegExp.

(** Abstract syntax of the patterns the module uses.  Groups carry their
    number (left parenthesis order, from 1). *)
Inductive Regex : Type :=
| Empty
| Chr (c : ascii)
| Class (neg : bool) (ranges : list (ascii * ascii))
| Dot
| Seq (r1 r2 : Regex)
| Alt (r1 r2 : Regex)
| Rep (r : Regex) (min : nat) (max : option nat) (greedy : bool)
| Group (i : nat) (r : Regex)
| NonCapture (r : Regex)
| BackRef (i : nat)
| LookAhead (r : Regex)
| NegLookAhead (r : Regex)
| EndAnchor.

Definition Captures := list (option jsString).

Record State : Type := mkState { rest : jsString; caps : Captures }.

Definition Continuation := State -> option State.
Definition Matcher := State -> Continuation -> option State.

Definition orElse {A : Type} (a : option A) (b : option A) : option A :=
  match a with
  | Some _ => a
  | None => b
  end.

Fixpoint setCap (i : nat) (v : option jsString) (cs : Captures) : Captures :=
  match i, cs with
  | _, [] => []
  | O, _ :: cs' => v :: cs'
  | S i', c :: cs' => c :: setCap i' v cs'
  end.

Definition getCap (i : nat) (cs : Captures) : option jsString :=
  nth (i - 1) cs None.

(** Numbers of the groups inside a pattern: they are reset at every
    iteration of an enclosing quantifier. *)
Fixpoint groupsOf (r : Regex) : list nat :=
  match r with
  | Seq r1 r2 | Alt r1 r2 => groupsOf r1 ++ groupsOf r2
  | Rep r' _ _ _ | NonCapture r' | LookAhead r' | NegLookAhead r' => groupsOf r'
  | Group i r' => i :: groupsOf r'
  | _ => []
  end.

Definition clearCaps (gs : list nat) (x : State) : State :=
  mkState (rest x) (fold_left (fun cs i => setCap (i - 1) None cs) gs (caps x)).

Definition inClass (ranges : list (ascii * ascii)) (c : ascii) : bool :=
  existsb (fun r => inRange (fst r) (snd r) c) ranges.

Definition isLineTerminator (c : ascii) : bool :=
  (code c =? 10)%N || (code c =? 13)%N.

Definition charMatcher (p : ascii -> bool) : Matcher :=
  fun x c =>
    match rest x with
    | ch :: s => if p ch then c (mkState s (caps x)) else None
    | [] => None
    end.

(** The text consumed between state [x] and a later state [y]. *)
Definition consumed (x y : State) : jsString :=
  firstn (List.length (rest x) - List.length (rest y)) (rest x).

(** RepeatMatcher (22.2.2.3.1).  The fuel bounds the depth of the
    recursion: an iteration either lowers [min] or, by the empty check,
    shortens the remaining input. *)
Fixpoint repeatMatcher (fuel : nat) (m : Matcher) (min : nat) (max : option nat)
    (greedy : bool) (gs : list nat) (x : State) (c : Continuation) : option State :=
  match fuel with
  | O => None
  | S fuel' =>
    match max with
    | Some O => c x
    | _ =>
      let d : Continuation := fun y =>
        if (min =? 0)%nat && (List.length (rest y) =? List.length (rest x))%nat
        then None
        else repeatMatcher fuel' m (pred min) (option_map pred max) greedy gs y c in
      let xr := clearCaps gs x in
      if negb (min =? 0)%nat then m xr d
      else if greedy then orElse (m xr d) (c x)
      else orElse (c x) (m xr d)
    end
  end.

Definition repeatFuel (min : nat) (x : State) : nat :=
  S (min + List.length (rest x)).

(** CompileSubpattern / CompileAtom / CompileAssertion. *)
Fixpoint compile (r : Regex) : Matcher :=
  match r with
  | Empty => fun x c => c x
  | Chr ch => charMatcher (Ascii.eqb ch)
  | Class neg ranges => charMatcher (fun ch => xorb neg (inClass ranges ch))
  | Dot => charMatcher (fun ch => negb (isLineTerminator ch))
  | Seq r1 r2 => fun x c => compile r1 x (fun y => compile r2 y c)
  | Alt r1 r2 => fun x c => orElse (compile r1 x c) (compile r2 x c)
  | Rep r' min max greedy => fun x c =>
      repeatMatcher (repeatFuel min x) (compile r') min max greedy (groupsOf r') x c
  | Group i r' => fun x c =>
      compile r' x (fun y =>
        c (mkState (rest y) (setCap (i - 1) (Some (consumed x y)) (caps y))))
  | NonCapture r' => compile r'
  | BackRef i => fun x c =>
      match getCap i (caps x) with
      | None => c x
      | Some s =>
        match stripPrefix s (rest x) with
        | Some s' => c (mkState s' (caps x))
        | None => None
        end
      end
  | LookAhead r' => fun x c =>
      match compile r' x Some with
      | Some y => c (mkState (rest x) (caps y))
      | None => None
      end
  | NegLookAhead r' => fun x c =>
      match compile r' x Some with
      | Some _ => None
      | None => c x
      end
  | EndAnchor => fun x c =>
      match rest x with
      | [] => c x
      | _ :: _ => None
      end
  end.

Fixpoint maxGroup (r : Regex) : nat :=
  match r with
  | Seq r1 r2 | Alt r1 r2 => Nat.max (maxGroup r1) (maxGroup r2)
  | Rep r' _ _ _ | NonCapture r' | LookAhead r' | NegLookAhead r' => maxGroup r'
  | Group i r' => Nat.max i (maxGroup r')
  | _ => 0
  end.

(** The outcome of one successful match: the text before it, the matched
    text, the captures (group 1 first) and the text after it. *)
Record Match : Type := mkMatch {
  before : jsString;
  matched : jsString;
  groups : Captures;
  after : jsString
}.

(** The pattern tried at the start of [s] only. *)
Definition matchAt (r : Regex) (s : jsString) : option State :=
  compile r (mkState s (repeat None (maxGroup r))) Some.

Definition shift (ch : ascii) (m : Match) : Match :=
  mkMatch (ch :: before m) (matched m) (groups m) (after m).

(** RegExpBuiltinExec (22.2.7.2) from the start of [s], for a pattern
    without the sticky flag: the leftmost position at which the pattern
    matches.  The patterns of [Regex] look only forward, so the text before
    the position tried plays no part. *)
Fixpoint exec (r : Regex) (s : jsString) : option Match :=
  match matchAt r s with
  | Some y =>
      Some (mkMatch [] (firstn (List.length s - List.length (rest y)) s) (caps y) (rest y))
  | None =>
      match s with
      | [] => None
      | ch :: s' => option_map (shift ch) (exec r s')
      end
  end.

(** [RegExp.prototype.test]. *)
Definition test (r : Regex) (s : jsString) : bool :=
  match exec r s with
  | Some _ => true
  | None => false
  end.

(** [String.prototype.replace] with a global pattern and a replacer
    function (RegExp.prototype[@@replace], 22.2.6.11): every match found
    from left to right, the search resuming after the match, one character
    further when the match is empty.  [seen] is the text already passed,
    so that the replacer sees the whole text before its match. *)
Fixpoint replaceAllFuel (fuel : nat) (r : Regex) (f : Match -> jsString)
    (seen s : jsString) : jsString :=
  match fuel with
  | O => s
  | S fuel' =>
    match exec r s with
    | None => s
    | Some m =>
      let seen' := seen ++ before m ++ matched m in
      before m ++ f (mkMatch (seen ++ before m) (matched m) (groups m) (after m)) ++
      match matched m, after m with
      | [], [] => []
      | [], ch :: s' => ch :: replaceAllFuel fuel' r f (seen' ++ [ch]) s'
      | _ :: _, s' => replaceAllFuel fuel' r f seen' s'
      end
    end
  end.

Definition replaceAll (r : Regex) (f : Match -> jsString) (s : jsString) : jsString :=
  replaceAllFuel (S (List.length s)) r f [] s.

(** The matches on which that loop calls the replacer, in order. *)
Fixpoint matchListFuel (fuel : nat) (r : Regex) (seen s : jsString) : list Match :=
  match fuel with
  | O => []
  | S fuel' =>
    match exec r s with
    | None => []
    | Some m =>
      let seen' := seen ++ before m ++ matched m in
      mkMatch (seen ++ before m) (matched m) (groups m) (after m) ::
      match matched m, after m with
      | [], [] => []
      | [], ch :: s' => matchListFuel fuel' r (seen' ++ [ch]) s'
      | _ :: _, s' => matchListFuel fuel' r seen' s'
      end
    end
  end.

Definition matchList (r : Regex) (s : jsString) : list Match :=
  matchListFuel (S (List.length s)) r [] s.

(** GetSubstitution (22.1.3.19.1) for a pattern without named groups:
    the replacement patterns [$$], [$&], [$`], [$'], [$n] and [$nn] of a
    replacement given as a string. *)
Definition digitVal (c : ascii) : nat := N.to_nat (code c - code "0")%N.

Definition capText (k : nat) (m : Match) : jsString :=
  match getCap k (groups m) with
  | Some v => v
  | None => []
  end.

Fixpoint getSubstitution (m : Match) (tpl : jsString) : jsString :=
  match tpl with
  | [] => []
  | c :: t =>
    if negb (Ascii.eqb c "$") then c :: getSubstitution m t
    else
      match t with
      | [] => [c]
      | d1 :: t1 =>
        if Ascii.eqb d1 "$" then "$"%char :: getSubstitution m t1
        else if Ascii.eqb d1 "&" then matched m ++ getSubstitution m t1
        else if Ascii.eqb d1 "`" then before m ++ getSubstitution m t1
        else if Ascii.eqb d1 "'" then after m ++ getSubstitution m t1
        else if isDigit d1 then
          let n := List.length (groups m) in
          let one := digitVal d1 in
          let single :=
            if (1 <=? one)%nat && (one <=? n)%nat
            then capText one m ++ getSubstitution m t1
            else c :: getSubstitution m t in
          match t1 with
          | d2 :: t2 =>
            let two := 10 * one + digitVal d2 in
            if isDigit d2 && (1 <=? two)%nat && (two <=? n)%nat
            then capText two m ++ getSubstitution m t2
            else single
          | [] => single
          end
        else c :: getSubstitution m t
      end
  end.

(** [String.prototype.replace] with a pattern without the global flag and a
    replacement string: the first match only. *)
Definition replaceFirst (r : Regex) (tpl : jsString) (s : jsString) : jsString :=
  match exec r s with
  | None => s
  | Some m => before m ++ getSubstitution m tpl ++ after m
  end.

(** [String.prototype.replace] with a pattern without the global flag and a
    replacer function. *)
Definition replaceFirstWith (r : Regex) (f : Match -> jsString) (s : jsString) : jsString :=
  match exec r s with
  | None => s
  | Some m => before m ++ f m ++ after m
  end.

End RegExp.

Import RegExp.

(* ================================================================== *)
(** * Pattern syntax: [new RegExp(source)] and regular expression literals

    The parser follows the grammar of ECMA-262 22.2.1 with the Annex B.1.2
    extensions that browsers and Node implement for patterns without the
    [u] flag: a brace that does not open a well-formed quantifier and a
    closing bracket are ordinary characters. *)

Module Pattern.

Local Open Scope char_scope.

Inductive Parsed (A : Type) : Type :=
| Good (a : A)
| Bad       (* the pattern is refused with a SyntaxError *)
| Beyond.   (* the pattern uses syntax outside the fragment embedded here *)

Arguments Good {A} a.
Arguments Bad {A}.
Arguments Beyond {A}.

Definition isC (c d : ascii) : bool := Ascii.eqb c d.

Definition isAlnum (c : ascii) : bool :=
  isDigit c || inRange "a" "z" c || inRange "A" "Z" c.

(** DecimalDigits, read greedily. *)
Fixpoint digitsValue (acc : nat) (s : jsString) : nat * jsString :=
  match s with
  | c :: s' => if isDigit c then digitsValue (10 * acc + digitVal c) s' else (acc, s)
  | [] => (acc, [])
  end.

Definition parseDecimal (s : jsString) : option (nat * jsString) :=
  match s with
  | c :: _ => if isDigit c then Some (digitsValue 0 s) else None
  | [] => None
  end.

(** The text after an opening brace, when it completes a quantifier
    [{n}], [{n,}] or [{n,m}]. *)
Definition parseBraces (s : jsString) : option (nat * option nat * jsString) :=
  match parseDecimal s with
  | None => None
  | Some (lo, s1) =>
    match s1 with
    | c1 :: s2 =>
      if isC c1 "}" then Some (lo, Some lo, s2)
      else if isC c1 "," then
        match s2 with
        | c2 :: s3 =>
          if isC c2 "}" then Some (lo, None, s3)
          else match parseDecimal s2 with
               | Some (hi, c3 :: s4) => if isC c3 "}" then Some (lo, Some hi, s4) else None
               | _ => None
               end
        | [] => None
        end
      else None
    | [] => None
    end
  end.

Definition quantifierPrefix (s : jsString) : option (nat * option nat * jsString) :=
  match s with
  | c :: t =>
    if isC c "*" then Some (0, None, t)
    else if isC c "+" then Some (1, None, t)
    else if isC c "?" then Some (0, Some 1, t)
    else if isC c "{" then parseBraces t
    else None
  | [] => None
  end.

(** Atom followed by an optional quantifier and its optional lazy mark. *)
Definition applyQuantifier (atom : Regex) (s : jsString) : Parsed (Regex * jsString) :=
  match quantifierPrefix s with
  | None => Good (atom, s)
  | Some (lo, hi, t) =>
    if match hi with Some h => (h <? lo)%nat | None => false end then Bad
    else match t with
         | c :: t' => if isC c "?" then Good (Rep atom lo hi false, t')
                      else Good (Rep atom lo hi true, t)
         | [] => Good (Rep atom lo hi true, t)
         end
  end.

(** Character classes. *)
Inductive ClassAtom : Type :=
| One (c : ascii)
| Many (ranges : list (ascii * ascii)).

Definition parseClassAtom (s : jsString) : Parsed (ClassAtom * jsString) :=
  match s with
  | [] => Bad
  | c :: t =>
    if isC c "\" then
      match t with
      | [] => Bad
      | e :: t' =>
        if isC e "d" then Good (Many [("0", "9")], t')
        else if isAlnum e then Beyond
        else Good (One e, t')
      end
    else Good (One c, t)
  end.

Definition atomRanges (a : ClassAtom) : list (ascii * ascii) :=
  match a with
  | One c => [(c, c)]
  | Many rs => rs
  end.

Fixpoint parseClassRanges (fuel : nat) (s : jsString)
  : Parsed (list (ascii * ascii) * jsString) :=
  match fuel with
  | O => Beyond
  | S fuel' =>
    match s with
    | [] => Bad
    | c :: t =>
      if isC c "]" then Good ([], t)
      else
        match parseClassAtom s with
        | Good (a, s1) =>
          let single :=
            match parseClassRanges fuel' s1 with
            | Good (rs, s2) => Good (atomRanges a ++ rs, s2)
            | e => e
            end in
          match s1 with
          | d :: s2 =>
            if isC d "-" && negb (match s2 with e :: _ => isC e "]" | [] => true end) then
              match parseClassAtom s2 with
              | Good (b, s3) =>
                match a, b with
                | One x, One y =>
                  if (code y <? code x)%N then Bad
                  else match parseClassRanges fuel' s3 with
                       | Good (rs, s4) => Good ((x, y) :: rs, s4)
                       | e => e
                       end
                | _, _ => Beyond
                end
              | Bad => Bad
              | Beyond => Beyond
              end
            else single
          | [] => single
          end
        | Bad => Bad
        | Beyond => Beyond
        end
    end
  end.

(** The number of capturing groups of a pattern, counted before parsing:
    a decimal escape is a back reference when it does not exceed it. *)
Fixpoint countGroups (inClass : bool) (s : jsString) : nat :=
  match s with
  | [] => 0
  | c :: t =>
    if isC c "\" then
      match t with
      | _ :: t' => countGroups inClass t'
      | [] => 0
      end
    else if inClass then countGroups (negb (isC c "]")) t
    else if isC c "[" then countGroups true t
    else if isC c "(" then
      match t with
      | q :: _ => if isC q "?" then countGroups false t else S (countGroups false t)
      | [] => 1
      end
    else countGroups false t
  end.

Fixpoint seqOf (ts : list Regex) : Regex :=
  match ts with
  | [] => Empty
  | [t] => t
  | t :: ts' => Seq t (seqOf ts')
  end.

Definition closeGroup (wrap : Regex -> Regex)
    (inner : Parsed (Regex * nat * jsString)) : Parsed (Regex * nat * jsString) :=
  match inner with
  | Good (r, next, c :: t) =>
    if isC c ")" then
      match applyQuantifier (wrap r) t with
      | Good (q, t') => Good (q, next, t')
      | Bad => Bad
      | Beyond => Beyond
      end
    else Bad
  | Good (_, _, []) => Bad
  | Bad => Bad
  | Beyond => Beyond
  end.

Definition quantified (next : nat) (atom : Regex) (s : jsString)
  : Parsed (Regex * nat * jsString) :=
  match applyQuantifier atom s with
  | Good (q, t) => Good (q, next, t)
  | Bad => Bad
  | Beyond => Beyond
  end.

(** Disjunction, Alternative and Term.  [total] is the number of capturing
    groups of the whole pattern, [next] the number of the next group. *)
Fixpoint parseDisjunction (fuel total next : nat) (s : jsString) {struct fuel}
  : Parsed (Regex * nat * jsString) :=
  match fuel with
  | O => Beyond
  | S fuel' =>
    match parseAlternative fuel' total next s with
    | Good (ts, next1, s1) =>
      match s1 with
      | c :: s2 =>
        if isC c "|" then
          match parseDisjunction fuel' total next1 s2 with
          | Good (r2, next2, s3) => Good (Alt (seqOf ts) r2, next2, s3)
          | e => e
          end
        else Good (seqOf ts, next1, s1)
      | [] => Good (seqOf ts, next1, s1)
      end
    | Bad => Bad
    | Beyond => Beyond
    end
  end

with parseAlternative (fuel total next : nat) (s : jsString) {struct fuel}
  : Parsed (list Regex * nat * jsString) :=
  match fuel with
  | O => Beyond
  | S fuel' =>
    match s with
    | [] => Good ([], next, s)
    | c :: _ =>
      if isC c "|" || isC c ")" then Good ([], next, s)
      else
        match parseTerm fuel' total next s with
        | Good (t, next1, s1) =>
          match parseAlternative fuel' total next1 s1 with
          | Good (ts, next2, s2) => Good (t :: ts, next2, s2)
          | e => e
          end
        | Bad => Bad
        | Beyond => Beyond
        end
    end
  end

with parseTerm (fuel total next : nat) (s : jsString) {struct fuel}
  : Parsed (Regex * nat * jsString) :=
  match fuel with
  | O => Beyond
  | S fuel' =>
    match s with
    | [] => Bad
    | c :: t =>
      if isC c "$" then Good (EndAnchor, next, t)
      else if isC c "^" then Beyond
      else if isC c "(" then
        match t with
        | q :: k :: t' =>
          if isC q "?" then
            if isC k "=" then closeGroup LookAhead (parseDisjunction fuel' total next t')
            else if isC k "!" then closeGroup NegLookAhead (parseDisjunction fuel' total next t')
            else if isC k ":" then closeGroup NonCapture (parseDisjunction fuel' total next t')
            else if isC k "<" then Beyond
            else Bad
          else closeGroup (Group next) (parseDisjunction fuel' total (S next) t)
        | _ => closeGroup (Group next) (parseDisjunction fuel' total (S next) t)
        end
      else if isC c "\" then
        match t with
        | [] => Bad
        | e :: t' =>
          if isC e "d" then quantified next (Class false [("0", "9")]) t'
          else if isC e "D" then quantified next (Class true [("0", "9")]) t'
          else if isDigit e then
            match parseDecimal t with
            | Some (n, t'') =>
              if (1 <=? n)%nat && (n <=? total)%nat then quantified next (BackRef n) t''
              else Beyond
            | None => Beyond
            end
          else if isAlnum e then Beyond
          else quantified next (Chr e) t'
        end
      else if isC c "[" then
        match t with
        | n :: t' =>
          if isC n "^" then
            match parseClassRanges (S (List.length t')) t' with
            | Good (rs, t'') => quantified next (Class true rs) t''
            | Bad => Bad
            | Beyond => Beyond
            end
          else
            match parseClassRanges (S (List.length t)) t with
            | Good (rs, t'') => quantified next (Class false rs) t''
            | Bad => Bad
            | Beyond => Beyond
            end
        | [] => Bad
        end
      else if isC c "." then quantified next Dot t
      else if isC c "*" || isC c "+" || isC c "?" then Bad
      else if isC c ")" || isC c "|" then Bad
      else if isC c "{" then
        match parseBraces t with
        | Some _ => Bad
        | None => quantified next (Chr c) t
        end
      else quantified next (Chr c) t
    end
  end.

Definition parseFuel (s : jsString) : nat := 3 * List.length s + 3.

Definition parsePattern (s : jsString) : Parsed Regex :=
  match parseDisjunction (parseFuel s) (countGroups false s) 1 s with
  | Good (r, _, []) => Good r
  | Good (_, _, _ :: _) => Bad
  | Bad => Bad
  | Beyond => Beyond
  end.

End Pattern.

(* ================================================================== *)
(** * Numbers (ECMA-262, 6.1.6.1): IEEE-754 binary64 *)

Module Num.

Local Open Scope Z_scope.

Definition prec : Z := 53.
Definition emax : Z := 1024.

Definition number : Type := spec_float.

Definition NaN : number := S754_nan.

(** The Number value for an integer, for a ratio of positive integers and
    for a decimal [m * 10^e], each rounded to nearest, ties to even. *)
Definition ofZ (z : Z) : number := binary_normalize prec emax z 0 false.

Definition ofRatio (neg : bool) (p q : Z) : number :=
  let '(m, e, l) := SFdiv_core_binary prec emax p 0 q 0 in
  binary_round_aux prec emax neg m e l.

Definition ofDecimal (neg : bool) (m e : Z) : number :=
  match m with
  | Zpos p =>
    if 400 <? e then S754_infinity neg
    else if e + Z.log2 m + 1 <? -400 then S754_zero neg
    else if 0 <=? e then binary_round prec emax neg (p * Z.to_pos (10 ^ e)) 0
    else ofRatio neg m (10 ^ (- e))
  | _ => S754_zero neg
  end.

Definition isFinite (x : number) : bool :=
  match x with
  | S754_zero _ | S754_finite _ _ _ => true
  | S754_infinity _ | S754_nan => false
  end.

Definition sameValue (x y : number) : bool :=
  match x, y with
  | S754_nan, S754_nan => true
  | S754_zero a, S754_zero b => Bool.eqb a b
  | S754_infinity a, S754_infinity b => Bool.eqb a b
  | S754_finite a m e, S754_finite b m' e' => Bool.eqb a b && Pos.eqb m m' && Z.eqb e e'
  | _, _ => false
  end.

(** [x > y], [x / y]. *)
Definition gt (x y : number) : bool := SFltb y x.
Definition div (x y : number) : number := SFdiv prec emax x y.

(** ** Decimal numerals *)

Fixpoint uintChars (u : Decimal.uint) : jsString :=
  match u with
  | Decimal.Nil => []
  | Decimal.D0 u' => "0"%char :: uintChars u'
  | Decimal.D1 u' => "1"%char :: uintChars u'
  | Decimal.D2 u' => "2"%char :: uintChars u'
  | Decimal.D3 u' => "3"%char :: uintChars u'
  | Decimal.D4 u' => "4"%char :: uintChars u'
  | Decimal.D5 u' => "5"%char :: uintChars u'
  | Decimal.D6 u' => "6"%char :: uintChars u'
  | Decimal.D7 u' => "7"%char :: uintChars u'
  | Decimal.D8 u' => "8"%char :: uintChars u'
  | Decimal.D9 u' => "9"%char :: uintChars u'
  end.

(** The decimal numeral of a natural number, without leading zeros. *)
Definition decimal (n : N) : jsString := uintChars (N.to_uint n).

Definition zeros (n : nat) : jsString := repeat "0"%char n.

(** ** Number::toString (6.1.6.1.20), radix 10 *)

(** [m * 2^e] compared with [c * 10^k]. *)
Definition cmpScaled (m : positive) (e c k : Z) : comparison :=
  Z.compare (Zpos m * 2 ^ Z.max e 0 * 10 ^ Z.max (- k) 0)
            (c * 2 ^ Z.max (- e) 0 * 10 ^ Z.max k 0).

(** The least [k' >= k] with [m * 2^e < 10^k']. *)
Fixpoint decimalExponent (fuel : nat) (m : positive) (e k : Z) : Z :=
  match fuel with
  | O => k
  | S fuel' =>
    match cmpScaled m e 1 k with
    | Lt => k
    | _ => decimalExponent fuel' m e (k + 1)
    end
  end.

(** [floor (m * 2^e / 10^j)]. *)
Definition scaledFloor (m : positive) (e j : Z) : Z :=
  (Zpos m * 2 ^ Z.max e 0 * 10 ^ Z.max (- j) 0) / (2 ^ Z.max (- e) 0 * 10 ^ Z.max j 0).

(** The [k]-digit decimal [s * 10^(n - k)] that reads back as the number
    [m * 2^e] and is closest to it, if there is one; a candidate that
    reaches [10^k] is the one-digit-shorter [10^(k-1)] one exponent up. *)
Definition digitsFor (m : positive) (e n k : Z) : option (Z * Z) :=
  let x := S754_finite false m e in
  let lo := scaledFloor m e (n - k) in
  let hi := lo + 1 in
  let okLo := sameValue (ofDecimal false lo (n - k)) x in
  let okHi := sameValue (ofDecimal false hi (n - k)) x in
  let norm := fun s => if s =? 10 ^ k then (10 ^ (k - 1), n + 1) else (s, n) in
  match okLo, okHi with
  | false, false => None
  | true, false => Some (norm lo)
  | false, true => Some (norm hi)
  | true, true =>
    match cmpScaled m (e + 1) (2 * lo + 1) (n - k) with
    | Lt => Some (norm lo)
    | Gt => Some (norm hi)
    | Eq => if Z.even lo then Some (norm lo) else Some (norm hi)
    end
  end.

Fixpoint shortestFrom (fuel : nat) (m : positive) (e n k : Z) : Z * Z * Z :=
  match fuel with
  | O => (scaledFloor m e (n - k), n, k)
  | S fuel' =>
    match digitsFor m e n k with
    | Some (s, n') => (s, n', k)
    | None => shortestFrom fuel' m e n (k + 1)
    end
  end.

(** The integers [s], [n], [k] of Number::toString step 5.  The search for
    the decimal exponent starts from a lower bound of it, computed from the
    binary exponent with [log10 2 < 0.30103]. *)
Definition exponentFloor (m : positive) (e : Z) : Z :=
  (Zdigits2 (Zpos m) + e - 1) * 30103 / 100000 - 1.

Definition shortest (m : positive) (e : Z) : Z * Z * Z :=
  shortestFrom 17 m e (decimalExponent 640 m e (exponentFloor m e)) 1.

Definition signChars (neg : bool) : jsString := if neg then "-" else "".

Definition NumberToString (x : number) : jsString :=
  match x with
  | S754_nan => "NaN"
  | S754_zero _ => "0"
  | S754_infinity neg => signChars neg ++ "Infinity"
  | S754_finite neg m e =>
    let '(s, n, k) := shortest m e in
    let ds := decimal (Z.to_N s) in
    signChars neg ++
    if (k <=? n) && (n <=? 21) then ds ++ zeros (Z.to_nat (n - k))
    else if (0 <? n) && (n <=? 21) then
      firstn (Z.to_nat n) ds ++ "." ++ skipn (Z.to_nat n) ds
    else if (-6 <? n) && (n <=? 0) then "0." ++ zeros (Z.to_nat (- n)) ++ ds
    else
      let ex := (if n - 1 <? 0 then "-" else "+") ++ decimal (Z.to_N (Z.abs (n - 1))) in
      if k =? 1 then ds ++ "e" ++ ex
      else firstn 1 ds ++ "." ++ skipn 1 ds ++ "e" ++ ex
  end.

(** ** StringToNumber (7.1.4.1.1): unary plus applied to a string *)

Definition isWhite (c : ascii) : bool :=
  let n := code c in
  ((9 <=? n) && (n <=? 13) || (n =? 32))%N.

Fixpoint trimStart (s : jsString) : jsString :=
  match s with
  | c :: s' => if isWhite c then trimStart s' else s
  | [] => []
  end.

(** [String.prototype.trim], for the white space of ASCII. *)
Definition trim (s : jsString) : jsString :=
  rev (trimStart (rev (trimStart s))).

Fixpoint spanDigits (s : jsString) : jsString * jsString :=
  match s with
  | c :: s' =>
    if isDigit c then let '(ds, r) := spanDigits s' in (c :: ds, r) else ([], s)
  | [] => ([], [])
  end.

Definition digitsToZ (ds : jsString) : Z :=
  fold_left (fun acc c => 10 * acc + Z.of_N (code c - code "0"%char)) ds 0.

Definition takeSign (s : jsString) : bool * jsString :=
  match s with
  | c :: t =>
    if Ascii.eqb c "-" then (true, t)
    else if Ascii.eqb c "+" then (false, t)
    else (false, s)
  | [] => (false, s)
  end.

(** ExponentPart, which must end the literal; no exponent is exponent 0. *)
Definition parseExponent (s : jsString) : option Z :=
  match s with
  | [] => Some 0
  | c :: t =>
    if Ascii.eqb c "e" || Ascii.eqb c "E" then
      let '(neg, t') := takeSign t in
      match spanDigits t' with
      | ((_ :: _) as ds, []) => Some (if neg then - digitsToZ ds else digitsToZ ds)
      | _ => None
      end
    else None
  end.

(** StrUnsignedDecimalLiteral. *)
Definition unsignedDecimal (neg : bool) (s : jsString) : number :=
  if str_eqb s "Infinity" then S754_infinity neg
  else
    let '(ip, r1) := spanDigits s in
    let '(fp, r2) :=
      match r1 with
      | c :: t => if Ascii.eqb c "." then spanDigits t else ([], r1)
      | [] => ([], r1)
      end in
    match ip ++ fp with
    | [] => NaN
    | ds =>
      match parseExponent r2 with
      | Some ex => ofDecimal neg (digitsToZ ds) (ex - Z.of_nat (List.length fp))
      | None => NaN
      end
    end.

Definition radixDigit (radix : Z) (c : ascii) : option Z :=
  let n := Z.of_N (code c) in
  let v := if isDigit c then n - 48
           else if inRange "a" "f" c then n - 87
           else if inRange "A" "F" c then n - 55
           else 16 in
  if v <? radix then Some v else None.

Fixpoint radixValue (radix acc : Z) (s : jsString) : option Z :=
  match s with
  | [] => Some acc
  | c :: s' =>
    match radixDigit radix c with
    | Some v => radixValue radix (radix * acc + v) s'
    | None => None
    end
  end.

(** NonDecimalIntegerLiteral: [0x], [0o], [0b] and their digits. *)
Definition nonDecimal (s : jsString) : option number :=
  match s with
  | z :: p :: ((_ :: _) as ds) =>
    if Ascii.eqb z "0" then
      let radix := if Ascii.eqb p "x" || Ascii.eqb p "X" then 16
                   else if Ascii.eqb p "o" || Ascii.eqb p "O" then 8
                   else if Ascii.eqb p "b" || Ascii.eqb p "B" then 2
                   else 0 in
      if radix =? 0 then None
      else match radixValue radix 0 ds with
           | Some v => Some (ofZ v)
           | None => Some NaN
           end
    else None
  | _ => None
  end.

Definition StringToNumber (s : jsString) : number :=
  match trim s with
  | [] => S754_zero false
  | t =>
    match nonDecimal t with
    | Some x => x
    | None => let '(neg, u) := takeSign t in unsignedDecimal neg u
    end
  end.

(** ** Number.prototype.toFixed (21.1.3.3) *)

(** [floor (m * 2^e * 10^f + 1/2)]: the integer [n] with [n / 10^f] nearest
    to [m * 2^e], the larger one of two. *)
Definition roundHalfUp (m : positive) (e : Z) (f : nat) : Z :=
  let p := 10 ^ Z.of_nat f in
  if 0 <=? e then Zpos m * 2 ^ e * p
  else (2 * Zpos m * p + 2 ^ (- e)) / 2 ^ (- e + 1).

(** The numeral of [n] with a decimal point before its last [f] digits. *)
Definition fixedDigits (n : Z) (f : nat) : jsString * jsString :=
  let ds := decimal (Z.to_N n) in
  let padded := zeros (S f - List.length ds) ++ ds in
  let k := List.length padded in
  (firstn (k - f) padded, skipn (k - f) padded).

Definition toFixed (x : number) (f : nat) : jsString :=
  match x with
  | S754_finite neg m e =>
    if gt (ofDecimal false 1 21) (S754_finite false m e) then
      let '(a, b) := fixedDigits (roundHalfUp m e f) f in
      signChars neg ++ a ++ match f with O => [] | S _ => "." ++ b end
    else NumberToString x
  | S754_zero _ =>
      let '(a, b) := fixedDigits 0 f in
      a ++ match f with O => [] | S _ => "." ++ b end
  | _ => NumberToString x
  end.

(** ** Number.prototype.toLocaleString for the locale [id-ID] (ECMA-402)

    With [minimumFractionDigits] and [maximumFractionDigits] both given:
    the two options are read by GetNumberOption, which raises a RangeError
    outside 0..100 and keeps the integer part of its argument.  The number
    is formatted from its decimal digits, the shortest ones that read back
    as the number (those of Number::toString), as the ICU library of the
    engines does: that decimal is rounded to the fraction digits asked
    for, halves away from zero; the integer digits are grouped by three
    with a period and a comma marks the fraction. *)

Definition truncate (x : number) : Z :=
  match x with
  | S754_finite neg m e =>
    let a := if 0 <=? e then Zpos m * 2 ^ e else Zpos m / 2 ^ (- e) in
    if neg then - a else a
  | _ => 0
  end.

Definition GetNumberOption (x : number) (lo hi : Z) : Result nat :=
  match x with
  | S754_nan => Throw RangeError
  | _ =>
    if gt (ofZ lo) x || gt x (ofZ hi) then Throw RangeError
    else Ok (Z.to_nat (truncate x))
  end.

(** Digits in groups of three counted from the right: the separator comes
    after every digit that a positive multiple of three digits follows. *)
Fixpoint grouped (sep ds : jsString) : jsString :=
  match ds with
  | [] => []
  | d :: ds' =>
    if (0 <? List.length ds')%nat && (List.length ds' mod 3 =? 0)%nat
    then d :: sep ++ grouped sep ds'
    else d :: grouped sep ds'
  end.

(** [floor (s * 10^(q + f) + 1/2)]: the integer [r] with [r / 10^f] nearest
    to the decimal [s * 10^q], the larger one of two. *)
Definition roundDecimal (s q : Z) (f : nat) : Z :=
  let p := q + Z.of_nat f in
  if 0 <=? p then s * 10 ^ p
  else (2 * s + 10 ^ (- p)) / (2 * 10 ^ (- p)).

Definition formatIdID (x : number) (f : nat) : jsString :=
  match x with
  | S754_nan => "NaN"
  | S754_infinity neg => signChars neg ++ "∞"
  | S754_zero neg =>
      let '(a, b) := fixedDigits 0 f in
      signChars neg ++ a ++ match f with O => [] | S _ => "," ++ b end
  | S754_finite neg m e =>
      let '(s, n, k) := shortest m e in
      let '(a, b) := fixedDigits (roundDecimal s (n - k) f) f in
      signChars neg ++ grouped "." a ++ match f with O => [] | S _ => "," ++ b end
  end.

Definition toLocaleString_idID (x : number) (minimumFractionDigits maximumFractionDigits : number)
  : Result jsString :=
  let* mnfd := GetNumberOption minimumFractionDigits 0 100 in
  let* mxfd := GetNumberOption maximumFractionDigits 0 100 in
  if (mxfd <? mnfd)%nat then Throw RangeError
  else Ok (formatIdID x mxfd).

End Num.

Import Num.

(* ================================================================== *)
(** * String methods used by the module *)

(** [s.includes(c)] for a one-character [c]. *)
Definition includes (c : ascii) (s : jsString) : bool :=
  existsb (Ascii.eqb c) s.

(** [s.split(c)] for a one-character separator: the segments between the
    occurrences of [c], at least one. *)
Fixpoint split (c : ascii) (s : jsString) : list jsString :=
  match s with
  | [] => [[]]
  | x :: s' =>
    if Ascii.eqb x c then [] :: split c s'
    else match split c s' with
         | seg :: segs => (x :: seg) :: segs
         | [] => [[x]]
         end
  end.

(** [arr.join(c)]. *)
Fixpoint join (c : ascii) (arr : list jsString) : jsString :=
  match arr with
  | [] => []
  | [seg] => seg
  | seg :: arr' => seg ++ c :: join c arr'
  end.

(** [arr[i] = v] for an index inside the array. *)
Fixpoint setItem (i : nat) (v : jsString) (arr : list jsString) : list jsString :=
  match i, arr with
  | _, [] => []
  | O, _ :: arr' => v :: arr'
  | S i', seg :: arr' => seg :: setItem i' v arr'
  end.

(** An array element inside a template literal: a missing one reads
    [undefined]. *)
Definition itemText (arr : list jsString) (i : nat) : jsString :=
  match nth_error arr i with
  | Some seg => seg
  | None => "undefined"
  end.

(* ================================================================== *)
(** * Values *)

Set Warnings "-register-all".

(** The data [formatValue] walks: JSON-like values.  Members inherited
    from prototypes are not part of the data and are not modelled. *)
Inductive Value : Type :=
| Undefined
| Null
| Boolean (b : bool)
| Number (x : number)
| String (s : jsString)
| Object (fields : list (jsString * Value))
| Array (items : list Value).

(** A [string | number] argument. *)
Inductive StrOrNum : Type :=
| Str (s : jsString)
| Nbr (x : number).

(** The template literal [`${value}`]. *)
Definition toStr (value : StrOrNum) : jsString :=
  match value with
  | Str s => s
  | Nbr x => NumberToString x
  end.

(** Unary plus, [+value]. *)
Definition toNumber (value : StrOrNum) : number :=
  match value with
  | Str s => StringToNumber s
  | Nbr x => x
  end.

(** ** [./typeChecks] *)

(** Modelled from the spec: [isValid] of [./typeChecks], which is imported
    by the module and is not part of it: "true iff x is neither null nor
    undefined/absent". *)
Definition isValid (v : Value) : bool :=
  match v with
  | Undefined | Null => false
  | _ => true
  end.

(** Modelled from the spec: [isNumber] of [./typeChecks], applied by the
    module to numbers only: "true iff x is a finite real number". *)
Definition isNumber (x : number) : bool := isFinite x.

(** ** Member access *)

Fixpoint lookup (k : jsString) (fields : list (jsString * Value)) : Value :=
  match fields with
  | [] => Undefined
  | (k', v) :: fields' => if str_eqb k k' then v else lookup k fields'
  end.

(** An array index: the canonical numeral of a natural number. *)
Definition arrayIndex (k : jsString) : option nat :=
  match k with
  | [] => None
  | _ :: _ =>
    if forallb isDigit k && str_eqb (decimal (Z.to_N (digitsToZ k))) k
    then Some (Z.to_nat (digitsToZ k))
    else None
  end.

(** [value[k]]: a TypeError on [null] and [undefined]. *)
Definition getMember (value : Value) (k : jsString) : Result Value :=
  match value with
  | Undefined | Null => Throw TypeError
  | Object fields => Ok (lookup k fields)
  | Array items =>
    if str_eqb k "length" then Ok (Number (ofZ (Z.of_nat (List.length items))))
    else match arrayIndex k with
         | Some i => Ok (nth i items Undefined)
         | None => Ok Undefined
         end
  | String s =>
    if str_eqb k "length" then Ok (Number (ofZ (Z.of_nat (List.length s))))
    else match arrayIndex k with
         | Some i => Ok (match nth_error s i with
                         | Some c => String [c]
                         | None => Undefined
                         end)
         | None => Ok Undefined
         end
  | Boolean _ | Number _ => Ok Undefined
  end.

(** Optional chaining, [value?.[k]]. *)
Definition optMember (value : Value) (k : jsString) : Result Value :=
  if isValid value then getMember value k else Ok Undefined.

(** [a ?? b]. *)
Definition nullish (a b : Value) : Value :=
  match a with
  | Undefined | Null => b
  | _ => a
  end.

(* ================================================================== *)
(** * The module [format.ts] *)

Definition dquote : ascii := "034"%char.

Definition newRegExp (source : jsString) : Result Regex :=
  match Pattern.parsePattern source with
  | Pattern.Good r => Ok r
  | Pattern.Bad => Throw SyntaxError
  | Pattern.Beyond => Throw OutsideFragment
  end.

(** ** The patterns of the module, each with the text it is written as *)

Definition digit : Regex := Class false [("0"%char, "9"%char)].

(** [reEscapeChar = /\\(\\)?/g] *)
Definition reEscapeChar_source : jsString := "\\(\\)?".
Definition reEscapeChar : Regex :=
  Seq (Chr "\") (Rep (Group 1 (Chr "\")) 0 (Some 1) true).

(** [rePropName], after the string literals of its definition are joined. *)
Definition rePropName_source : jsString :=
  "[^.[\]]+" ++
  "|" ++
  "\[(?:" ++
  "([^" ++ [dquote] ++ "'][^[]*)" ++
  "|" ++
  "([" ++ [dquote] ++ "'])((?:(?!\2)[^\\]|\\.)*?)\2" ++
  ")\]" ++
  "|" ++
  "(?=(?:\.|\[\])(?:\.|\[\]|$))".

Definition rePropName : Regex :=
  Alt (Rep (Class true [("."%char, "."%char); ("["%char, "["%char); ("]"%char, "]"%char)])
           1 None true)
 (Alt (Seq (Chr "[")
      (Seq (NonCapture
             (Alt (Group 1
                    (Seq (Class true [(dquote, dquote); ("'"%char, "'"%char)])
                         (Rep (Class true [("["%char, "["%char)]) 0 None true)))
                  (Seq (Group 2 (Class false [(dquote, dquote); ("'"%char, "'"%char)]))
                  (Seq (Group 3
                         (Rep (NonCapture
                                (Alt (Seq (NegLookAhead (BackRef 2))
                                          (Class true [("\"%char, "\"%char)]))
                                     (Seq (Chr "\") Dot)))
                              0 None false))
                       (BackRef 2)))))
           (Chr "]")))
      (LookAhead
        (Seq (NonCapture (Alt (Chr ".") (Seq (Chr "[") (Chr "]"))))
             (NonCapture (Alt (Chr ".") (Alt (Seq (Chr "[") (Chr "]")) EndAnchor)))))).

(** [/YYYY|MM|DD|HH|mm|ss/g] *)
Definition reDateToken_source : jsString := "YYYY|MM|DD|HH|mm|ss".
Definition reDateToken : Regex :=
  Alt (Seq (Chr "Y") (Seq (Chr "Y") (Seq (Chr "Y") (Chr "Y"))))
 (Alt (Seq (Chr "M") (Chr "M"))
 (Alt (Seq (Chr "D") (Chr "D"))
 (Alt (Seq (Chr "H") (Chr "H"))
 (Alt (Seq (Chr "m") (Chr "m"))
      (Seq (Chr "s") (Chr "s")))))).

(** [/(\d)(?=(\d{3})+$)/g] *)
Definition reThousands_source : jsString := "(\d)(?=(\d{3})+$)".
Definition reThousands : Regex :=
  Seq (Group 1 digit)
      (LookAhead (Seq (Rep (Group 2 (Rep digit 3 (Some 3) true)) 1 None true) EndAnchor)).

(** [/0*/] *)
Definition reZeros_source : jsString := "0*".
Definition reZeros : Regex := Rep (Chr "0") 0 None true.

(** [/\d/] *)
Definition reDigit_source : jsString := "\d".
Definition reDigit : Regex := digit.

(** ** formatValue *)

(** The replacer given to [key.replace(rePropName, ...)]: the key it
    pushes on [path].  [args[0]], [args[1]] and [args[2]] are the three
    groups of the pattern; [args[2]] is used as a string, which raises a
    TypeError if the group did not take part in the match. *)
Definition pathKey (m : Match) : Result jsString :=
  match getCap 2 (groups m) with
  | Some _ =>
    match getCap 3 (groups m) with
    | Some g3 => Ok (replaceAll reEscapeChar (fun e => getSubstitution e "$1") g3)
    | None => Throw TypeError
    end
  | None =>
    match getCap 1 (groups m) with
    | Some g1 => Ok (trim g1)
    | None => Ok (matched m)
    end
  end.

Fixpoint collect {A : Type} (rs : list (Result A)) : Result (list A) :=
  match rs with
  | [] => Ok []
  | r :: rs' =>
    let* a := r in
    let* l := collect rs' in
    Ok (a :: l)
  end.

(** The array [path] after the call of [key.replace]. *)
Definition stringToPath (key : jsString) : Result (list jsString) :=
  collect (map pathKey (matchList rePropName key)).

(** The [while] loop. *)
Fixpoint walk (value : Value) (path : list jsString) : Result Value :=
  match path with
  | [] => Ok value
  | k :: path' =>
    if isValid value then
      let* value' := optMember value k in
      walk value' path'
    else Ok value
  end.

Definition placeholder : Value := String "--".

(** [defaultValue] is [Undefined] when the caller gives none. *)
Definition formatValue (data : Value) (key : jsString) (defaultValue : Value)
  : Result Value :=
  if isValid data then
    let* path := stringToPath key in
    let* value := walk data path in
    Ok (if isValid value then value else nullish defaultValue placeholder)
  else Ok (nullish defaultValue placeholder).

(** ** formatDateToDateTime, formatDateToString *)

(** A part [{ type, value }] of [Intl.DateTimeFormat.prototype.formatToParts]. *)
Record Part : Type := mkPart { partType : jsString; partValue : jsString }.

(** The [Intl.DateTimeFormat] given by the caller, as the module uses it:
    its method [formatToParts], from the time value of a [Date]. *)
Record DateTimeFormat : Type := {
  formatToParts : number -> Result (list Part)
}.

(** [new Date(timestamp)]: the time value, TimeClip (21.4.1.31) of the
    argument: [NaN] outside 8.64e15 ms around the epoch, else the integer
    part. *)
Definition newDate (timestamp : number) : number :=
  if isFinite timestamp
     && negb (gt timestamp (ofZ 8640000000000000))
     && negb (gt (ofZ (-8640000000000000)) timestamp)
  then ofZ (truncate timestamp)
  else NaN.

(** The object [date]: a field is [None] until it is assigned. *)
Record DateTime : Type := mkDateTime {
  YYYY : option jsString;
  MM : option jsString;
  DD : option jsString;
  HH : option jsString;
  mm : option jsString;
  ss : option jsString
}.

Definition emptyDate : DateTime := mkDateTime None None None None None None.

(** The body of the [forEach]. *)
Definition setPart (date : DateTime) (p : Part) : DateTime :=
  let value := partValue p in
  if str_eqb (partType p) "year" then
    mkDateTime (Some value) (MM date) (DD date) (HH date) (mm date) (ss date)
  else if str_eqb (partType p) "month" then
    mkDateTime (YYYY date) (Some value) (DD date) (HH date) (mm date) (ss date)
  else if str_eqb (partType p) "day" then
    mkDateTime (YYYY date) (MM date) (Some value) (HH date) (mm date) (ss date)
  else if str_eqb (partType p) "hour" then
    mkDateTime (YYYY date) (MM date) (DD date)
               (Some (if str_eqb value "24" then list_ascii_of_string "00" else value)) (mm date) (ss date)
  else if str_eqb (partType p) "minute" then
    mkDateTime (YYYY date) (MM date) (DD date) (HH date) (Some value) (ss date)
  else if str_eqb (partType p) "second" then
    mkDateTime (YYYY date) (MM date) (DD date) (HH date) (mm date) (Some value)
  else date.

Definition formatDateToDateTime (dateTimeFormat : DateTimeFormat) (timestamp : number)
  : Result DateTime :=
  let* parts := formatToParts dateTimeFormat (newDate timestamp) in
  Ok (fold_left setPart parts emptyDate).

(** [date[key]] for a key matched by the pattern, as the text the
    replacement inserts: a missing field reads [undefined]. *)
Definition dateField (date : DateTime) (key : jsString) : jsString :=
  let field :=
    if str_eqb key "YYYY" then YYYY date
    else if str_eqb key "MM" then MM date
    else if str_eqb key "DD" then DD date
    else if str_eqb key "HH" then HH date
    else if str_eqb key "mm" then mm date
    else if str_eqb key "ss" then ss date
    else None in
  match field with
  | Some v => v
  | None => "undefined"
  end.

Definition formatDateToString (dateTimeFormat : DateTimeFormat) (timestamp : number)
    (format : jsString) : Result jsString :=
  let* date := formatDateToDateTime dateTimeFormat timestamp in
  Ok (replaceAll reDateToken (fun m => dateField date (matched m)) format).

(** ** formatPrecision *)

Definition formatPrecision (value : StrOrNum) (precision : option number)
  : Result jsString :=
  let v := toNumber value in
  if isNumber v then
    let digits := match precision with Some p => p | None => ofZ 2 end in
    toLocaleString_idID v digits digits
  else Ok (toStr value).

(** ** formatBigNumber *)

Definition formatBigNumber (value : StrOrNum) : jsString :=
  let v := toNumber value in
  if isNumber v && gt v (ofZ 1000000000) then
    NumberToString (StringToNumber (toFixed (div v (ofZ 1000000000)) 3)) ++ "B"
  else if isNumber v && gt v (ofZ 1000000) then
    NumberToString (StringToNumber (toFixed (div v (ofZ 1000000)) 3)) ++ "M"
  else if isNumber v && gt v (ofZ 1000) then
    NumberToString (StringToNumber (toFixed (div v (ofZ 1000)) 3)) ++ "K"
  else toStr value.

(** ** formatThousands *)

Definition formatThousands (value : StrOrNum) (sign : jsString) : jsString :=
  let vl := toStr value in
  if (List.length sign =? 0)%nat then vl
  else if includes "." vl then
    let arr := split "." vl in
    replaceAll reThousands (fun m => matched m ++ sign) (itemText arr 0)
      ++ "." ++ itemText arr 1
  else replaceAll reThousands (fun m => matched m ++ sign) vl.

(** ** formatFoldDecimal *)

(** [format] receives [count], the length of a string, as a natural
    number. *)
Definition formatFoldDecimal (value : StrOrNum) (threshold : number)
    (format : nat -> jsString) : Result jsString :=
  let vl := toStr value in
  let* reg := newRegExp ("\.0{" ++ NumberToString threshold ++ ",}[1-9][0-9]*$") in
  if test reg vl then
    let result := split "." vl in
    let lastIndex := List.length result - 1 in
    let v := itemText result lastIndex in
    match exec reZeros v with
    | Some match_ =>
      let count := List.length (matched match_) in
      let result' := setItem lastIndex (replaceFirst reZeros ("0" ++ format count) v) result in
      Ok (join "." result')
    | None => Ok vl
    end
  else Ok vl.

(** [`${count}`] for the length of a string. *)
Definition countText (count : nat) : jsString := decimal (N.of_nat count).

Definition formatFoldDecimalForCurlyBracket (value : StrOrNum) (threshold : number)
  : Result jsString :=
  formatFoldDecimal value threshold (fun count => "{" ++ countText count ++ "}").

(** The table [subscriptNumbers], read at a key; [None] when the key is
    not in it. *)
Definition subscriptNumbers (key : jsString) : option jsString :=
  if str_eqb key "0" then Some (list_ascii_of_string "₀")
  else if str_eqb key "1" then Some (list_ascii_of_string "₁")
  else if str_eqb key "2" then Some (list_ascii_of_string "₂")
  else if str_eqb key "3" then Some (list_ascii_of_string "₃")
  else if str_eqb key "4" then Some (list_ascii_of_string "₄")
  else if str_eqb key "5" then Some (list_ascii_of_string "₅")
  else if str_eqb key "6" then Some (list_ascii_of_string "₆")
  else if str_eqb key "7" then Some (list_ascii_of_string "₇")
  else if str_eqb key "8" then Some (list_ascii_of_string "₈")
  else if str_eqb key "9" then Some (list_ascii_of_string "₉")
  else None.

Definition formatFoldDecimalForSubscript (value : StrOrNum) (threshold : number)
  : Result jsString :=
  formatFoldDecimal value threshold (fun count =>
    replaceFirstWith reDigit
      (fun m => match subscriptNumbers (matched m) with
                | Some glyph => glyph
                | None => []
                end)
      (countText count)).


(* ================================================================== *)
(** * Definitions used by the statements and the proofs

    What the properties are stated with: the behaviour of the matcher on
    the patterns of the module, written by recursion on the text, and each
    operation as its description words it. *)

Import Pattern.

(** ** The matcher on runs of one character class *)

(** Greedy [p*] by recursion on the text: the longest run first. *)
Fixpoint starChar (p : ascii -> bool) (c : Continuation) (cs : Captures) (s : jsString) : option State :=
  match s with
  | ch :: s' =>
    if p ch then orElse (starChar p c cs s') (c (mkState s cs)) else c (mkState s cs)
  | [] => c (mkState [] cs)
  end.

(** Greedy [p{min,}]. *)
Fixpoint repChar (p : ascii -> bool) (min : nat) (c : Continuation) (cs : Captures) (s : jsString)
  : option State :=
  match min with
  | O => starChar p c cs s
  | S min' =>
    match s with
    | ch :: s' => if p ch then repChar p min' c cs s' else None
    | [] => None
    end
  end.

(** [p{n}], exactly [n] times. *)
Fixpoint exactChar (p : ascii -> bool) (n : nat) (c : Continuation) (cs : Captures) (s : jsString)
  : option State :=
  match n with
  | O => c (mkState s cs)
  | S n' =>
    match s with
    | ch :: s' => if p ch then exactChar p n' c cs s' else None
    | [] => None
    end
  end.

(** The longest run of [p] at the start of a text and what follows it. *)
Fixpoint dropRun (p : ascii -> bool) (s : jsString) : jsString :=
  match s with
  | ch :: s' => if p ch then dropRun p s' else s
  | [] => []
  end.

Fixpoint takeRun (p : ascii -> bool) (s : jsString) : jsString :=
  match s with
  | ch :: s' => if p ch then ch :: takeRun p s' else []
  | [] => []
  end.

(** ** The pattern of formatThousands *)

(** Whether a run of a matcher succeeded. *)
Definition ok (o : option State) : bool :=
  match o with
  | Some _ => true
  | None => false
  end.

(** The test the class [\d] compiles to. *)
Definition digitP : ascii -> bool :=
  fun ch => xorb false (inClass [("0"%char, "9"%char)] ch).

(** A text made of groups of three digits. *)
Fixpoint tripleRuns (s : jsString) : bool :=
  match s with
  | [] => true
  | d1 :: d2 :: d3 :: s' => isDigit d1 && isDigit d2 && isDigit d3 && tripleRuns s'
  | _ => false
  end.

(** What the look-ahead of the pattern asks of the text after a digit. *)
Definition groupable (s : jsString) : bool :=
  match s with
  | [] => false
  | _ :: _ => tripleRuns s
  end.

(** The continuation of [$]: success at the end of the text only. *)
Definition atEnd : Continuation :=
  fun y => match rest y with [] => Some y | _ :: _ => None end.

(** [(\d{3})], the second group of the pattern. *)
Definition threeDigits : Regex := Group 2 (Rep digit 3 (Some 3) true).

(** [(\d{3})+$], what the look-ahead holds. *)
Definition lookThousands : Regex :=
  Seq (Rep threeDigits 1 None true) EndAnchor.

(** ** formatThousands: what the replacement does *)

(** The separator after every digit that groups of three digits follow up
    to the end of the text. *)
Fixpoint mark (sign s : jsString) : jsString :=
  match s with
  | [] => []
  | d :: s' =>
    if isDigit d && groupable s' then d :: sign ++ mark sign s'
    else d :: mark sign s'
  end.

(** *** Grouping *)

(** A text of digits only. *)
Definition allDigits (s : jsString) : bool := forallb isDigit s.

(** A text that is empty or ends in a character that is no digit. *)
Definition endsNonDigit (pre : jsString) : bool :=
  match rev pre with
  | [] => true
  | x :: _ => negb (isDigit x)
  end.

(** *** The function as the specification words it *)

(** The text before the first [c] and, if there is a [c], the text after it. *)
Fixpoint splitFirst (c : ascii) (s : jsString) : jsString * option jsString :=
  match s with
  | [] => ([], None)
  | x :: s' =>
    if Ascii.eqb x c then ([], Some s')
    else let '(a, b) := splitFirst c s' in (x :: a, b)
  end.

(** The digits an integer part ends in, and what stands before them. *)
Definition trailingDigits (s : jsString) : jsString := rev (takeRun isDigit (rev s)).
Definition beforeDigits (s : jsString) : jsString := rev (dropRun isDigit (rev s)).

(** "insert separator into the integer part after every group of three
    digits counted from the right" *)
Definition groupInteger (sep int : jsString) : jsString :=
  beforeDigits int ++ grouped sep (trailingDigits int).

(** "stringify value; if separator is the empty string, return the
    stringified value unchanged; otherwise split on the first decimal point
    if present, [group the integer part], and rejoin with the original
    fractional part if one existed" *)
Definition spec_formatThousands (vl sep : jsString) : jsString :=
  match sep with
  | [] => vl
  | _ :: _ =>
    match splitFirst "." vl with
    | (int, Some frac) => groupInteger sep int ++ "." ++ frac
    | (int, None) => groupInteger sep int
    end
  end.

(** How many decimal points a text has. *)
Definition decimalPoints (s : jsString) : nat :=
  List.length (filter (Ascii.eqb ".") s).

(** ** Numerals *)

(** The decimal numeral of a natural number, as [`${count}`] writes the
    length of a string. *)
Definition decimalNat (n : nat) : jsString := uintChars (Nat.to_uint n).

(** ** The pattern of formatFoldDecimal *)

(** [[1-9]] *)
Definition nonZeroDigit : Regex := Class false [("1"%char, "9"%char)].

(** [\.0{t,}[1-9][0-9]*$] *)
Definition foldPattern (t : nat) : Regex :=
  Seq (Chr ".")
 (Seq (Rep (Chr "0") t None true)
 (Seq nonZeroDigit
 (Seq (Rep digit 0 None true) EndAnchor))).

(** *** Matching *)

(** The character [0]; a digit from 1 to 9. *)
Definition isZero : ascii -> bool := Ascii.eqb "0".
Definition isNonZeroDigit (c : ascii) : bool := inRange "1" "9" c.

(** The test the class [[1-9]] compiles to. *)
Definition nonZeroP : ascii -> bool :=
  fun ch => xorb false (inClass [("1"%char, "9"%char)] ch).

(** "a run of at least [t] zeros immediately followed by at least one
    nonzero digit, running to the end of the string": the zeros, a digit
    from 1 to 9, then digits only. *)
Definition foldableFraction (t : nat) (frac : jsString) : bool :=
  (t <=? List.length (takeRun isZero frac))%nat &&
  match dropRun isZero frac with
  | d :: ds => isNonZeroDigit d && allDigits ds
  | [] => false
  end.

(** [[1-9][0-9]*$] *)
Definition afterZeros : Continuation :=
  fun y => compile (Seq nonZeroDigit (Seq (Rep digit 0 None true) EndAnchor)) y Some.

(** The text before the last [.] and the text after it. *)
Fixpoint lastPoint (s : jsString) : option (jsString * jsString) :=
  match s with
  | [] => None
  | x :: s' =>
    match lastPoint s' with
    | Some (a, b) => Some (x :: a, b)
    | None => if Ascii.eqb "." x then Some ([], s') else None
    end
  end.

(** *** The function as the specification words it *)

(** "if it matches, ... take the fractional segment, measure the length of
    its leading zero run, and replace that entire leading run with
    ["0" + renderCount(count)], leaving the nonzero remainder untouched;
    rejoin with the integer part and decimal point"; the fractional part
    is the text after the last decimal point. *)
Definition spec_formatFoldDecimal (vl : jsString) (threshold : Z)
    (renderCount : nat -> jsString) : jsString :=
  match lastPoint vl with
  | Some (int, frac) =>
    let zeros := takeRun isZero frac in
    let remainder := dropRun isZero frac in
    if (threshold <=? Z.of_nat (List.length zeros))%Z &&
       match remainder with
       | d :: ds => isNonZeroDigit d && allDigits ds
       | [] => false
       end
    then int ++ "." ++ "0" ++ renderCount (List.length zeros) ++ remainder
    else vl
  | None => vl
  end.

(** ** formatDateToString *)

(** *** The components *)

(** The value of the last part of a type. *)
Definition lastOf (type : jsString) (parts : list Part) : option jsString :=
  fold_left (fun acc p => if str_eqb (partType p) type then Some (partValue p) else acc)
            parts None.

(** "hour [24] is normalized to [00]" *)
Definition normalHour (value : jsString) : jsString :=
  if str_eqb value "24" then list_ascii_of_string "00" else value.

(** "DateTimeComponents: a record with exactly six string fields": what
    the parts give, the last part of a type winning. *)
Definition componentsOf (parts : list Part) : DateTime :=
  mkDateTime (lastOf "year" parts) (lastOf "month" parts) (lastOf "day" parts)
             (option_map normalHour (lastOf "hour" parts))
             (lastOf "minute" parts) (lastOf "second" parts).

(** The fields of [d] after the parts have been assigned over them. *)
Definition fieldsFrom (parts : list Part) (d : DateTime) : DateTime :=
  let pick := fun type (old : option jsString) =>
    fold_left (fun acc p => if str_eqb (partType p) type then Some (partValue p) else acc)
              parts old in
  let pickHour := fun (old : option jsString) =>
    fold_left (fun acc p => if str_eqb (partType p) "hour"
                            then Some (normalHour (partValue p)) else acc) parts old in
  mkDateTime (pick "year" (YYYY d)) (pick "month" (MM d)) (pick "day" (DD d))
             (pickHour (HH d)) (pick "minute" (mm d)) (pick "second" (ss d)).

(** *** The template *)

(** The six tokens, in the order of the pattern. *)
Definition tokens : list jsString :=
  map list_ascii_of_string ["YYYY"; "MM"; "DD"; "HH"; "mm"; "ss"].

(** The first of [toks] a text starts with, and the text after it. *)
Fixpoint tokenAt (toks : list jsString) (s : jsString) : option (jsString * jsString) :=
  match toks with
  | [] => None
  | tok :: toks' =>
    match stripPrefix tok s with
    | Some r => Some (tok, r)
    | None => tokenAt toks' s
    end
  end.

(** "substitute every non-overlapping occurrence of the literal tokens ...
    with the corresponding component string; any other template characters
    pass through unchanged": a scan from left to right; [skip] counts the
    characters of a token still to be passed over. *)
Fixpoint substitute (component : jsString -> jsString) (skip : nat) (s : jsString)
  : jsString :=
  match s with
  | [] => []
  | c :: s' =>
    match skip with
    | S k => substitute component k s'
    | O =>
      match tokenAt tokens s with
      | Some (tok, _) => component tok ++ substitute component (List.length tok - 1) s'
      | None => c :: substitute component 0 s'
      end
    end
  end.

(** A word as a pattern, and a choice of words. *)
Fixpoint literal (w : jsString) : Regex :=
  match w with
  | [] => Empty
  | [c] => Chr c
  | c :: w' => Seq (Chr c) (literal w')
  end.

Fixpoint anyOf (ws : list jsString) : Regex :=
  match ws with
  | [] => Empty
  | [w] => literal w
  | w :: ws' => Alt (literal w) (anyOf ws')
  end.

(** ** formatValue *)

(** Sequential member access [data.k1.k2...], as long as the value
    accessed is valid: [None] when the access stops at [null] or
    [undefined] before the last key. *)
Fixpoint access (data : Value) (keys : list jsString) : option Value :=
  match keys with
  | [] => Some data
  | k :: keys' =>
    match data with
    | Undefined | Null => None
    | _ =>
      match getMember data k with
      | Ok v => access v keys'
      | Throw _ => None
      end
    end
  end.

(** What [formatValue] answers for a value reached or not reached. *)
Definition resolved (reached : option Value) (defaultValue : Value) : Value :=
  match reached with
  | Some v => if isValid v then v else nullish defaultValue placeholder
  | None => nullish defaultValue placeholder
  end.

(** The object [{k: v}]. *)
Definition nested (k : string) (v : Value) : Value := Object [(list_ascii_of_string k, v)].

(** The key [a["b.c"]]. *)
Definition quotedKey : jsString := "a[" ++ [dquote] ++ "b.c" ++ [dquote] ++ "]".

(** ** Numerals and rounding *)

(** The Number a decimal literal of the source denotes. *)
Definition num (literal : string) : number := StringToNumber literal.

(** ** formatBigNumber *)

(** The unit by which a number is abbreviated and its suffix: the largest
    of the three units that the number strictly exceeds. *)
Inductive abbreviates (v : number) : Z -> jsString -> Prop :=
| byBillion :
    gt v (ofZ 1000000000) = true -> abbreviates v 1000000000%Z "B"
| byMillion :
    gt v (ofZ 1000000) = true -> gt v (ofZ 1000000000) = false ->
    abbreviates v 1000000%Z "M"
| byThousand :
    gt v (ofZ 1000) = true -> gt v (ofZ 1000000) = false ->
    abbreviates v 1000%Z "K".

(** The numeral of [n / 1000] with its three decimals. *)
Definition thousandths (n : Z) : jsString :=
  fst (fixedDigits n 3) ++ "." ++ snd (fixedDigits n 3).

(** The claim as it stands: a value equal to a unit is left as it is. *)
Definition atThreshold (v : number) : bool :=
  sameValue v (ofZ 1000) || sameValue v (ofZ 1000000) || sameValue v (ofZ 1000000000).

(** ** formatPrecision *)

(** [precision ?? 2] *)
Definition precisionOr2 (precision : option number) : number :=
  match precision with
  | Some p => p
  | None => ofZ 2
  end.

(** ** Captures: what a match can change *)

(** Every successful run of [m] calls its continuation, with success, on
    a state whose captures are related by [R] to those it started from. *)
Definition ensures (m : Matcher) (R : Captures -> Captures -> Prop) : Prop :=
  forall x c z, m x c = Some z -> exists y, R (caps x) (caps y) /\ c y = Some z.

(** ** formatValue: the keys of a path *)

(** Whenever group 2 of [rePropName] took part in a match, so did group 3. *)
Definition quotedComplete (cs : Captures) : Prop :=
  getCap 2 cs = None \/ getCap 3 cs <> None.

(** ** The text of a number inside a pattern *)

(** A letter of the ASCII alphabet. *)
Definition isLetter (c : ascii) : bool := inRange "a" "z" c || inRange "A" "Z" c.

(** The characters Number::toString writes, [+] apart. *)
Definition numeralChar (c : ascii) : bool :=
  isDigit c || isLetter c || Ascii.eqb c "-" || Ascii.eqb c ".".

(** A text of numeral characters. *)
Definition plain (s : jsString) : bool := forallb numeralChar s.

(** Numeral characters, where a [+] may follow one of them if another one
    comes next: the shape of [1e+21]. *)
Fixpoint tame (w : jsString) : bool :=
  match w with
  | [] => true
  | c :: w' =>
    numeralChar c &&
    match w' with
    | [] => true
    | p :: w'' =>
      if Ascii.eqb p "+"
      then match w'' with d :: _ => numeralChar d | [] => false end && tame w''
      else tame w'
    end
  end.

(** The number a numeral denotes. *)
Definition numeralValue (w : jsString) : nat := fst (digitsValue 0 w).

(** ** The two policies of formatFoldDecimal *)

(** The zeros after the last decimal point are fewer than [t]. *)
Definition shortRun (t : nat) (vl : jsString) : Prop :=
  match lastPoint vl with
  | Some (_, frac) => List.length (takeRun isZero frac) < t
  | None => True
  end.

(** ** Every operation returns *)

(** A formatter that, like [Intl.DateTimeFormat], refuses an invalid date. *)
Definition strictFormat (parts : list Part) : DateTimeFormat :=
  {| formatToParts := fun t => match t with
                               | S754_nan => Throw RangeError
                               | _ => Ok parts
                               end |}.

(** The parts of a date whose hour is written 24. *)
Definition midnight : list Part :=
  [mkPart "year" "2024"; mkPart "literal" "-"; mkPart "month" "02"; mkPart "literal" "-";
   mkPart "day" "29"; mkPart "literal" " "; mkPart "hour" "24"; mkPart "literal" ":";
   mkPart "minute" "05"; mkPart "literal" ":"; mkPart "second" "09"].

(** ** The matcher never runs out of fuel *)

(** A matcher is local when it gives its continuation only states whose
    remaining text is no longer than the one it started with. *)
Definition local (m : Matcher) : Prop :=
  forall x c c',
    (forall y, List.length (rest y) <= List.length (rest x) -> c y = c' y) ->
    m x c = m x c'.

(** Every successful run of [m] ends, with success, in its continuation, on
    a state whose text is a suffix of the text [m] started with. *)
Definition advances (m : Matcher) : Prop :=
  forall x c z, m x c = Some z -> exists y w, rest x = w ++ rest y /\ c y = Some z.

(** ** The date components *)

(** A component read in a template: the text [undefined] when the
    formatter gave no part of its type. *)
Definition orUndefined (o : option jsString) : jsString :=
  match o with
  | Some v => v
  | None => "undefined"
  end.

(** The parts of a time of day only: no year, month or day. *)
Definition clockParts : list Part :=
  [mkPart "hour" "07"; mkPart "literal" ":"; mkPart "minute" "30"; mkPart "literal" ":";
   mkPart "second" "00"; mkPart "hour" "24"].

(** One of the letters a token starts with. *)
Definition tokenLetter (c : ascii) : bool :=
  Ascii.eqb c "Y" || Ascii.eqb c "M" || Ascii.eqb c "D"
  || Ascii.eqb c "H" || Ascii.eqb c "m" || Ascii.eqb c "s".

(** ** formatThousands: what it adds and what it keeps *)

(** Every character but [c]. *)
Definition without (c : ascii) (s : jsString) : jsString :=
  filter (fun x => negb (Ascii.eqb x c)) s.

(** The integer part of a text: what stands before its first decimal point. *)
Definition integerPart (vl : jsString) : jsString := fst (splitFirst "." vl).

(** ** formatFoldDecimal: thresholds, policies, folding twice *)

(** The subscript glyph of a digit, from the table [subscriptNumbers]. *)
Definition subscriptGlyph (d : ascii) : jsString :=
  match subscriptNumbers [d] with
  | Some glyph => glyph
  | None => []
  end.

(** The count as the subscript policy writes it: the glyph of its first
    digit, then its other digits as they are. *)
Definition subscriptFirst (count : nat) : jsString :=
  match countText count with
  | d :: ds => subscriptGlyph d ++ ds
  | [] => []
  end.

(** *** A threshold that is not a natural number *)

(** A text that is the numeral of a natural number: digits, one at least. *)
Definition naturalNumeral (w : jsString) : bool :=
  allDigits w && negb (List.length w =? 0)%nat.

(** ** formatValue: the paths a key is read as *)

(** A character of a plain key: any but the point and the two brackets. *)
Definition keyChar (c : ascii) : bool :=
  negb (Ascii.eqb c "." || Ascii.eqb c "[" || Ascii.eqb c "]").

(** A plain key: one character at least, all of them plain. *)
Definition plainKey (k : jsString) : bool :=
  negb (List.length k =? 0)%nat && forallb keyChar k.

(** The test the class [[^.[\]]] compiles to. *)
Definition keyP : ascii -> bool :=
  fun ch => xorb true (inClass [("."%char, "."%char); ("["%char, "["%char);
                                ("]"%char, "]"%char)] ch).

(** The captures a search starts with: none of the three groups set. *)
Definition noCaptures : Captures := [None; None; None].

(** The first alternative of [rePropName]: a run of plain characters. *)
Definition plainRun : Regex :=
  Rep (Class true [("."%char, "."%char); ("["%char, "["%char); ("]"%char, "]"%char)])
      1 None true.

(** A tail a plain key can stand before: the end, a point or a bracket. *)
Definition keyTail (tail : jsString) : Prop :=
  match tail with
  | [] => True
  | x :: _ => keyChar x = false
  end.

(** The object [{ user: { tags: ["x", "y"] } }]. *)
Definition userTags : Value :=
  nested "user" (nested "tags" (Array [String "x"; String "y"])).

(** ** formatValue: keys between brackets *)

(** A quotation mark, double or single. *)
Definition isQuote (c : ascii) : bool := Ascii.eqb c dquote || Ascii.eqb c "'".

(** The parts of the bracket alternative of [rePropName]: group 1, a key
    without quotation marks; one step of a quoted key, a character other
    than the closing mark and the backslash, or a backslash and one
    character; groups 2 and 3, a quotation mark, a quoted key taken
    lazily, and the same mark again. *)
Definition unquoted : Regex :=
  Group 1 (Seq (Class true [(dquote, dquote); ("'"%char, "'"%char)])
               (Rep (Class true [("["%char, "["%char)]) 0 None true)).

Definition escaped : Regex :=
  NonCapture (Alt (Seq (NegLookAhead (BackRef 2)) (Class true [("\"%char, "\"%char)]))
                  (Seq (Chr "\") Dot)).

Definition quoted : Regex :=
  Seq (Group 2 (Class false [(dquote, dquote); ("'"%char, "'"%char)]))
      (Seq (Group 3 (Rep escaped 0 None false)) (BackRef 2)).

(** A character of a quoted key: any but the quotation mark around the key
    and the backslash. *)
Definition quotedChar (q c : ascii) : bool :=
  negb (Ascii.eqb c q) && negb (Ascii.eqb c "\").

(** A character of a key between brackets without quotation marks: any
    but the brackets. *)
Definition indexChar (c : ascii) : bool :=
  negb (Ascii.eqb c "[") && negb (Ascii.eqb c "]").

(** The test the class [[^[]] compiles to. *)
Definition notOpen : ascii -> bool :=
  fun ch => xorb true (inClass [("["%char, "["%char)] ch).

(** The text before the next opening bracket has no closing bracket. *)
Definition closedBefore (tail : jsString) : bool :=
  negb (includes "]" (takeRun notOpen tail)).

(** *** Paths *)

(** A step of a path: a plain key, a key between brackets, or a quoted key
    between brackets with its quotation mark. *)
Inductive Segment : Type :=
| Plain (k : jsString)
| Index (k : jsString)
| Quoted (q : ascii) (k : jsString).

(** A path as it is written: a plain key after another step is preceded
    by a point. *)
Fixpoint pathText (first : bool) (segs : list Segment) : jsString :=
  match segs with
  | [] => []
  | Plain k :: segs' => (if first then k else "."%char :: k) ++ pathText false segs'
  | Index k :: segs' => "["%char :: k ++ "]"%char :: pathText false segs'
  | Quoted q k :: segs' => "["%char :: q :: k ++ q :: "]"%char :: pathText false segs'
  end.

(** A character of ASCII. *)
Definition isAscii (c : ascii) : bool := (code c <? 128)%N.

(** The key a step stands for: the text between brackets is trimmed. *)
Definition segmentKey (seg : Segment) : jsString :=
  match seg with
  | Plain k => k
  | Index k => trim k
  | Quoted _ k => k
  end.

(** The steps covered: a plain key is not empty and has no point or
    bracket; a key between brackets is not empty, is made of characters
    of ASCII other than the brackets and does not start with a quotation
    mark; a quoted key has neither its own quotation mark nor a
    backslash. *)
Definition wellFormed (seg : Segment) : bool :=
  match seg with
  | Plain k => plainKey k
  | Index k =>
    match k with
    | c :: _ => negb (isQuote c) && forallb indexChar k && forallb isAscii k
    | [] => false
    end
  | Quoted q k => isQuote q && forallb (quotedChar q) k
  end.

(** The object [{ rows: [{ "a.b": 1 }, { "x[0]": 2 }] }]. *)
Definition rowsData : Value :=
  nested "rows" (Array [nested "a.b" (Number (ofZ 1)); nested "x[0]" (Number (ofZ 2))]).


(* ================================================================== *)
(** * Properties *)

Arguments Ascii.eqb : simpl never.

(** ** Unfolding the quantifier *)

Lemma repeatMatcher_more fuel m n greedy gs x c :
  repeatMatcher (S fuel) m (S n) None greedy gs x c =
  m (clearCaps gs x) (fun y => repeatMatcher fuel m n None greedy gs y c).
Proof. reflexivity. Qed.

Lemma repeatMatcher_greedy fuel m gs x c :
  repeatMatcher (S fuel) m 0 None true gs x c =
  orElse (m (clearCaps gs x)
            (fun y => if (List.length (rest y) =? List.length (rest x))%nat then None
                      else repeatMatcher fuel m 0 None true gs y c))
         (c x).
Proof. reflexivity. Qed.

Lemma repeatMatcher_lazy fuel m gs x c :
  repeatMatcher (S fuel) m 0 None false gs x c =
  orElse (c x)
         (m (clearCaps gs x)
            (fun y => if (List.length (rest y) =? List.length (rest x))%nat then None
                      else repeatMatcher fuel m 0 None false gs y c)).
Proof. reflexivity. Qed.

(** ** The matcher on runs of one character class *)

Lemma clearCaps_nil x : clearCaps [] x = x.
Proof. destruct x; reflexivity. Qed.

Lemma charMatcher_cons (p : ascii -> bool) ch s cs (c : Continuation) :
  charMatcher p (mkState (ch :: s) cs) c = if p ch then c (mkState s cs) else None.
Proof. reflexivity. Qed.

Lemma charMatcher_nil (p : ascii -> bool) cs (c : Continuation) :
  charMatcher p (mkState [] cs) c = None.
Proof. reflexivity. Qed.

Lemma repeat_star_char (p : ascii -> bool) fuel c cs s :
  List.length s < fuel ->
  repeatMatcher fuel (charMatcher p) 0 None true [] (mkState s cs) c = starChar p c cs s.
Proof.
  revert s. induction fuel as [|fuel IH]; intros s Hf; [lia|].
  cbn [repeatMatcher Nat.eqb negb andb]. rewrite clearCaps_nil.
  destruct s as [|ch s'].
  - rewrite charMatcher_nil. reflexivity.
  - rewrite charMatcher_cons. cbn [starChar].
    destruct (p ch); [|reflexivity].
    cbn [rest List.length].
    replace (List.length s' =? S (List.length s'))%nat with false
      by (symmetry; apply Nat.eqb_neq; lia).
    cbn [option_map pred]. rewrite IH by (cbn in Hf; lia). reflexivity.
Qed.

Lemma repeat_min_char (p : ascii -> bool) fuel min c cs s :
  min + List.length s < fuel ->
  repeatMatcher fuel (charMatcher p) min None true [] (mkState s cs) c = repChar p min c cs s.
Proof.
  revert fuel s. induction min as [|min IH]; intros fuel s Hf.
  - apply repeat_star_char. lia.
  - destruct fuel as [|fuel]; [lia|].
    cbn [repeatMatcher Nat.eqb negb andb repChar]. rewrite clearCaps_nil.
    destruct s as [|ch s']; [reflexivity|].
    rewrite charMatcher_cons.
    destruct (p ch); [|reflexivity].
    cbn [option_map pred]. apply IH. cbn in Hf. lia.
Qed.

Lemma repeat_exact_char (p : ascii -> bool) fuel n c cs s :
  n < fuel ->
  repeatMatcher fuel (charMatcher p) n (Some n) true [] (mkState s cs) c = exactChar p n c cs s.
Proof.
  revert fuel s. induction n as [|n IH]; intros fuel s Hf.
  - destruct fuel; [lia|]. reflexivity.
  - destruct fuel as [|fuel]; [lia|].
    cbn [repeatMatcher Nat.eqb negb andb exactChar]. rewrite clearCaps_nil.
    destruct s as [|ch s']; [reflexivity|].
    rewrite charMatcher_cons.
    destruct (p ch); [|reflexivity].
    cbn [option_map pred]. apply IH. lia.
Qed.

Lemma takeRun_dropRun (p : ascii -> bool) s : takeRun p s ++ dropRun p s = s.
Proof. induction s as [|ch s IH]; cbn; [reflexivity|]. destruct (p ch); cbn; congruence. Qed.

(** A continuation that refuses every text starting in [p] makes the star
    take the whole run. *)
Lemma starChar_blocked (p : ascii -> bool) c cs s :
  (forall ch s', p ch = true -> c (mkState (ch :: s') cs) = None) ->
  starChar p c cs s = c (mkState (dropRun p s) cs).
Proof.
  intros Hc. induction s as [|ch s IH]; cbn; [reflexivity|].
  destruct (p ch) eqn:E; [|reflexivity].
  rewrite IH, (Hc _ _ E). destruct (c _); reflexivity.
Qed.

(** So does a continuation that accepts after the whole run. *)
Lemma starChar_accepted (p : ascii -> bool) c cs s :
  c (mkState (dropRun p s) cs) <> None ->
  starChar p c cs s = c (mkState (dropRun p s) cs).
Proof.
  intros Hc. induction s as [|ch s IH]; cbn in *; [reflexivity|].
  destruct (p ch) eqn:E; [|reflexivity].
  rewrite (IH Hc). destruct (c (mkState (dropRun p s) cs)); [reflexivity|contradiction].
Qed.

(** ** The pattern of formatThousands *)

Lemma digitP_isDigit ch : digitP ch = isDigit ch.
Proof.
  unfold digitP, inClass, isDigit. cbn [existsb fst snd].
  rewrite orb_false_r. reflexivity.
Qed.

Lemma compile_threeDigits s cs (c : Continuation) :
  compile threeDigits (mkState s cs) c =
  match s with
  | d1 :: d2 :: d3 :: s' =>
    if isDigit d1 && isDigit d2 && isDigit d3
    then c (mkState s' (setCap 1 (Some [d1; d2; d3]) cs))
    else None
  | _ => None
  end.
Proof.
  cbn [compile threeDigits digit groupsOf].
  change (charMatcher (fun ch => xorb false (inClass [("0"%char, "9"%char)] ch)))
    with (charMatcher digitP).
  rewrite repeat_exact_char by (unfold repeatFuel; lia).
  destruct s as [|d1 [|d2 [|d3 s']]]; cbn [exactChar]; rewrite ?digitP_isDigit.
  - reflexivity.
  - destruct (isDigit d1); reflexivity.
  - destruct (isDigit d1); [|reflexivity]. rewrite ?digitP_isDigit.
    destruct (isDigit d2); reflexivity.
  - destruct (isDigit d1); [|reflexivity]. rewrite ?digitP_isDigit.
    destruct (isDigit d2); [|reflexivity]. rewrite ?digitP_isDigit.
    destruct (isDigit d3); [|reflexivity].
    cbn [andb rest caps]. unfold consumed. cbn [rest List.length].
    replace (S (S (S (List.length s'))) - List.length s') with 3 by lia.
    reflexivity.
Qed.

Lemma clearCaps_rest gs x : rest (clearCaps gs x) = rest x.
Proof. reflexivity. Qed.

(** [(\d{3})*$]: the star of the look-ahead once its first group is read. *)
Lemma star_threeDigits fuel s cs :
  List.length s < fuel ->
  ok (repeatMatcher fuel (compile threeDigits) 0 None true [2] (mkState s cs) atEnd)
  = tripleRuns s.
Proof.
  revert s cs. induction fuel as [|fuel IH]; intros s cs Hf; [lia|].
  rewrite repeatMatcher_greedy.
  unfold clearCaps. cbn [rest caps].
  rewrite compile_threeDigits.
  destruct s as [|d1 [|d2 [|d3 s']]]; try reflexivity.
  destruct (isDigit d1 && isDigit d2 && isDigit d3) eqn:E.
  - cbn [rest List.length].
    replace (List.length s' =? S (S (S (List.length s'))))%nat with false
      by (symmetry; apply Nat.eqb_neq; lia).
    cbn [tripleRuns]. rewrite E. cbn [andb].
    rewrite <- (IH s' (setCap 1 (Some [d1; d2; d3])
       (fold_left (fun cs0 i => setCap (i - 1) None cs0) [2] cs))) by (cbn in Hf; lia).
    destruct (repeatMatcher fuel _ _ _ _ _ _ _); reflexivity.
  - cbn [orElse tripleRuns atEnd rest ok]. rewrite E. reflexivity.
Qed.

Lemma compile_EndAnchor y : compile EndAnchor y Some = atEnd y.
Proof. reflexivity. Qed.

Lemma ok_lookThousands s cs :
  ok (compile lookThousands (mkState s cs) Some) = groupable s.
Proof.
  cbn [compile lookThousands].
  change (fun y => match rest y with [] => Some y | _ :: _ => None end) with atEnd.
  unfold repeatFuel. cbn [rest Nat.add].
  rewrite repeatMatcher_more.
  change (groupsOf threeDigits) with [2].
  unfold clearCaps. cbn [rest caps].
  rewrite compile_threeDigits.
  destruct s as [|d1 [|d2 [|d3 s']]]; try reflexivity.
  cbn [groupable tripleRuns].
  destruct (isDigit d1 && isDigit d2 && isDigit d3); [|reflexivity].
  cbn [andb]. apply star_threeDigits. cbn. lia.
Qed.

Lemma rest_lookahead (r : Regex) x (c : Continuation) :
  compile (LookAhead r) x c =
  match compile r x Some with
  | Some y => c (mkState (rest x) (caps y))
  | None => None
  end.
Proof. reflexivity. Qed.

Lemma compile_group_digit i s cs (c : Continuation) :
  compile (Group i digit) (mkState s cs) c =
  match s with
  | d :: s' => if isDigit d then c (mkState s' (setCap (i - 1) (Some [d]) cs)) else None
  | [] => None
  end.
Proof.
  cbn [compile digit].
  change (charMatcher (fun ch => xorb false (inClass [("0"%char, "9"%char)] ch)))
    with (charMatcher digitP).
  destruct s as [|d s']; [reflexivity|].
  rewrite charMatcher_cons, digitP_isDigit.
  destruct (isDigit d); [|reflexivity].
  unfold consumed. cbn [rest caps List.length].
  replace (S (List.length s') - List.length s') with 1 by lia.
  reflexivity.
Qed.

Lemma compile_reThousands x (c : Continuation) :
  compile reThousands x c =
  compile (Group 1 digit) x (fun y => compile (LookAhead lookThousands) y c).
Proof. reflexivity. Qed.

(** The pattern at the start of a text: a digit followed by groups of
    three digits up to the end; it consumes the digit. *)
Lemma matchAt_reThousands s :
  match matchAt reThousands s with
  | Some y => exists d, s = d :: rest y /\ isDigit d = true /\ groupable (rest y) = true
  | None => match s with
            | [] => True
            | d :: s' => isDigit d && groupable s' = false
            end
  end.
Proof.
  unfold matchAt. rewrite compile_reThousands, compile_group_digit.
  destruct s as [|d s']; [exact I|].
  destruct (isDigit d) eqn:Ed; [|reflexivity].
  rewrite rest_lookahead. cbn [rest caps andb].
  pose proof (ok_lookThousands s'
    (setCap (1 - 1) (Some [d]) (repeat None (maxGroup reThousands)))) as H.
  destruct (compile lookThousands _ Some) as [y|].
  - cbn [ok] in H. cbn [rest]. exists d. repeat split; auto.
  - cbn [ok] in H. symmetry. exact H.
Qed.

(** ** The search and the replacement loop *)

Lemma exec_eq r s :
  exec r s =
  match matchAt r s with
  | Some y =>
      Some (mkMatch [] (firstn (List.length s - List.length (rest y)) s) (caps y) (rest y))
  | None =>
      match s with
      | [] => None
      | ch :: s' => option_map (shift ch) (exec r s')
      end
  end.
Proof. destruct s; reflexivity. Qed.

Lemma replaceAll_done fuel r f seen :
  matchAt r [] = None -> replaceAllFuel fuel r f seen [] = [].
Proof.
  intros H. destruct fuel; [reflexivity|]. cbn [replaceAllFuel].
  rewrite exec_eq, H. reflexivity.
Qed.

(** No match at the first character: it is copied and the search goes on. *)
Lemma replaceAll_skip fuel r f seen ch s :
  matchAt r (ch :: s) = None ->
  replaceAllFuel (S fuel) r f seen (ch :: s) =
  ch :: replaceAllFuel (S fuel) r f (seen ++ [ch]) s.
Proof.
  intros H. cbn [replaceAllFuel]. rewrite (exec_eq r (ch :: s)), H.
  destruct (exec r s) as [m|]; cbn [option_map shift before matched groups after];
    [|reflexivity].
  rewrite <- !app_assoc. cbn [app].
  destruct (matched m), (after m); reflexivity.
Qed.

(** A match at the start that consumes [w], not empty. *)
Lemma replaceAll_here fuel r f seen s y w :
  matchAt r s = Some y -> s = w ++ rest y -> w <> [] ->
  replaceAllFuel (S fuel) r f seen s =
  f (mkMatch seen w (caps y) (rest y)) ++ replaceAllFuel fuel r f (seen ++ w) (rest y).
Proof.
  intros H Hs Hw. cbn [replaceAllFuel]. rewrite exec_eq, H.
  cbn [before matched groups after].
  assert (E : firstn (List.length s - List.length (rest y)) s = w).
  { rewrite Hs at 2. rewrite Hs at 1. rewrite length_app.
    replace (List.length w + List.length (rest y) - List.length (rest y))
      with (List.length w) by lia.
    rewrite firstn_app, Nat.sub_diag, firstn_all. cbn. apply app_nil_r. }
  rewrite E, !app_nil_r. cbn [app].
  destruct w as [|a w]; [contradiction|]. reflexivity.
Qed.

(** ** formatThousands: what the replacement does *)

Lemma replaceAll_reThousands sign s : forall fuel seen,
  List.length s < fuel ->
  replaceAllFuel fuel reThousands (fun m => matched m ++ sign) seen s = mark sign s.
Proof.
  induction s as [|d s IH]; intros fuel seen Hf.
  - apply replaceAll_done. reflexivity.
  - destruct fuel as [|fuel]; [lia|]. cbn [List.length] in Hf.
    pose proof (matchAt_reThousands (d :: s)) as M.
    destruct (matchAt reThousands (d :: s)) as [y|] eqn:E.
    + destruct M as (d' & Hs & Hd & Hg). injection Hs as <- Hr.
      rewrite (replaceAll_here fuel reThousands _ seen (d :: s) y [d] E); [|rewrite <- Hr; reflexivity|discriminate].
      cbn [matched mark]. rewrite <- Hr in *. rewrite Hd, Hg. cbn [andb app].
      rewrite IH by lia. reflexivity.
    + rewrite replaceAll_skip by exact E. cbn [mark]. rewrite M.
      rewrite IH by lia. reflexivity.
Qed.

Lemma replaceAll_thousands sign s :
  replaceAll reThousands (fun m => matched m ++ sign) s = mark sign s.
Proof. apply replaceAll_reThousands. lia. Qed.

(** *** Grouping *)

Lemma tripleRuns_allDigits s : tripleRuns s = true -> allDigits s = true.
Proof.
  assert (H : forall n s, List.length s <= n -> tripleRuns s = true -> allDigits s = true).
  { induction n as [|n IH]; intros [|d1 [|d2 [|d3 t]]] Hl Ht; cbn in *;
      try reflexivity; try discriminate; try lia.
    apply andb_prop in Ht as [Ht Hr]. apply andb_prop in Ht as [Ht H3].
    apply andb_prop in Ht as [H1 H2]. rewrite H1, H2, H3. cbn.
    apply IH; [lia|exact Hr]. }
  apply (H (List.length s)). lia.
Qed.

Lemma tripleRuns_length s :
  allDigits s = true -> tripleRuns s = (List.length s mod 3 =? 0)%nat.
Proof.
  assert (H : forall n s, List.length s <= n -> allDigits s = true ->
                          tripleRuns s = (List.length s mod 3 =? 0)%nat).
  { induction n as [|n IH]; intros [|d1 [|d2 [|d3 t]]] Hl Hd; cbn [List.length] in *;
      try reflexivity; try lia.
    cbn [tripleRuns]. cbn [allDigits forallb] in Hd.
    apply andb_prop in Hd as [H1 Hd]. apply andb_prop in Hd as [H2 Hd].
    apply andb_prop in Hd as [H3 Hd]. rewrite H1, H2, H3. cbn [andb].
    rewrite (IH t) by (try lia; exact Hd).
    replace (S (S (S (List.length t)))) with (List.length t + 1 * 3) by lia.
    rewrite Nat.Div0.mod_add. reflexivity. }
  apply (H (List.length s)). lia.
Qed.

Lemma groupable_length s :
  allDigits s = true ->
  groupable s = (0 <? List.length s)%nat && (List.length s mod 3 =? 0)%nat.
Proof.
  intros H. destruct s as [|d s]; [reflexivity|].
  unfold groupable. rewrite tripleRuns_length by exact H. reflexivity.
Qed.

(** On a run of digits the replacement is the grouping by three. *)
Lemma mark_digits sign ds : allDigits ds = true -> mark sign ds = grouped sign ds.
Proof.
  induction ds as [|d ds IH]; intros H; [reflexivity|].
  cbn [allDigits forallb] in H. apply andb_prop in H as [Hd H].
  cbn [mark grouped]. rewrite Hd, (groupable_length ds H), IH by exact H.
  reflexivity.
Qed.

(** Before a character that is no digit nothing is inserted. *)
Lemma mark_before_nondigit sign pre x s :
  isDigit x = false -> mark sign (pre ++ x :: s) = pre ++ x :: mark sign s.
Proof.
  intros Hx. induction pre as [|d pre IH]; cbn [app mark].
  - rewrite Hx. reflexivity.
  - replace (groupable (pre ++ x :: s)) with false.
    + rewrite andb_false_r, IH. reflexivity.
    + symmetry. destruct (groupable (pre ++ x :: s)) eqn:G; [|reflexivity].
      assert (T : tripleRuns (pre ++ x :: s) = true).
      { destruct (pre ++ x :: s); [discriminate|exact G]. }
      apply tripleRuns_allDigits in T. unfold allDigits in T.
      rewrite forallb_app in T. apply andb_prop in T as [_ T].
      cbn in T. rewrite Hx in T. discriminate.
Qed.

Lemma mark_trailing sign pre ds :
  endsNonDigit pre = true -> allDigits ds = true ->
  mark sign (pre ++ ds) = pre ++ grouped sign ds.
Proof.
  intros Hp Hd. unfold endsNonDigit in Hp.
  destruct (rev pre) as [|x rp] eqn:E.
  - apply (f_equal (@rev ascii)) in E. rewrite rev_involutive in E. subst pre.
    cbn. apply mark_digits, Hd.
  - apply (f_equal (@rev ascii)) in E. rewrite rev_involutive in E. subst pre.
    cbn [rev]. rewrite <- app_assoc. cbn [app].
    rewrite mark_before_nondigit by (destruct (isDigit x); [discriminate|reflexivity]).
    rewrite mark_digits by exact Hd. rewrite <- app_assoc. reflexivity.
Qed.

(** Every text is a prefix that ends in no digit followed by digits. *)
Lemma trailing_digits s :
  exists pre ds, s = pre ++ ds /\ endsNonDigit pre = true /\ allDigits ds = true.
Proof.
  induction s as [|x s IH] using rev_ind.
  - exists [], []. repeat split.
  - destruct (isDigit x) eqn:Hx.
    + destruct IH as (pre & ds & -> & Hp & Hd).
      exists pre, (ds ++ [x]). rewrite app_assoc. repeat split; [exact Hp|].
      unfold allDigits. rewrite forallb_app. cbn. unfold allDigits in Hd.
      rewrite Hd, Hx. reflexivity.
    + exists (s ++ [x]), []. rewrite app_nil_r. repeat split.
      unfold endsNonDigit. rewrite rev_app_distr. cbn. rewrite Hx. reflexivity.
Qed.

(** *** Splitting at the decimal point *)

Lemma split_none c s : includes c s = false -> split c s = [s].
Proof.
  induction s as [|x s IH]; cbn; [reflexivity|].
  rewrite Ascii.eqb_sym. destruct (Ascii.eqb x c); [discriminate|].
  intros H. rewrite (IH H). reflexivity.
Qed.

Lemma split_at c a b :
  includes c a = false -> split c (a ++ c :: b) = a :: split c b.
Proof.
  induction a as [|x a IH]; cbn.
  - rewrite Ascii.eqb_refl. reflexivity.
  - rewrite Ascii.eqb_sym. destruct (Ascii.eqb x c); [discriminate|].
    intros H. rewrite (IH H). reflexivity.
Qed.

Lemma includes_app c a b : includes c (a ++ b) = includes c a || includes c b.
Proof. apply existsb_app. Qed.

Lemma includes_at c a b : includes c (a ++ c :: b) = true.
Proof.
  rewrite includes_app. cbn. rewrite Ascii.eqb_refl, orb_true_r. reflexivity.
Qed.

(** *** Grouping twice *)

Lemma grouped_short sep ds : List.length ds <= 3 -> grouped sep ds = ds.
Proof.
  induction ds as [|d ds IH]; intros H; [reflexivity|].
  cbn [grouped]. cbn [List.length] in H.
  replace ((0 <? List.length ds)%nat && (List.length ds mod 3 =? 0)%nat) with false.
  - rewrite IH by lia. reflexivity.
  - destruct ds as [|a [|b [|c ds]]]; cbn in *; try reflexivity; lia.
Qed.

(** A grouped numeral of more than three digits ends in a separator and
    three digits. *)
Lemma grouped_long sep ds :
  3 < List.length ds -> allDigits ds = true ->
  exists a t, grouped sep ds = a ++ sep ++ t /\ List.length t = 3 /\ allDigits t = true.
Proof.
  induction ds as [|d ds IH]; intros Hl Hd; [cbn in Hl; lia|].
  cbn [allDigits forallb] in Hd. apply andb_prop in Hd as [_ Hd].
  cbn [List.length] in Hl. cbn [grouped].
  destruct (Nat.eq_dec (List.length ds) 3) as [E|E].
  - rewrite E. cbn [Nat.ltb Nat.leb Nat.modulo Nat.divmod Nat.eqb andb fst snd Nat.sub].
    exists [d], ds. rewrite grouped_short by lia. repeat split; assumption.
  - destruct (IH ltac:(lia) Hd) as (a & t & Eg & Ht & Hdt).
    rewrite Eg.
    destruct ((0 <? List.length ds)%nat && (List.length ds mod 3 =? 0)%nat).
    + exists (d :: sep ++ a), t.
      split; [cbn [app]; rewrite <- app_assoc; reflexivity|split; assumption].
    + exists (d :: a), t. repeat split; assumption.
Qed.

Lemma endsNonDigit_app a sep :
  sep <> [] -> endsNonDigit (a ++ sep) = endsNonDigit sep.
Proof.
  intros H. unfold endsNonDigit. rewrite rev_app_distr.
  destruct (rev sep) as [|x r] eqn:E; [|reflexivity].
  apply (f_equal (@rev ascii)) in E. rewrite rev_involutive in E. contradiction.
Qed.

Lemma mark_empty_sign s : mark [] s = s.
Proof.
  induction s as [|d s IH]; [reflexivity|]. cbn [mark app]. rewrite IH.
  destruct (isDigit d && groupable s); reflexivity.
Qed.

(** With a separator that does not end in a digit, what was grouped is
    left as it is. *)
Lemma mark_idempotent sep s :
  endsNonDigit sep = true -> mark sep (mark sep s) = mark sep s.
Proof.
  intros Hs. destruct sep as [|c sep'] eqn:Esep.
  { rewrite !mark_empty_sign. reflexivity. }
  rewrite <- Esep in *. assert (Hne : sep <> []) by (rewrite Esep; discriminate).
  destruct (trailing_digits s) as (pre & ds & -> & Hp & Hd).
  rewrite (mark_trailing sep pre ds Hp Hd).
  destruct (Nat.le_gt_cases (List.length ds) 3) as [Hl|Hl].
  - rewrite grouped_short by exact Hl. rewrite (mark_trailing sep pre ds Hp Hd).
    rewrite grouped_short by exact Hl. reflexivity.
  - destruct (grouped_long sep ds Hl Hd) as (a & t & Eg & Ht & Hdt).
    rewrite Eg. rewrite !app_assoc.
    rewrite (mark_trailing sep ((pre ++ a) ++ sep) t); [|rewrite endsNonDigit_app; assumption|exact Hdt].
    rewrite grouped_short by lia. reflexivity.
Qed.

Lemma includes_mark c sep s :
  includes c sep = false -> includes c (mark sep s) = includes c s.
Proof.
  intros H. induction s as [|d s IH]; [reflexivity|].
  cbn [mark]. destruct (isDigit d && groupable s); cbn [includes existsb] in *.
  - fold (includes c (sep ++ mark sep s)). rewrite includes_app, H, IH. reflexivity.
  - fold (includes c (mark sep s)). rewrite IH. reflexivity.
Qed.

(** A text with the character [c] is cut at its first [c]. *)
Lemma includes_first c s :
  includes c s = true -> exists a b, s = a ++ c :: b /\ includes c a = false.
Proof.
  induction s as [|x s IH]; cbn; [discriminate|].
  destruct (Ascii.eqb c x) eqn:E.
  - apply Ascii.eqb_eq in E. subst x. intros _. exists [], s. split; reflexivity.
  - cbn. intros H. destruct (IH H) as (a & b & -> & Ha).
    exists (x :: a), b. split; [reflexivity|]. cbn. rewrite E. exact Ha.
Qed.

Lemma split_head c s :
  exists seg segs, split c s = seg :: segs /\ includes c seg = false.
Proof.
  induction s as [|x s IH]; cbn.
  - exists [], []. split; reflexivity.
  - destruct (Ascii.eqb x c) eqn:E.
    + exists [], (split c s). split; reflexivity.
    + destruct IH as (seg & segs & -> & H).
      exists (x :: seg), segs. split; [reflexivity|].
      cbn. rewrite Ascii.eqb_sym, E. exact H.
Qed.

(** formatThousands on a text, by the two branches of the function. *)
Lemma formatThousands_nodot s sign :
  sign <> [] -> includes "." s = false ->
  formatThousands (Str s) sign = mark sign s.
Proof.
  intros Hs Hd. unfold formatThousands. cbn [toStr].
  destruct sign as [|c sign']; [contradiction|]. cbn [List.length Nat.eqb].
  rewrite Hd. apply replaceAll_thousands.
Qed.

Lemma formatThousands_dot a b sign :
  sign <> [] -> includes "." a = false ->
  formatThousands (Str (a ++ "."%char :: b)) sign =
  mark sign a ++ "." ++ itemText (split "." b) 0.
Proof.
  intros Hs Hd. unfold formatThousands. cbn [toStr].
  destruct sign as [|c sign']; [contradiction|]. cbn [List.length Nat.eqb].
  rewrite includes_at, split_at by exact Hd.
  destruct (split_head "." b) as (seg & segs & E & _). rewrite E.
  cbn [itemText nth_error]. rewrite replaceAll_thousands. reflexivity.
Qed.

(** *** The function as the specification words it *)

Lemma takeRun_all p s : forallb p (takeRun p s) = true.
Proof.
  induction s as [|x s IH]; cbn; [reflexivity|].
  destruct (p x) eqn:E; cbn; [rewrite E, IH|]; reflexivity.
Qed.

Lemma forallb_rev (p : ascii -> bool) s : forallb p (rev s) = forallb p s.
Proof.
  induction s as [|x s IH]; cbn; [reflexivity|].
  rewrite forallb_app, IH. cbn. rewrite andb_true_r. apply andb_comm.
Qed.

Lemma dropRun_head p s :
  match dropRun p s with
  | [] => true
  | x :: _ => negb (p x)
  end = true.
Proof.
  induction s as [|x s IH]; cbn; [reflexivity|].
  destruct (p x) eqn:E; [exact IH|rewrite E; reflexivity].
Qed.

Lemma mark_groupInteger sep int : mark sep int = groupInteger sep int.
Proof.
  unfold groupInteger, beforeDigits, trailingDigits.
  assert (E : int = rev (dropRun isDigit (rev int)) ++ rev (takeRun isDigit (rev int))).
  { rewrite <- rev_app_distr, takeRun_dropRun, rev_involutive. reflexivity. }
  rewrite E at 1. apply mark_trailing.
  - unfold endsNonDigit. rewrite rev_involutive. apply dropRun_head.
  - unfold allDigits. rewrite forallb_rev. apply takeRun_all.
Qed.

Lemma splitFirst_none c s : includes c s = false -> splitFirst c s = (s, None).
Proof.
  induction s as [|x s IH]; cbn; [reflexivity|].
  rewrite Ascii.eqb_sym. destruct (Ascii.eqb x c); [discriminate|].
  intros H. rewrite (IH H). reflexivity.
Qed.

Lemma splitFirst_at c a b :
  includes c a = false -> splitFirst c (a ++ c :: b) = (a, Some b).
Proof.
  induction a as [|x a IH]; cbn.
  - rewrite Ascii.eqb_refl. reflexivity.
  - rewrite Ascii.eqb_sym. destruct (Ascii.eqb x c); [discriminate|].
    intros H. rewrite (IH H). reflexivity.
Qed.

Lemma decimalPoints_none s : decimalPoints s = 0 -> includes "." s = false.
Proof.
  unfold decimalPoints, includes. induction s as [|x s IH]; [reflexivity|].
  cbn [filter existsb]. destruct (Ascii.eqb "." x); cbn [List.length orb];
    [discriminate|exact IH].
Qed.

Lemma decimalPoints_at a b :
  decimalPoints (a ++ "."%char :: b) = S (decimalPoints a + decimalPoints b).
Proof.
  unfold decimalPoints. rewrite filter_app, length_app. cbn [filter].
  rewrite Ascii.eqb_refl. cbn [List.length]. lia.
Qed.

Lemma formatThousands_text value sign :
  formatThousands value sign = formatThousands (Str (toStr value)) sign.
Proof. reflexivity. Qed.

Lemma formatThousands_nosign value : formatThousands value [] = toStr value.
Proof. reflexivity. Qed.

(** Claim C6.  For every value whose text has at most one decimal point,
    and every separator, [formatThousands] returns the text unchanged when
    the separator is empty; otherwise it splits the text at the decimal
    point, inserts the separator in the run of digits the integer part ends
    with, after every digit followed by a positive multiple of three of
    them, leaves what stands before that run and the fractional part as
    they are, and joins the two parts with the decimal point again if
    there was one.  So [formatThousands(1234567, ",")] is [1,234,567] and
    [formatThousands(1234.5678, ",")] is [1,234.5678]. *)
Theorem formatThousands_groups :
  (forall value sep,
     decimalPoints (toStr value) <= 1 ->
     formatThousands value sep = spec_formatThousands (toStr value) sep)
  /\ formatThousands (Nbr (ofZ 1234567)) "," = "1,234,567"
  /\ formatThousands (Nbr (ofDecimal false 12345678 (-4))) "," = "1,234.5678".
Proof.
  split; [|split; vm_compute; reflexivity].
  intros value sep Hd. rewrite formatThousands_text.
  destruct sep as [|c sep'] eqn:Es; [reflexivity|].
  rewrite <- Es. assert (Hne : sep <> []) by (rewrite Es; discriminate).
  unfold spec_formatThousands. rewrite Es at 2. 
  destruct (includes "." (toStr value)) eqn:Ei.
  - destruct (includes_first _ _ Ei) as (a & b & E & Ha). rewrite E in *.
    rewrite decimalPoints_at in Hd.
    assert (Hb : includes "." b = false) by (apply decimalPoints_none; lia).
    rewrite formatThousands_dot, splitFirst_at, split_none by assumption.
    cbn [itemText nth_error]. rewrite mark_groupInteger. reflexivity.
  - rewrite formatThousands_nodot, splitFirst_none by assumption.
    apply mark_groupInteger.
Qed.

(** A signed decimal text with one decimal point. *)
Lemma formatThousands_groups_witness :
  formatThousands (Str "-98765.4321") ";" = "-98;765.4321".
Proof.
  rewrite (proj1 formatThousands_groups (Str "-98765.4321") ";"); [reflexivity|].
  vm_compute. lia.
Defined.

(** With two decimal points the text after the second one is lost. *)
Lemma formatThousands_two_points :
  formatThousands (Str "1.2.3") "," = "1.2"
  /\ spec_formatThousands "1.2.3" "," = "1.2.3"
  /\ formatThousands (Str "1.2.3") "," <> spec_formatThousands "1.2.3" ",".
Proof. repeat split. vm_compute. discriminate. Qed.

(** Claim C7.  For every value and every separator that contains no
    decimal point and is empty or ends with a character that is not a
    digit, applying [formatThousands] to its own result with the same
    separator changes nothing. *)
Theorem formatThousands_idempotent value sep :
  includes "." sep = false -> endsNonDigit sep = true ->
  formatThousands (Str (formatThousands value sep)) sep = formatThousands value sep.
Proof.
  intros Hdot Hend. rewrite (formatThousands_text value).
  destruct sep as [|c sep'] eqn:Es; [reflexivity|].
  rewrite <- Es in *. assert (Hne : sep <> []) by (rewrite Es; discriminate).
  destruct (includes "." (toStr value)) eqn:Ei.
  - destruct (includes_first _ _ Ei) as (a & b & E & Ha). rewrite E.
    rewrite formatThousands_dot by assumption.
    destruct (split_head "." b) as (seg & segs & Eb & Hseg). rewrite Eb.
    cbn [itemText nth_error].
    change (mark sep a ++ "." ++ seg) with (mark sep a ++ "."%char :: seg).
    rewrite formatThousands_dot; [|assumption|rewrite includes_mark; assumption].
    rewrite split_none by exact Hseg. cbn [itemText nth_error].
    rewrite mark_idempotent by exact Hend. reflexivity.
  - rewrite (formatThousands_nodot (toStr value) sep) by assumption.
    rewrite formatThousands_nodot; [|assumption|rewrite includes_mark; assumption].
    apply mark_idempotent, Hend.
Qed.

(** Grouping with a comma, twice. *)
Lemma formatThousands_idempotent_witness :
  formatThousands (Str (formatThousands (Nbr (ofZ 1234567)) ",")) "," = "1,234,567".
Proof.
  rewrite (formatThousands_idempotent (Nbr (ofZ 1234567)) ","); reflexivity.
Defined.

(** Grouping with a decimal point, or with a digit, then grouping again. *)
Lemma formatThousands_point_separator :
  formatThousands (Nbr (ofZ 1234567)) "." = "1.234.567"
  /\ formatThousands (Str "1.234.567") "." = "1.234"
  /\ formatThousands (Str (formatThousands (Nbr (ofZ 1234567)) ".")) "."
     <> formatThousands (Nbr (ofZ 1234567)) "."
  /\ formatThousands (Nbr (ofZ 1234567)) "0" = "102340567"
  /\ formatThousands (Str "102340567") "0" = "10203400567".
Proof. repeat split. vm_compute. discriminate. Qed.


(** ** Numerals *)

Lemma uintChars_allDigits u : allDigits (uintChars u) = true.
Proof. induction u; cbn; auto. Qed.

Lemma digitsValue_uint u : forall acc tail,
  match tail with c :: _ => isDigit c = false | [] => True end ->
  digitsValue acc (uintChars u ++ tail) = (Nat.of_uint_acc u acc, tail).
Proof.
  induction u; intros acc tail Ht; cbn [uintChars app Nat.of_uint_acc];
    try (cbn [digitsValue]; change (isDigit _) with true; cbv iota;
         rewrite IHu by exact Ht; f_equal; f_equal;
         rewrite Nat.tail_mul_spec; cbn; lia).
  destruct tail as [|c tail]; [reflexivity|]. cbn [digitsValue]. rewrite Ht. reflexivity.
Qed.

Lemma to_uint_nonnil n : Nat.to_uint n <> Decimal.Nil.
Proof.
  intros E. pose proof (Unsigned.of_to n) as H. rewrite E in H. cbn in H.
  pose proof (Unsigned.to_of Decimal.Nil) as H2. cbn in H2.
  rewrite <- H in E. cbn in E. discriminate.
Qed.

Lemma parseDecimal_nat n tail :
  match tail with c :: _ => isDigit c = false | [] => True end ->
  parseDecimal (decimalNat n ++ tail) = Some (n, tail).
Proof.
  intros Ht. unfold parseDecimal, decimalNat.
  pose proof (digitsValue_uint (Nat.to_uint n) 0 tail Ht) as H.
  pose proof (uintChars_allDigits (Nat.to_uint n)) as Hd.
  pose proof (to_uint_nonnil n) as Hn.
  destruct (Nat.to_uint n) as [|u|u|u|u|u|u|u|u|u|u] eqn:E; try contradiction;
    cbn [uintChars app] in *; change (isDigit _) with true; cbv iota;
    rewrite H; f_equal; f_equal; rewrite <- E;
    change (Nat.of_uint_acc (Nat.to_uint n) 0) with (Nat.of_uint (Nat.to_uint n));
    apply Unsigned.of_to.
Qed.

(** ** The pattern of formatFoldDecimal *)

Lemma parseBraces_nat n tail :
  parseBraces (decimalNat n ++ ","%char :: "}"%char :: tail) = Some (n, None, tail).
Proof.
  unfold parseBraces. rewrite parseDecimal_nat by reflexivity. reflexivity.
Qed.

Lemma parseDisjunction_S f total next s :
  parseDisjunction (S f) total next s =
  match parseAlternative f total next s with
  | Good (ts, next1, s1) =>
    match s1 with
    | c :: s2 =>
      if isC c "|" then
        match parseDisjunction f total next1 s2 with
        | Good (r2, next2, s3) => Good (Alt (seqOf ts) r2, next2, s3)
        | e => e
        end
      else Good (seqOf ts, next1, s1)
    | [] => Good (seqOf ts, next1, s1)
    end
  | Bad => Bad
  | Beyond => Beyond
  end.
Proof. reflexivity. Qed.

Lemma parseAlternative_S f total next c s :
  parseAlternative (S f) total next (c :: s) =
  if isC c "|" || isC c ")" then Good ([], next, c :: s)
  else
    match parseTerm f total next (c :: s) with
    | Good (t, next1, s1) =>
      match parseAlternative f total next1 s1 with
      | Good (ts, next2, s2) => Good (t :: ts, next2, s2)
      | e => e
      end
    | Bad => Bad
    | Beyond => Beyond
    end.
Proof. reflexivity. Qed.

Lemma parseTerm_escaped_point f total next s :
  parseTerm (S f) total next ("\"%char :: "."%char :: s) = quantified next (Chr ".") s.
Proof. reflexivity. Qed.

Lemma parseTerm_zero f total next s :
  parseTerm (S f) total next ("0"%char :: s) = quantified next (Chr "0") s.
Proof. reflexivity. Qed.

Lemma parse_fold_tail f total next :
  parseAlternative (S (S (S (S f)))) total next "[1-9][0-9]*$"
  = Good ([nonZeroDigit; Rep digit 0 None true; EndAnchor], next, []).
Proof. reflexivity. Qed.

Lemma quantified_braces next atom n tail :
  match tail with c :: _ => isC c "?" = false | [] => True end ->
  quantified next atom ("{"%char :: decimalNat n ++ ","%char :: "}"%char :: tail)
  = Good (Rep atom n None true, next, tail).
Proof.
  intros Ht. unfold quantified, applyQuantifier, quantifierPrefix.
  change (isC "{" "*") with false. change (isC "{" "+") with false.
  change (isC "{" "?") with false. change (isC "{" "{") with true. cbv iota.
  rewrite parseBraces_nat. destruct tail as [|c tail]; [reflexivity|].
  rewrite Ht. reflexivity.
Qed.

Lemma parse_foldPattern n total fuel :
  8 <= fuel ->
  parseDisjunction fuel total 1 ("\.0{" ++ decimalNat n ++ ",}[1-9][0-9]*$")
  = Good (foldPattern n, 1, []).
Proof.
  intros Hf.
  do 8 (destruct fuel as [|fuel]; [lia|]). clear Hf.
  rewrite parseDisjunction_S.
  cbn [list_ascii_of_string app].
  rewrite parseAlternative_S. change (isC "\" "|" || isC "\" ")") with false. cbv iota.
  rewrite parseTerm_escaped_point.
  change (quantified 1 (Chr ".") ?s) with (@Good (Regex * nat * jsString) (Chr ".", 1, s)).
  cbv iota beta.
  rewrite parseAlternative_S. change (isC "0" "|" || isC "0" ")") with false. cbv iota.
  rewrite parseTerm_zero.
  rewrite (quantified_braces 1 (Chr "0") n) by reflexivity.
  cbv iota beta.
  pose proof (parse_fold_tail (S fuel) total 1) as H. cbn [list_ascii_of_string] in H.
  rewrite H. reflexivity.
Qed.

Lemma newRegExp_foldPattern n :
  newRegExp ("\.0{" ++ decimalNat n ++ ",}[1-9][0-9]*$") = Ok (foldPattern n).
Proof.
  unfold newRegExp, parsePattern. rewrite parse_foldPattern; [reflexivity|].
  unfold parseFuel. cbn [list_ascii_of_string app List.length]. lia.
Qed.

(** *** Matching *)

Lemma nonZeroP_spec ch : nonZeroP ch = isNonZeroDigit ch.
Proof.
  unfold nonZeroP, inClass, isNonZeroDigit. cbn [existsb fst snd].
  rewrite orb_false_r. reflexivity.
Qed.

Lemma repChar_blocked p t c cs s :
  (forall ch s', p ch = true -> c (mkState (ch :: s') cs) = None) ->
  repChar p t c cs s =
  if (t <=? List.length (takeRun p s))%nat then c (mkState (dropRun p s) cs) else None.
Proof.
  intros Hc. revert s. induction t as [|t IH]; intros s.
  - cbn [repChar Nat.leb]. apply starChar_blocked, Hc.
  - destruct s as [|ch s]; cbn [repChar takeRun dropRun]; [reflexivity|].
    destruct (p ch); [|reflexivity]. rewrite IH. reflexivity.
Qed.

Lemma dropRun_nil_all p s : dropRun p s = [] <-> forallb p s = true.
Proof.
  induction s as [|x s IH]; cbn; [tauto|].
  destruct (p x); cbn; [exact IH|]. split; discriminate.
Qed.

Lemma forallb_digitP s : forallb digitP s = allDigits s.
Proof.
  unfold allDigits. induction s as [|x s IH]; cbn [forallb]; [reflexivity|].
  rewrite digitP_isDigit, IH. reflexivity.
Qed.

Lemma afterZeros_eq s cs :
  afterZeros (mkState s cs) =
  match s with
  | d :: ds => if isNonZeroDigit d && allDigits ds then Some (mkState [] cs) else None
  | [] => None
  end.
Proof.
  unfold afterZeros. cbn [compile nonZeroDigit digit groupsOf].
  change (charMatcher (fun ch => xorb false (inClass [("1"%char, "9"%char)] ch)))
    with (charMatcher nonZeroP).
  change (charMatcher (fun ch => xorb false (inClass [("0"%char, "9"%char)] ch)))
    with (charMatcher digitP).
  destruct s as [|d ds]; [reflexivity|].
  rewrite charMatcher_cons, nonZeroP_spec.
  destruct (isNonZeroDigit d); [|reflexivity]. cbn [andb].
  rewrite repeat_star_char by (unfold repeatFuel; cbn; lia).
  rewrite starChar_blocked by (intros; reflexivity).
  rewrite <- forallb_digitP.
  destruct (dropRun digitP ds) as [|x r] eqn:E.
  - apply dropRun_nil_all in E. rewrite E. reflexivity.
  - destruct (forallb digitP ds) eqn:F; [|reflexivity].
    apply dropRun_nil_all in F. congruence.
Qed.

Lemma compile_foldPattern t x :
  compile (foldPattern t) x Some =
  charMatcher (Ascii.eqb ".") x
    (fun y => repeatMatcher (repeatFuel t y) (charMatcher isZero) t None true [] y afterZeros).
Proof. reflexivity. Qed.

Lemma matchAt_foldPattern t s :
  matchAt (foldPattern t) s =
  match s with
  | c :: frac =>
    if Ascii.eqb "." c && foldableFraction t frac then Some (mkState [] []) else None
  | [] => None
  end.
Proof.
  unfold matchAt. rewrite compile_foldPattern.
  change (repeat None (maxGroup (foldPattern t))) with (@nil (option jsString)).
  destruct s as [|c frac]; [reflexivity|].
  rewrite charMatcher_cons. destruct (Ascii.eqb "." c); [|reflexivity].
  cbn [andb]. rewrite repeat_min_char by (unfold repeatFuel; cbn; lia).
  rewrite repChar_blocked.
  - unfold foldableFraction. destruct (t <=? _)%nat; [|reflexivity].
    cbn [andb]. rewrite afterZeros_eq.
    destruct (dropRun isZero frac); reflexivity.
  - intros ch s' Hz. rewrite afterZeros_eq.
    unfold isZero in Hz. apply Ascii.eqb_eq in Hz. subst ch. reflexivity.
Qed.

Lemma lastPoint_none s : includes "." s = false -> lastPoint s = None.
Proof.
  induction s as [|x s IH]; [reflexivity|].
  intros H. cbn [includes existsb] in H. apply orb_false_elim in H as [H1 H2].
  cbn [lastPoint]. rewrite (IH H2), H1. reflexivity.
Qed.

Lemma lastPoint_some s a b :
  lastPoint s = Some (a, b) -> s = a ++ "."%char :: b /\ includes "." b = false.
Proof.
  revert a. induction s as [|x s IH]; intros a; cbn; [discriminate|].
  destruct (lastPoint s) as [[a' b']|] eqn:E.
  - intros [= <- <-]. destruct (IH a' eq_refl) as [-> H]. split; [reflexivity|exact H].
  - destruct (Ascii.eqb "." x) eqn:Ex; cbv iota; [|discriminate].
    intros [= <- <-]. apply Ascii.eqb_eq in Ex. subst x. split; [reflexivity|].
    destruct (includes "." s) eqn:I; [|reflexivity].
    destruct (includes_first _ _ I) as (p & q & -> & _).
    clear -E. exfalso. induction p as [|y p IH]; cbn in E.
    + destruct (lastPoint q) as [[? ?]|]; discriminate.
    + destruct (lastPoint (p ++ "."%char :: q)) as [[? ?]|]; [discriminate|].
      apply IH. reflexivity.
Qed.

Lemma allDigits_no_point s : allDigits s = true -> includes "." s = false.
Proof.
  unfold allDigits, includes. induction s as [|x s IH]; cbn; [reflexivity|].
  intros H. apply andb_prop in H as [Hx H]. rewrite (IH H), orb_false_r.
  destruct (Ascii.eqb "." x) eqn:E; [|reflexivity].
  apply Ascii.eqb_eq in E. subst x. discriminate.
Qed.

Lemma takeRun_zero_no_point s : includes "." (takeRun isZero s) = false.
Proof.
  induction s as [|x s IH]; cbn [takeRun]; [reflexivity|].
  destruct (isZero x) eqn:E; [|reflexivity].
  unfold includes in *. cbn [existsb]. rewrite IH, orb_false_r.
  unfold isZero in E. apply Ascii.eqb_eq in E. subst x. reflexivity.
Qed.

Lemma foldable_no_point t frac :
  foldableFraction t frac = true -> includes "." frac = false.
Proof.
  unfold foldableFraction. intros H. apply andb_prop in H as [_ H].
  rewrite <- (takeRun_dropRun isZero frac), includes_app, takeRun_zero_no_point.
  destruct (dropRun isZero frac) as [|d ds]; [discriminate|].
  apply andb_prop in H as [Hd Hs]. unfold includes at 1. cbn [existsb orb].
  fold (includes "." ds). rewrite (allDigits_no_point _ Hs), orb_false_r.
  destruct (Ascii.eqb "." d) eqn:E; [|reflexivity].
  apply Ascii.eqb_eq in E. subst d. discriminate.
Qed.

(** [reg.test(vl)]: the text after the last point is foldable. *)
Lemma test_foldPattern t vl :
  test (foldPattern t) vl =
  match lastPoint vl with
  | Some (_, frac) => foldableFraction t frac
  | None => false
  end.
Proof.
  unfold test. induction vl as [|x s IH].
  - rewrite exec_eq, matchAt_foldPattern. reflexivity.
  - rewrite exec_eq, matchAt_foldPattern. cbn [lastPoint].
    destruct (Ascii.eqb "." x && foldableFraction t s) eqn:E.
    + apply andb_prop in E as [Ex Ef].
      rewrite (lastPoint_none _ (foldable_no_point _ _ Ef)), Ex, Ef. reflexivity.
    + assert (L : match option_map (shift x) (exec (foldPattern t) s) with
                  | Some _ => true
                  | None => false
                  end
                  = match exec (foldPattern t) s with Some _ => true | None => false end)
        by (destruct (exec (foldPattern t) s); reflexivity).
      rewrite L, IH. destruct (lastPoint s) as [[a b]|]; [reflexivity|].
      destruct (Ascii.eqb "." x); [|reflexivity]. cbn [andb] in E. rewrite E. reflexivity.
Qed.

(** *** The array of segments *)

Lemma split_last c a b :
  includes c b = false -> split c (a ++ c :: b) = split c a ++ [b].
Proof.
  intros Hb. induction a as [|x a IH]; cbn [app split].
  - rewrite Ascii.eqb_refl, (split_none c b Hb). reflexivity.
  - destruct (Ascii.eqb x c); rewrite IH; [reflexivity|].
    destruct (split_head c a) as (seg & segs & E & _). rewrite E. reflexivity.
Qed.

Lemma split_nonempty c s : split c s <> [].
Proof. destruct (split_head c s) as (seg & segs & E & _). rewrite E. discriminate. Qed.

Lemma join_snoc c l v : l <> [] -> join c (l ++ [v]) = join c l ++ c :: v.
Proof.
  induction l as [|seg l IH]; intros H; [contradiction|].
  destruct l as [|seg' l]; [reflexivity|].
  change (join c ((seg :: seg' :: l) ++ [v])) with (seg ++ c :: join c ((seg' :: l) ++ [v])).
  rewrite IH by discriminate.
  change (join c (seg :: seg' :: l)) with (seg ++ c :: join c (seg' :: l)).
  rewrite <- app_assoc. reflexivity.
Qed.

Lemma join_split c s : join c (split c s) = s.
Proof.
  induction s as [|x s IH]; [reflexivity|]. cbn [split].
  destruct (Ascii.eqb x c) eqn:E.
  - apply Ascii.eqb_eq in E. subst x.
    destruct (split_head c s) as (seg & segs & Es & _). rewrite Es in *.
    change (join c ([] :: seg :: segs)) with ([] ++ c :: join c (seg :: segs)).
    rewrite IH. reflexivity.
  - destruct (split_head c s) as (seg & segs & Es & _). rewrite Es in *.
    destruct segs as [|seg' segs]; cbn [join] in *; rewrite <- IH; reflexivity.
Qed.

Lemma itemText_last l x : itemText (l ++ [x]) (List.length (l ++ [x]) - 1) = x.
Proof.
  unfold itemText. rewrite length_app. cbn [List.length].
  replace (List.length l + 1 - 1) with (List.length l) by lia.
  rewrite nth_error_app2, Nat.sub_diag by lia. reflexivity.
Qed.

Lemma setItem_last l x v : setItem (List.length (l ++ [x]) - 1) v (l ++ [x]) = l ++ [v].
Proof.
  rewrite length_app. cbn [List.length].
  replace (List.length l + 1 - 1) with (List.length l) by lia.
  induction l as [|y l IH]; [reflexivity|]. cbn [List.length app setItem].
  rewrite IH. reflexivity.
Qed.

(** *** The leading zeros *)

Lemma firstn_takeRun p s :
  firstn (List.length s - List.length (dropRun p s)) s = takeRun p s.
Proof.
  rewrite <- (takeRun_dropRun p s) at 1 3. rewrite length_app.
  replace (List.length (takeRun p s) + List.length (dropRun p s) - List.length (dropRun p s))
    with (List.length (takeRun p s)) by lia.
  rewrite firstn_app, Nat.sub_diag, firstn_all. cbn. apply app_nil_r.
Qed.

(** [v.match(/0*/)] always succeeds, on the zeros [v] starts with. *)
Lemma exec_reZeros v :
  exec reZeros v = Some (mkMatch [] (takeRun isZero v) [] (dropRun isZero v)).
Proof.
  rewrite exec_eq. unfold matchAt.
  change (compile reZeros) with
    (fun x c => repeatMatcher (repeatFuel 0 x) (charMatcher isZero) 0 None true [] x c).
  cbv beta. change (repeat None (maxGroup reZeros)) with (@nil (option jsString)).
  rewrite repeat_star_char by (unfold repeatFuel; cbn; lia).
  rewrite starChar_accepted by discriminate.
  cbn [rest caps]. rewrite firstn_takeRun. reflexivity.
Qed.

(** A replacement text without [$] is inserted as it is. *)
Lemma getSubstitution_plain m tpl :
  includes "$" tpl = false -> getSubstitution m tpl = tpl.
Proof.
  induction tpl as [|c tpl IH]; [reflexivity|].
  intros H. unfold includes in H. cbn [existsb] in H.
  apply orb_false_elim in H as [Hc H].
  cbn [getSubstitution]. rewrite Ascii.eqb_sym, Hc. cbn [negb].
  rewrite (IH H). reflexivity.
Qed.

(** *** The function as the specification words it *)

Lemma formatFoldDecimal_natural value threshold t format :
  NumberToString threshold = decimalNat t ->
  formatFoldDecimal value threshold format =
  match lastPoint (toStr value) with
  | Some (int, frac) =>
    if foldableFraction t frac
    then Ok (int ++ "."%char ::
             getSubstitution (mkMatch [] (takeRun isZero frac) [] (dropRun isZero frac))
                             ("0" ++ format (List.length (takeRun isZero frac)))
             ++ dropRun isZero frac)
    else Ok (toStr value)
  | None => Ok (toStr value)
  end.
Proof.
  intros Ht. unfold formatFoldDecimal. rewrite Ht, newRegExp_foldPattern.
  cbn [bind]. rewrite test_foldPattern.
  destruct (lastPoint (toStr value)) as [[int frac]|] eqn:E; [|reflexivity].
  destruct (foldableFraction t frac) eqn:F; [|reflexivity].
  destruct (lastPoint_some _ _ _ E) as [-> Hfrac].
  rewrite split_last by exact Hfrac.
  rewrite itemText_last, exec_reZeros. cbv iota. rewrite setItem_last.
  cbn [matched]. unfold replaceFirst. rewrite exec_reZeros. cbn [before after app].
  rewrite join_snoc by apply split_nonempty. rewrite join_split. reflexivity.
Qed.

(** Claim C5.  For every value, every threshold that prints as a natural
    number [t], and every [renderCount] whose results contain no dollar
    sign, [formatFoldDecimal] takes the text of the value and looks at what
    follows its last decimal point: unless that is a run of at least [t]
    zeros, then a digit from 1 to 9, then digits up to the end, the text is
    returned unchanged; if it is, the whole run of zeros is replaced by
    [0] followed by [renderCount count], where [count] is the length of
    the run, and the integer part, the decimal point and the remainder
    stay as they are. *)
Theorem formatFoldDecimal_folds value threshold t renderCount :
  NumberToString threshold = decimalNat t ->
  (forall count, includes "$" (renderCount count) = false) ->
  formatFoldDecimal value threshold renderCount =
  Ok (spec_formatFoldDecimal (toStr value) (Z.of_nat t) renderCount).
Proof.
  intros Ht Hr. rewrite (formatFoldDecimal_natural value threshold t renderCount Ht).
  unfold spec_formatFoldDecimal.
  destruct (lastPoint (toStr value)) as [[int frac]|]; [|reflexivity].
  cbv zeta. unfold foldableFraction.
  replace (Z.of_nat t <=? Z.of_nat (List.length (takeRun isZero frac)))%Z
    with (t <=? List.length (takeRun isZero frac))%nat.
  2: { destruct (Nat.leb_spec t (List.length (takeRun isZero frac)));
       symmetry; [apply Z.leb_le | apply Z.leb_gt]; lia. }
  match goal with |- context [if ?b then _ else _] => destruct b end; [|reflexivity].
  rewrite getSubstitution_plain.
  - cbn [app]. rewrite <- app_assoc. reflexivity.
  - cbn [app]. unfold includes. cbn [existsb]. apply Hr.
Qed.

(** Threshold 3 and a count written between angle brackets. *)
Lemma formatFoldDecimal_folds_witness :
  formatFoldDecimal (Str "12.000045") (ofZ 3) (fun count => "<" ++ decimalNat count ++ ">")
  = Ok (list_ascii_of_string "12.0<4>45").
Proof.
  rewrite (formatFoldDecimal_folds (Str "12.000045") (ofZ 3) 3
             (fun count => "<" ++ decimalNat count ++ ">")).
  - reflexivity.
  - reflexivity.
  - intros count. unfold includes. rewrite existsb_app. cbn [existsb app list_ascii_of_string].
    rewrite existsb_app. cbn [existsb].
    replace (existsb (Ascii.eqb "$") (decimalNat count)) with false; [reflexivity|].
    symmetry. unfold decimalNat. induction (Nat.to_uint count); cbn [uintChars existsb]; auto.
Defined.

(** A count rendered as [$&] is read as a replacement pattern and brings
    the zeros back; with the threshold -1 the braces of the pattern are
    characters to be matched, and nothing is folded. *)
Lemma formatFoldDecimal_dollar_and_negative :
  formatFoldDecimal (Str "1.00005") (ofZ 4) (fun _ => "$&")
    = Ok (list_ascii_of_string "1.000005")
  /\ spec_formatFoldDecimal "1.00005" 4 (fun _ => "$&") = "1.0$&5"
  /\ formatFoldDecimal (Str "1.5") (ofZ (-1)) (fun count => "{" ++ decimalNat count ++ "}")
    = Ok (list_ascii_of_string "1.5")
  /\ spec_formatFoldDecimal "1.5" (-1) (fun count => "{" ++ decimalNat count ++ "}")
    = "1.0{0}5".
Proof. repeat split. Qed.


(** ** formatDateToString *)

Lemma str_eqb_eq a b : str_eqb a b = true <-> a = b.
Proof.
  revert b. induction a as [|x a IH]; intros [|y b]; cbn [str_eqb];
    try (split; [discriminate|discriminate]); [tauto|].
  rewrite andb_true_iff, Ascii.eqb_eq, IH. split; [intros [-> ->]|intros [= -> ->]]; auto.
Qed.

Lemma str_eqb_refl a : str_eqb a a = true.
Proof. apply str_eqb_eq. reflexivity. Qed.

(** *** The components *)

Lemma fold_setPart parts : forall d, fold_left setPart parts d = fieldsFrom parts d.
Proof.
  induction parts as [|p parts IH]; intros d; [destruct d; reflexivity|].
  cbn [fold_left]. rewrite IH. unfold fieldsFrom. cbn [fold_left]. cbv beta zeta.
  unfold setPart.
  destruct (str_eqb (partType p) "year") eqn:E1.
  { apply str_eqb_eq in E1. rewrite E1. reflexivity. }
  destruct (str_eqb (partType p) "month") eqn:E2.
  { apply str_eqb_eq in E2. rewrite E2. reflexivity. }
  destruct (str_eqb (partType p) "day") eqn:E3.
  { apply str_eqb_eq in E3. rewrite E3. reflexivity. }
  destruct (str_eqb (partType p) "hour") eqn:E4.
  { apply str_eqb_eq in E4. rewrite E4. reflexivity. }
  destruct (str_eqb (partType p) "minute") eqn:E5.
  { apply str_eqb_eq in E5. rewrite E5. reflexivity. }
  destruct (str_eqb (partType p) "second") eqn:E6.
  { reflexivity. }
  reflexivity.
Qed.

Lemma fold_hour parts : forall old,
  fold_left (fun acc p => if str_eqb (partType p) "hour"
                          then Some (normalHour (partValue p)) else acc) parts
            (option_map normalHour old)
  = option_map normalHour
      (fold_left (fun acc p => if str_eqb (partType p) "hour" then Some (partValue p) else acc)
                 parts old).
Proof.
  induction parts as [|p parts IH]; intros old; [reflexivity|].
  cbn [fold_left]. destruct (str_eqb (partType p) "hour").
  - apply (IH (Some (partValue p))).
  - apply IH.
Qed.

Lemma formatDateToDateTime_components fmt timestamp parts :
  formatToParts fmt (newDate timestamp) = Ok parts ->
  formatDateToDateTime fmt timestamp = Ok (componentsOf parts).
Proof.
  intros H. unfold formatDateToDateTime. rewrite H. cbn [bind].
  rewrite fold_setPart. unfold fieldsFrom, componentsOf, lastOf, emptyDate.
  cbn [YYYY MM DD HH mm ss]. rewrite <- (fold_hour parts None). reflexivity.
Qed.

(** *** The template *)

Lemma reDateToken_anyOf : reDateToken = anyOf tokens.
Proof. reflexivity. Qed.

Lemma compile_literal w : forall s cs (c : Continuation),
  w <> [] ->
  compile (literal w) (mkState s cs) c =
  match stripPrefix w s with
  | Some r => c (mkState r cs)
  | None => None
  end.
Proof.
  induction w as [|a w IH]; intros s cs c Hw; [contradiction|].
  destruct w as [|b w].
  - cbn [literal compile stripPrefix]. destruct s as [|x s]; [reflexivity|].
    rewrite charMatcher_cons. destruct (Ascii.eqb a x); reflexivity.
  - change (literal (a :: b :: w)) with (Seq (Chr a) (literal (b :: w))).
    cbn [compile]. destruct s as [|x s]; [reflexivity|].
    rewrite charMatcher_cons. cbn [stripPrefix].
    destruct (Ascii.eqb a x); [|reflexivity]. apply IH. discriminate.
Qed.

Lemma compile_anyOf ws : forall s cs,
  ws <> [] -> Forall (fun w => w <> []) ws ->
  compile (anyOf ws) (mkState s cs) Some =
  match tokenAt ws s with
  | Some (_, r) => Some (mkState r cs)
  | None => None
  end.
Proof.
  induction ws as [|w ws IH]; intros s cs Hne Hall; [contradiction|].
  inversion Hall as [|? ? Hw Hws]; subst.
  destruct ws as [|w' ws].
  - cbn [anyOf tokenAt]. rewrite compile_literal by exact Hw.
    destruct (stripPrefix w s); reflexivity.
  - change (anyOf (w :: w' :: ws)) with (Alt (literal w) (anyOf (w' :: ws))).
    cbn [compile tokenAt]. rewrite compile_literal by exact Hw.
    destruct (stripPrefix w s); [reflexivity|]. cbn [orElse].
    apply IH; [discriminate|exact Hws].
Qed.

Lemma stripPrefix_some w s r : stripPrefix w s = Some r -> s = w ++ r.
Proof.
  revert s. induction w as [|a w IH]; intros s; cbn [stripPrefix].
  - intros [= ->]. reflexivity.
  - destruct s as [|x s]; [discriminate|].
    destruct (Ascii.eqb a x) eqn:E; [|discriminate].
    apply Ascii.eqb_eq in E. subst x. intros H. rewrite (IH _ H). reflexivity.
Qed.

Lemma tokenAt_some toks s tok r :
  tokenAt toks s = Some (tok, r) -> s = tok ++ r /\ In tok toks.
Proof.
  induction toks as [|w toks IH]; cbn [tokenAt]; [discriminate|].
  destruct (stripPrefix w s) eqn:E.
  - intros [= <- <-]. split; [apply stripPrefix_some, E|left; reflexivity].
  - intros H. destruct (IH H) as [Hs Hin]. split; [exact Hs|right; exact Hin].
Qed.

Lemma matchAt_reDateToken s :
  matchAt reDateToken s =
  match tokenAt tokens s with
  | Some (_, r) => Some (mkState r [])
  | None => None
  end.
Proof.
  unfold matchAt. rewrite reDateToken_anyOf.
  change (repeat None (maxGroup (anyOf tokens))) with (@nil (option jsString)).
  apply compile_anyOf; [discriminate|].
  repeat constructor; discriminate.
Qed.

Lemma substitute_skip component w r :
  substitute component (List.length w) (w ++ r) = substitute component 0 r.
Proof.
  induction w as [|c w IH]; [destruct r; reflexivity|].
  cbn [List.length app substitute]. exact IH.
Qed.

Lemma replaceAll_reDateToken component : forall n s fuel seen,
  List.length s <= n -> List.length s < fuel ->
  replaceAllFuel fuel reDateToken (fun m => component (matched m)) seen s
  = substitute component 0 s.
Proof.
  induction n as [|n IH]; intros s fuel seen Hn Hf.
  - destruct s; [|cbn in Hn; lia]. apply replaceAll_done. reflexivity.
  - destruct s as [|c s]; [apply replaceAll_done; reflexivity|].
    destruct fuel as [|fuel]; [lia|]. cbn [List.length] in *.
    pose proof (matchAt_reDateToken (c :: s)) as M.
    cbn [substitute].
    destruct (tokenAt tokens (c :: s)) as [[tok r]|] eqn:T.
    + destruct (tokenAt_some _ _ _ _ T) as [Hs Hin].
      assert (Htok : tok <> []).
      { cbn in Hin. intuition (subst; discriminate). }
      rewrite (replaceAll_here fuel reDateToken _ seen (c :: s) (mkState r []) tok M Hs Htok).
      cbn [matched rest]. f_equal.
      destruct tok as [|c' tok']; [contradiction|]. cbn [app] in Hs. injection Hs as -> Hs'.
      subst s. cbn [List.length].
      replace (S (List.length tok') - 1) with (List.length tok') by lia.
      rewrite substitute_skip.
      apply IH; rewrite length_app in *; lia.
    + rewrite replaceAll_skip by exact M. f_equal. apply IH; lia.
Qed.

(** Claim C8.  For every template and every timestamp for which the
    formatter emits parts of the six types year, month, day, hour, minute
    and second, [formatDateToString] scans the template from left to right
    and replaces each occurrence of [YYYY], [MM], [DD], [HH], [mm], [ss]
    that does not overlap an earlier one by the corresponding component,
    the hour [24] being written [00]; the tokens are matched with their
    case, the text put in is not scanned again, and every other character
    is copied. *)
Theorem formatDateToString_substitutes fmt timestamp template parts
    year month day hour minute second :
  formatToParts fmt (newDate timestamp) = Ok parts ->
  lastOf "year" parts = Some year ->
  lastOf "month" parts = Some month ->
  lastOf "day" parts = Some day ->
  lastOf "hour" parts = Some hour ->
  lastOf "minute" parts = Some minute ->
  lastOf "second" parts = Some second ->
  let component := fun tok : jsString =>
    if str_eqb tok "YYYY" then year
    else if str_eqb tok "MM" then month
    else if str_eqb tok "DD" then day
    else if str_eqb tok "HH" then normalHour hour
    else if str_eqb tok "mm" then minute
    else second in
  formatDateToString fmt timestamp template = Ok (substitute component 0 template).
Proof.
  intros Hp Hy Hmo Hd Hh Hmi Hs component.
  unfold formatDateToString.
  rewrite (formatDateToDateTime_components fmt timestamp parts Hp). cbn [bind].
  f_equal. unfold replaceAll.
  rewrite <- (replaceAll_reDateToken component (List.length template) template
                (S (List.length template)) []) by lia.
  clear Hp.
  assert (E : forall n s fuel seen, List.length s <= n ->
            replaceAllFuel fuel reDateToken
              (fun m => dateField (componentsOf parts) (matched m)) seen s
            = replaceAllFuel fuel reDateToken (fun m => component (matched m)) seen s).
  { induction n as [|n IH]; intros s fuel seen Hn.
    - destruct s; [|cbn in Hn; lia]. rewrite !replaceAll_done; reflexivity.
    - destruct s as [|c s]; [rewrite !replaceAll_done; reflexivity|].
      destruct fuel as [|fuel]; [reflexivity|]. cbn [List.length] in Hn.
      pose proof (matchAt_reDateToken (c :: s)) as M.
      destruct (tokenAt tokens (c :: s)) as [[tok r]|] eqn:T.
      + destruct (tokenAt_some _ _ _ _ T) as [Hs' Hin].
        assert (Htok : tok <> []) by (cbn in Hin; intuition (subst; discriminate)).
        rewrite !(replaceAll_here fuel reDateToken _ seen (c :: s) (mkState r []) tok M Hs' Htok).
        cbn [matched rest]. f_equal.
        * unfold dateField, componentsOf, component. cbn [YYYY MM DD HH mm ss].
          rewrite Hy, Hmo, Hd, Hh, Hmi, Hs. cbn [option_map]. unfold normalHour.
          cbn in Hin. 
          destruct Hin as [<-|[<-|[<-|[<-|[<-|[<-|[]]]]]]]; reflexivity.
        * apply IH. assert (L : List.length (c :: s) = List.length (tok ++ r)) by (rewrite Hs'; reflexivity).
          rewrite length_app in L. cbn [List.length] in L.
          destruct tok; [contradiction|]. cbn [List.length] in L. lia.
      + rewrite !replaceAll_skip by exact M. f_equal. apply IH. lia. }
  apply (E (List.length template)). lia.
Qed.


(** ** formatValue *)

Lemma getMember_valid value k : isValid value = true -> exists v, getMember value k = Ok v.
Proof.
  destruct value; try discriminate; intros _; unfold getMember;
    try (eexists; reflexivity);
    destruct (str_eqb k "length"); try (eexists; reflexivity);
    destruct (arrayIndex k); eexists; reflexivity.
Qed.

(** The loop returns the value reached, or stops on an invalid one. *)
Lemma walk_access keys : forall data,
  exists v, walk data keys = Ok v /\
            match access data keys with
            | Some w => v = w
            | None => isValid v = false
            end.
Proof.
  induction keys as [|k keys IH]; intros data.
  - exists data. split; reflexivity.
  - cbn [walk access]. destruct (isValid data) eqn:Hv.
    + unfold optMember. rewrite Hv.
      destruct (getMember_valid data k Hv) as [v Hg]. rewrite Hg. cbn [bind].
      destruct (IH v) as (r & Hw & Ha). exists r. split; [exact Hw|].
      destruct data; try discriminate; exact Ha.
    + exists data. split; [reflexivity|]. destruct data; try discriminate; exact Hv.
Qed.

Lemma formatValue_path data key path defaultValue :
  stringToPath key = Ok path ->
  formatValue data key defaultValue = Ok (resolved (access data path) defaultValue).
Proof.
  intros Hp. unfold formatValue, resolved. destruct (isValid data) eqn:Hv.
  - rewrite Hp. cbn [bind]. destruct (walk_access path data) as (v & Hw & Ha).
    rewrite Hw. cbn [bind]. destruct (access data path) as [w|].
    + subst w. reflexivity.
    + rewrite Ha. reflexivity.
  - destruct path as [|k path]; destruct data; try discriminate; reflexivity.
Qed.

(** Claim C1.  For every data value and default, [formatValue] on the key
    [a.b.c] answers with the value that the member accesses [data.a.b.c]
    reach, provided [data], every value met on the way and the value
    reached are all valid (neither [null] nor [undefined]); in every other
    case it answers with the default, and with the text [--] when the
    default is itself [null] or [undefined].  The quoted keys [a['b']] and
    [a["b.c"]] are read as the paths [a], [b] and [a], [b.c]: a quoted key
    may contain a dot.  So the key [a['b']] gives 1 in an object whose
    member [a] has a member [b] equal to 1, and so does the second quoted
    key in an object whose member [a] has a member named [b.c]. *)
Theorem formatValue_resolves data defaultValue :
  formatValue data "a.b.c" defaultValue
    = Ok (resolved (access data [list_ascii_of_string "a"; list_ascii_of_string "b";
                                 list_ascii_of_string "c"]) defaultValue)
  /\ formatValue data "a['b']" defaultValue
    = Ok (resolved (access data [list_ascii_of_string "a"; list_ascii_of_string "b"])
                   defaultValue)
  /\ formatValue data quotedKey defaultValue
    = Ok (resolved (access data [list_ascii_of_string "a"; list_ascii_of_string "b.c"])
                   defaultValue)
  /\ formatValue (nested "a" (nested "b" (Number (ofZ 1)))) "a['b']" Undefined
    = Ok (Number (ofZ 1))
  /\ formatValue (nested "a" (nested "b.c" (Number (ofZ 1)))) quotedKey Undefined
    = Ok (Number (ofZ 1)).
Proof.
  split; [|split; [|split; [|split]]];
    try (apply formatValue_path; vm_compute; reflexivity); vm_compute; reflexivity.
Qed.

(** A member that is [null], or missing, at the end of a path whose other
    values are all valid; and a default that is [null]. *)
Lemma formatValue_null_member :
  let data := nested "a" (nested "b" (nested "c" Null)) in
  access data [list_ascii_of_string "a"; list_ascii_of_string "b";
               list_ascii_of_string "c"] = Some Null
  /\ formatValue data "a.b.c" Undefined = Ok placeholder
  /\ formatValue (nested "a" (nested "b" (Object []))) "a.b.c" Undefined = Ok placeholder
  /\ formatValue (nested "a" Null) "a" Null = Ok placeholder
  /\ placeholder <> Null.
Proof. repeat split. discriminate. Qed.


(** ** Numerals and rounding *)

Lemma decimal_nonempty n : decimal n <> [].
Proof.
  unfold decimal. destruct n as [|p]; [discriminate|].
  cbn [N.to_uint]. pose proof (DecimalPos.Unsigned.to_uint_nonnil p) as H.
  destruct (Pos.to_uint p); try contradiction; discriminate.
Qed.

(** The numeral cut before its last [f] digits: [f] fraction digits and at
    least one integer digit. *)
Lemma fixedDigits_lengths n f :
  List.length (snd (fixedDigits n f)) = f /\ fst (fixedDigits n f) <> [].
Proof.
  unfold fixedDigits. cbn [fst snd].
  pose proof (decimal_nonempty (Z.to_N n)) as Hd.
  remember (decimal (Z.to_N n)) as ds eqn:Eds. clear Eds.
  remember (zeros (S f - List.length ds) ++ ds) as padded eqn:Ep.
  assert (Hl : f < List.length padded).
  { subst padded. unfold zeros. rewrite length_app, repeat_length.
    destruct ds; [contradiction|]. cbn [List.length]. lia. }
  clear Ep. split.
  - rewrite length_skipn. lia.
  - intros E. apply (f_equal (@List.length ascii)) in E.
    rewrite length_firstn in E. cbn [List.length] in E. lia.
Qed.

(** [roundHalfUp m e f] is the integer nearest to [m * 2^e * 10^f], the
    larger of two: for [e < 0], [n - 1/2 <= m * 10^f / 2^-e < n + 1/2]. *)
Lemma roundHalfUp_nearest m e f :
  let n := roundHalfUp m e f in
  ((0 <= e)%Z -> n = (Zpos m * 2 ^ e * 10 ^ Z.of_nat f)%Z)
  /\ ((e < 0)%Z ->
      ((2 * n - 1) * 2 ^ (- e) <= 2 * Zpos m * 10 ^ Z.of_nat f < (2 * n + 1) * 2 ^ (- e))%Z).
Proof.
  unfold roundHalfUp. split; intros He.
  - replace (0 <=? e)%Z with true by (symmetry; apply Z.leb_le; lia). reflexivity.
  - replace (0 <=? e)%Z with false by (symmetry; apply Z.leb_gt; lia).
    set (k := (- e)%Z). set (x := (2 * Zpos m * 10 ^ Z.of_nat f)%Z).
    assert (Hk : (0 < 2 ^ k)%Z) by (apply Z.pow_pos_nonneg; lia).
    replace (2 ^ (k + 1))%Z with (2 * 2 ^ k)%Z by (rewrite Z.pow_add_r by lia; lia).
    pose proof (Z.div_mod (x + 2 ^ k) (2 * 2 ^ k) ltac:(lia)) as D.
    pose proof (Z.mod_pos_bound (x + 2 ^ k) (2 * 2 ^ k) ltac:(lia)) as B.
    nia.
Qed.

(** *** Reading a numeral *)

Lemma digits_uint_acc u : forall p,
  fold_left (fun acc c => 10 * acc + Z.of_N (code c - code "0"%char))%Z (uintChars u) (Zpos p)
  = Zpos (Pos.of_uint_acc u p).
Proof.
  induction u as [|u IH|u IH|u IH|u IH|u IH|u IH|u IH|u IH|u IH|u IH]; intros p;
    cbn [uintChars fold_left Pos.of_uint_acc]; [reflexivity|..]; rewrite <- IH; f_equal;
    rewrite ?Pos2Z.inj_add, ?Pos2Z.inj_mul;
    match goal with
    | |- context [Z.of_N ?d] => let v := eval vm_compute in (Z.of_N d) in change (Z.of_N d) with v
    end; lia.
Qed.

Lemma digits_uint u : digitsToZ (uintChars u) = Z.of_N (Pos.of_uint u).
Proof.
  unfold digitsToZ.
  induction u as [|u IH|u IH|u IH|u IH|u IH|u IH|u IH|u IH|u IH|u IH];
    cbn [uintChars fold_left Pos.of_uint]; [reflexivity|exact IH|..];
    apply (digits_uint_acc u).
Qed.

(** The numeral of a number reads back as the number. *)
Lemma digitsToZ_decimal n : digitsToZ (decimal n) = Z.of_N n.
Proof.
  unfold decimal. rewrite digits_uint.
  change (Pos.of_uint (N.to_uint n)) with (N.of_uint (N.to_uint n)).
  rewrite DecimalN.Unsigned.of_to. reflexivity.
Qed.

Lemma digitsToZ_zeros z ds : digitsToZ (zeros z ++ ds) = digitsToZ ds.
Proof.
  unfold digitsToZ, zeros. rewrite fold_left_app. f_equal.
  induction z as [|z IH]; [reflexivity|]. cbn [repeat fold_left]. exact IH.
Qed.

(** The digits [fixedDigits] cuts are those of the number cut. *)
Lemma fixedDigits_value n f :
  (0 <= n)%Z ->
  digitsToZ (fst (fixedDigits n f) ++ snd (fixedDigits n f)) = n.
Proof.
  intros Hn. unfold fixedDigits. cbn [fst snd]. rewrite firstn_skipn.
  rewrite digitsToZ_zeros, digitsToZ_decimal. lia.
Qed.

Lemma allDigits_zeros z : allDigits (zeros z) = true.
Proof. unfold allDigits, zeros. induction z; [reflexivity|]. cbn [repeat forallb]. exact IHz. Qed.

Lemma allDigits_app a b : allDigits (a ++ b) = allDigits a && allDigits b.
Proof. apply forallb_app. Qed.

Lemma fixedDigits_digits n f :
  allDigits (fst (fixedDigits n f)) = true /\ allDigits (snd (fixedDigits n f)) = true.
Proof.
  unfold fixedDigits. cbn [fst snd].
  set (padded := zeros (S f - List.length (decimal (Z.to_N n))) ++ decimal (Z.to_N n)).
  assert (H : allDigits padded = true).
  { unfold padded. rewrite allDigits_app, allDigits_zeros. apply uintChars_allDigits. }
  rewrite <- (firstn_skipn (List.length padded - f) padded), allDigits_app in H.
  apply andb_prop in H. exact H.
Qed.

Lemma roundHalfUp_nonneg m e f : (0 <= roundHalfUp m e f)%Z.
Proof.
  unfold roundHalfUp. destruct (0 <=? e)%Z eqn:E.
  - apply Z.leb_le in E.
    pose proof (Z.pow_pos_nonneg 2 e ltac:(lia) E).
    pose proof (Z.pow_pos_nonneg 10 (Z.of_nat f) ltac:(lia) ltac:(lia)). nia.
  - apply Z.leb_gt in E. apply Z.div_pos.
    + pose proof (Z.pow_pos_nonneg 2 (- e) ltac:(lia) ltac:(lia)).
      pose proof (Z.pow_pos_nonneg 10 (Z.of_nat f) ltac:(lia) ltac:(lia)). nia.
    + apply Z.pow_pos_nonneg; lia.
Qed.

(** *** Reading a numeral with a decimal point *)

Lemma digit_not_white c : isDigit c = true -> isWhite c = false.
Proof.
  unfold isDigit, inRange, isWhite, code. intros H. apply andb_prop in H as [H1 H2].
  apply N.leb_le in H1, H2. cbn in H1, H2.
  destruct (N.leb_spec 9 (N_of_ascii c)); destruct (N.leb_spec (N_of_ascii c) 13);
    destruct (N.eqb_spec (N_of_ascii c) 32); cbn; try reflexivity; lia.
Qed.

Lemma digit_differs c d : isDigit c = true -> isDigit d = false -> Ascii.eqb c d = false.
Proof.
  intros Hc Hd. destruct (Ascii.eqb c d) eqn:E; [|reflexivity].
  apply Ascii.eqb_eq in E. subst d. congruence.
Qed.

Lemma trimStart_digit c s : isDigit c = true -> trimStart (c :: s) = c :: s.
Proof. intros H. cbn [trimStart]. rewrite (digit_not_white c H). reflexivity. Qed.

Lemma trim_ends c s x :
  isDigit c = true -> isDigit x = true -> trim (c :: s ++ [x]) = c :: s ++ [x].
Proof.
  intros Hc Hx. unfold trim. rewrite (trimStart_digit c _ Hc).
  rewrite app_comm_cons, rev_unit, (trimStart_digit x _ Hx).
  rewrite <- rev_unit, rev_involutive. reflexivity.
Qed.

Lemma spanDigits_run a t :
  allDigits a = true ->
  match t with x :: _ => isDigit x = false | [] => True end ->
  spanDigits (a ++ t) = (a, t).
Proof.
  intros Ha Ht. induction a as [|c a IH]; cbn [app spanDigits].
  - destruct t as [|x t]; [reflexivity|]. cbn [spanDigits]. rewrite Ht. reflexivity.
  - unfold allDigits in Ha. cbn [forallb] in Ha. apply andb_prop in Ha as [Hc Ha].
    rewrite Hc, (IH Ha). reflexivity.
Qed.

(** A numeral with digits on both sides of its decimal point is read as
    the decimal of all its digits. *)
Lemma StringToNumber_point a b :
  allDigits a = true -> a <> [] -> allDigits b = true -> b <> [] ->
  StringToNumber (a ++ "." ++ b)
  = ofDecimal false (digitsToZ (a ++ b)) (- Z.of_nat (List.length b)).
Proof.
  intros Ha Hna Hb Hnb.
  destruct a as [|c a]; [contradiction|]. clear Hna.
  pose proof Ha as Ha'. unfold allDigits in Ha'. cbn [forallb] in Ha'.
  apply andb_prop in Ha' as [Hc Ha'].
  assert (T : trim ((c :: a) ++ "." ++ b) = (c :: a) ++ "." ++ b).
  { destruct (exists_last Hnb) as (b' & x & Eb).
    assert (Hx : isDigit x = true).
    { rewrite Eb in Hb. unfold allDigits in Hb. rewrite forallb_app in Hb.
      apply andb_prop in Hb as [_ Hb].
      cbn [forallb] in Hb. apply andb_prop in Hb as [Hx _]. exact Hx. }
    replace ((c :: a) ++ "." ++ b) with (c :: (a ++ "."%char :: b') ++ [x])
      by (rewrite Eb; cbn [app list_ascii_of_string]; rewrite <- app_assoc; reflexivity).
    apply trim_ends; assumption. }
  unfold StringToNumber. rewrite T. cbn [app].
  assert (ND : nonDecimal (c :: a ++ "." ++ b) = None).
  { unfold nonDecimal.
    assert (P : forall p : ascii, isDigit p = true \/ p = "."%char ->
              (if Ascii.eqb p "x" || Ascii.eqb p "X" then 16
               else if Ascii.eqb p "o" || Ascii.eqb p "O" then 8
               else if Ascii.eqb p "b" || Ascii.eqb p "B" then 2 else 0)%Z = 0%Z).
    { intros p [Hp| ->]; [|reflexivity].
      rewrite !(digit_differs p _ Hp) by reflexivity. reflexivity. }
    destruct a as [|p a]; cbn [app list_ascii_of_string].
    - destruct b as [|d b]; [contradiction|]. destruct (Ascii.eqb c "0"); reflexivity.
    - assert (Hp : isDigit p = true).
      { cbn [forallb] in Ha'. apply andb_prop in Ha' as [Hp _]. exact Hp. }
      destruct (a ++ "."%char :: b) eqn:E; [destruct a; discriminate|].
      destruct (Ascii.eqb c "0"); [|reflexivity].
      rewrite (P p (or_introl Hp)). reflexivity. }
  rewrite ND.
  assert (S : takeSign (c :: a ++ "." ++ b) = (false, c :: a ++ "." ++ b)).
  { unfold takeSign. rewrite !(digit_differs c _ Hc) by reflexivity. reflexivity. }
  rewrite S. unfold unsignedDecimal.
  assert (Inf : str_eqb (c :: a ++ "." ++ b) "Infinity" = false).
  { cbn [list_ascii_of_string str_eqb]. rewrite (digit_differs c "I" Hc) by reflexivity.
    reflexivity. }
  rewrite Inf.
  change (c :: a ++ "." ++ b) with ((c :: a) ++ "."%char :: b).
  rewrite (spanDigits_run (c :: a) ("."%char :: b) Ha eq_refl).
  rewrite Ascii.eqb_refl.
  rewrite <- (app_nil_r b) at 1. rewrite (spanDigits_run b [] Hb I).
  cbn [parseExponent app]. f_equal.
Qed.

(** *** toFixed *)

(** What [toFixed] writes for a positive number below 1e21: the numeral of
    the nearest multiple of [10^-f], with its [f] decimals. *)
Lemma toFixed_positive m e f :
  gt (ofDecimal false 1 21) (S754_finite false m e) = true ->
  toFixed (S754_finite false m e) (S f)
  = fst (fixedDigits (roundHalfUp m e (S f)) (S f)) ++ "."
    ++ snd (fixedDigits (roundHalfUp m e (S f)) (S f)).
Proof.
  intros H. unfold toFixed. rewrite H.
  destruct (fixedDigits (roundHalfUp m e (S f)) (S f)). reflexivity.
Qed.

(** Read back, that text is the Number for the multiple it writes. *)
Lemma StringToNumber_fixedDigits n f :
  (0 <= n)%Z ->
  StringToNumber (fst (fixedDigits n (S f)) ++ "." ++ snd (fixedDigits n (S f)))
  = ofDecimal false n (- Z.of_nat (S f)).
Proof.
  intros Hn. destruct (fixedDigits_digits n (S f)) as [Ha Hb].
  destruct (fixedDigits_lengths n (S f)) as [Hl Hne].
  rewrite StringToNumber_point; try assumption.
  - rewrite (fixedDigits_value n (S f) Hn), Hl. reflexivity.
  - intros E. rewrite E in Hl. discriminate.
Qed.

(** ** formatBigNumber *)

(** The comparisons with the three units are nested: a number not above a
    unit is not above a larger one. *)
Lemma gt_cascade v :
  (gt v (ofZ 1000) = false -> gt v (ofZ 1000000) = false)
  /\ (gt v (ofZ 1000000) = false -> gt v (ofZ 1000000000) = false).
Proof.
  replace (ofZ 1000) with (S754_finite false 8796093022208000 (-43))
    by (vm_compute; reflexivity).
  replace (ofZ 1000000) with (S754_finite false 8589934592000000 (-33))
    by (vm_compute; reflexivity).
  replace (ofZ 1000000000) with (S754_finite false 8388608000000000 (-23))
    by (vm_compute; reflexivity).
  unfold gt, SFltb, SFcompare.
  destruct v as [s|s| |s m e]; try (split; reflexivity).
  - destruct s; split; (reflexivity || discriminate).
  - destruct s; [split; reflexivity|]. split.
    + destruct (Z.compare_spec (-43) e) as [E|E|E]; [| discriminate |]; intros _;
        (destruct (Z.compare_spec (-33) e); [lia|lia|reflexivity]).
    + destruct (Z.compare_spec (-33) e) as [E|E|E].
      * subst e. cbn [Z.compare]. intros H.
        destruct (Z.compare_spec (-23) (-33)); [lia|lia|reflexivity].
      * discriminate.
      * intros _. destruct (Z.compare_spec (-23) e); [lia|lia|reflexivity].
Qed.

Lemma formatBigNumber_unchanged value :
  isFinite (toNumber value) = false \/ gt (toNumber value) (ofZ 1000) = false ->
  formatBigNumber value = toStr value.
Proof.
  unfold formatBigNumber, isNumber. intros [H|H].
  - rewrite H. reflexivity.
  - destruct (gt_cascade (toNumber value)) as [C1 C2].
    rewrite H, (C1 H), (C2 (C1 H)), !andb_false_r. reflexivity.
Qed.

Lemma formatBigNumber_abbreviated value unit suffix :
  isFinite (toNumber value) = true ->
  abbreviates (toNumber value) unit suffix ->
  formatBigNumber value
  = NumberToString (StringToNumber (toFixed (div (toNumber value) (ofZ unit)) 3)) ++ suffix.
Proof.
  intros F A. unfold formatBigNumber, isNumber. rewrite F. cbn [andb].
  destruct A as [H9|H6 H9|H3 H6].
  - rewrite H9. reflexivity.
  - rewrite H9, H6. reflexivity.
  - rewrite (proj2 (gt_cascade (toNumber value)) H6), H6, H3. reflexivity.
Qed.

(** Claim C4.  For every value, [formatBigNumber] coerces it to a number.
    A number that is not finite or not greater than 1000 is returned as
    the text of the original value.  A finite number above 1000 is divided
    by the largest of the units 1e9, 1e6 and 1e3 that it strictly exceeds;
    when the quotient, a Number [m * 2^e], is below 1e21, [toFixed] writes
    the integer [n] nearest to a thousand times the quotient, the larger
    of two, as the numeral of [n / 1000] with three decimals; that text is
    read back as the Number for [n / 1000], which is printed as Numbers
    are, so that the zeros the three decimals end with do not appear (and,
    past the sixteenth digit, neither do all three decimals); a quotient
    of 1e21 or more is printed as Numbers are; the suffix [B], [M] or [K]
    of the unit follows.  A value equal to a
    larger unit falls to the unit below it: 1000000 gives [1000K] and
    1000000000 gives [1000M], while 1000, which has no unit below, stays
    [1000]. *)
Theorem formatBigNumber_units :
  (forall value,
     isFinite (toNumber value) = false \/ gt (toNumber value) (ofZ 1000) = false ->
     formatBigNumber value = toStr value)
  /\ (forall value unit suffix m e,
        isFinite (toNumber value) = true ->
        abbreviates (toNumber value) unit suffix ->
        div (toNumber value) (ofZ unit) = S754_finite false m e ->
        gt (ofDecimal false 1 21) (S754_finite false m e) = true ->
        toFixed (div (toNumber value) (ofZ unit)) 3 = thousandths (roundHalfUp m e 3)
        /\ StringToNumber (thousandths (roundHalfUp m e 3))
           = ofDecimal false (roundHalfUp m e 3) (-3)
        /\ formatBigNumber value
           = NumberToString (ofDecimal false (roundHalfUp m e 3) (-3)) ++ suffix)
  /\ (forall value unit suffix m e,
        isFinite (toNumber value) = true ->
        abbreviates (toNumber value) unit suffix ->
        div (toNumber value) (ofZ unit) = S754_finite false m e ->
        gt (ofDecimal false 1 21) (S754_finite false m e) = false ->
        formatBigNumber value
        = NumberToString (StringToNumber (NumberToString (S754_finite false m e)))
            ++ suffix)
  /\ (forall m e,
        ((0 <= e)%Z -> roundHalfUp m e 3 = (Zpos m * 2 ^ e * 1000)%Z)
        /\ ((e < 0)%Z ->
            ((2 * roundHalfUp m e 3 - 1) * 2 ^ (- e) <= 2 * Zpos m * 1000
             < (2 * roundHalfUp m e 3 + 1) * 2 ^ (- e))%Z))
  /\ (forall n,
        (0 <= n)%Z ->
        List.length (snd (fixedDigits n 3)) = 3
        /\ allDigits (fst (fixedDigits n 3) ++ snd (fixedDigits n 3)) = true
        /\ digitsToZ (fst (fixedDigits n 3) ++ snd (fixedDigits n 3)) = n)
  /\ formatBigNumber (Nbr (ofZ 1500000000)) = "1.5B"
  /\ formatBigNumber (Nbr (ofZ 1234567)) = "1.235M"
  /\ formatBigNumber (Str "999999.9") = "1000K"
  /\ formatBigNumber (Str "1000.0004") = "1K"
  /\ formatBigNumber (Str "1.0000000000000002e23") = "100000000000000.03B"
  /\ formatBigNumber (Str "1e30") = "1e+21B"
  /\ formatBigNumber (Nbr (ofZ 999)) = "999"
  /\ formatBigNumber (Nbr (ofZ 1000)) = "1000"
  /\ formatBigNumber (Nbr (ofZ 1000000)) = "1000K"
  /\ formatBigNumber (Nbr (ofZ 1000000000)) = "1000M"
  /\ formatBigNumber (Str "abc") = "abc".
Proof.
  split; [exact formatBigNumber_unchanged|].
  split; [|split; [|split; [|split; [|repeat split; vm_compute; reflexivity]]]].
  - intros value unit suffix m e F A Q L.
    assert (T : toFixed (div (toNumber value) (ofZ unit)) 3
                = thousandths (roundHalfUp m e 3)).
    { rewrite Q. exact (toFixed_positive m e 2 L). }
    assert (R : StringToNumber (thousandths (roundHalfUp m e 3))
                = ofDecimal false (roundHalfUp m e 3) (-3)).
    { exact (StringToNumber_fixedDigits _ 2 (roundHalfUp_nonneg m e 3)). }
    split; [exact T|]. split; [exact R|].
    rewrite (formatBigNumber_abbreviated value unit suffix F A), T, R. reflexivity.
  - intros value unit suffix m e F A Q L.
    rewrite (formatBigNumber_abbreviated value unit suffix F A), Q.
    unfold toFixed. rewrite L. reflexivity.
  - intros m e. exact (roundHalfUp_nearest m e 3).
  - intros n Hn. split; [apply fixedDigits_lengths|]. split.
    + rewrite allDigits_app. destruct (fixedDigits_digits n 3) as [-> ->]. reflexivity.
    + exact (fixedDigits_value n 3 Hn).
Qed.

(** 1234567 is above 1e6 and not above 1e9: the quotient 1.234567 is
    written [1.235]; 1e30 over 1e9 is 1e21. *)
Lemma formatBigNumber_units_witness :
  toFixed (div (ofZ 1234567) (ofZ 1000000)) 3 = "1.235"
  /\ formatBigNumber (Nbr (ofZ 1234567)) = "1.235M"
  /\ formatBigNumber (Str "1e30") = "1e+21B"
  /\ formatBigNumber (Str "-12") = "-12"
  /\ ((2 * 1235 - 1) * 2 ^ 52 <= 2 * 5559995481163911 * 1000
      < (2 * 1235 + 1) * 2 ^ 52)%Z
  /\ digitsToZ ("1" ++ "235") = 1235%Z.
Proof.
  assert (F : isFinite (toNumber (Nbr (ofZ 1234567))) = true)
    by (vm_compute; reflexivity).
  assert (A : abbreviates (toNumber (Nbr (ofZ 1234567))) 1000000%Z "M")
    by (apply byMillion; vm_compute; reflexivity).
  assert (Q : div (toNumber (Nbr (ofZ 1234567))) (ofZ 1000000)
              = S754_finite false 5559995481163911%positive (-52)%Z)
    by (vm_compute; reflexivity).
  assert (L : gt (ofDecimal false 1 21)
                (S754_finite false 5559995481163911%positive (-52)%Z) = true)
    by (vm_compute; reflexivity).
  assert (F' : isFinite (toNumber (Str "1e30")) = true)
    by (vm_compute; reflexivity).
  assert (A' : abbreviates (toNumber (Str "1e30")) 1000000000%Z "B")
    by (apply byBillion; vm_compute; reflexivity).
  assert (Q' : div (toNumber (Str "1e30")) (ofZ 1000000000)
               = S754_finite false 7629394531250000%positive 17%Z)
    by (vm_compute; reflexivity).
  assert (L' : gt (ofDecimal false 1 21)
                 (S754_finite false 7629394531250000%positive 17%Z) = false)
    by (vm_compute; reflexivity).
  destruct formatBigNumber_units as (U & T & G & R & D & _).
  destruct (T _ _ _ _ _ F A Q L) as (T1 & _ & T3).
  split; [etransitivity; [exact T1|vm_compute; reflexivity]|].
  split; [rewrite T3; vm_compute; reflexivity|].
  split; [rewrite (G _ _ _ _ _ F' A' Q' L'); vm_compute; reflexivity|].
  split; [rewrite (U (Str "-12")); [reflexivity|right; vm_compute; reflexivity]|].
  split; [exact (proj2 (R 5559995481163911%positive (-52)%Z) ltac:(lia))|].
  exact (proj2 (proj2 (D 1235%Z ltac:(lia)))).
Defined.

(** The units 1e6 and 1e9 themselves are abbreviated by the unit below. *)
Lemma formatBigNumber_at_million :
  atThreshold (ofZ 1000000) = true
  /\ toStr (Nbr (ofZ 1000000)) = "1000000"
  /\ formatBigNumber (Nbr (ofZ 1000000)) = "1000K"
  /\ formatBigNumber (Nbr (ofZ 1000000000)) = "1000M".
Proof. repeat split; vm_compute; reflexivity. Qed.

(** ** formatPrecision *)

Lemma toLocaleString_same x p digits :
  GetNumberOption p 0 100 = Ok digits ->
  toLocaleString_idID x p p = Ok (formatIdID x digits).
Proof.
  intros H. unfold toLocaleString_idID. rewrite H. cbn [bind].
  rewrite Nat.ltb_irrefl. reflexivity.
Qed.

Lemma formatPrecision_branches value precision :
  formatPrecision value precision =
  if isFinite (toNumber value)
  then toLocaleString_idID (toNumber value) (precisionOr2 precision) (precisionOr2 precision)
  else Ok (toStr value).
Proof. unfold formatPrecision, isNumber, precisionOr2. destruct precision; reflexivity. Qed.

(** [roundDecimal s q f] is the integer nearest to [s * 10^(q + f)], the
    larger of two: for [q + f < 0], [r - 1/2 <= s / 10^-(q+f) < r + 1/2]. *)
Lemma roundDecimal_nearest s q f :
  let r := roundDecimal s q f in
  let p := (q + Z.of_nat f)%Z in
  ((0 <= p)%Z -> r = (s * 10 ^ p)%Z)
  /\ ((p < 0)%Z -> ((2 * r - 1) * 10 ^ (- p) <= 2 * s < (2 * r + 1) * 10 ^ (- p))%Z).
Proof.
  unfold roundDecimal. cbv zeta. set (p := (q + Z.of_nat f)%Z). split; intros Hp.
  - replace (0 <=? p)%Z with true by (symmetry; apply Z.leb_le; lia). reflexivity.
  - replace (0 <=? p)%Z with false by (symmetry; apply Z.leb_gt; lia).
    set (d := (10 ^ (- p))%Z).
    assert (Hd : (0 < d)%Z) by (apply Z.pow_pos_nonneg; lia).
    pose proof (Z.div_mod (2 * s + d) (2 * d) ltac:(lia)) as D.
    pose proof (Z.mod_pos_bound (2 * s + d) (2 * d) ltac:(lia)) as B.
    nia.
Qed.

Lemma roundDecimal_nonneg s q f : (0 <= s)%Z -> (0 <= roundDecimal s q f)%Z.
Proof.
  intros Hs. unfold roundDecimal. destruct (0 <=? q + Z.of_nat f)%Z eqn:E.
  - apply Z.leb_le in E. pose proof (Z.pow_pos_nonneg 10 _ ltac:(lia) E). nia.
  - apply Z.leb_gt in E.
    pose proof (Z.pow_pos_nonneg 10 (- (q + Z.of_nat f)) ltac:(lia) ltac:(lia)).
    apply Z.div_pos; lia.
Qed.

(** Claim C9.  For every value and every precision from 0 to 100, of
    which the integer part is the number of fraction digits (2 when the
    precision is absent), [formatPrecision] coerces the value to a number;
    a finite number is rendered with its sign, the integer digits grouped
    in threes by a period, and, when there are fraction digits, a comma
    and exactly that many of them; the digits are those of the integer
    nearest to the decimal of the number, the one its text shows, scaled
    by the power of ten, a tie going away from zero; a value that does not
    coerce to a finite number is returned as its own text.  So
    [formatPrecision(1234.5, 2)] is [1.234,50], [formatPrecision(1.005, 2)]
    is [1,01] and [formatPrecision("abc")] is [abc]. *)
Theorem formatPrecision_renders :
  (forall value precision digits,
     GetNumberOption (precisionOr2 precision) 0 100 = Ok digits ->
     formatPrecision value precision =
     if isFinite (toNumber value) then Ok (formatIdID (toNumber value) digits)
     else Ok (toStr value))
  /\ (forall neg m e f s n k,
        shortest m e = (s, n, k) ->
        let r := roundDecimal s (n - k) f in
        formatIdID (S754_finite neg m e) f =
        signChars neg ++ grouped "." (fst (fixedDigits r f))
          ++ match f with
             | O => []
             | S _ => "," ++ snd (fixedDigits r f)
             end)
  /\ (forall r f,
        (0 <= r)%Z ->
        List.length (snd (fixedDigits r f)) = f
        /\ allDigits (fst (fixedDigits r f) ++ snd (fixedDigits r f)) = true
        /\ digitsToZ (fst (fixedDigits r f) ++ snd (fixedDigits r f)) = r)
  /\ (forall s q f,
        (0 <= s)%Z ->
        (0 <= roundDecimal s q f)%Z
        /\ ((0 <= q + Z.of_nat f)%Z ->
            roundDecimal s q f = (s * 10 ^ (q + Z.of_nat f))%Z)
        /\ ((q + Z.of_nat f < 0)%Z ->
            ((2 * roundDecimal s q f - 1) * 10 ^ (- (q + Z.of_nat f)) <= 2 * s
             < (2 * roundDecimal s q f + 1) * 10 ^ (- (q + Z.of_nat f)))%Z))
  /\ GetNumberOption (precisionOr2 None) 0 100 = Ok 2
  /\ formatPrecision (Nbr (num "1234.5")) (Some (ofZ 2)) = Ok (list_ascii_of_string "1.234,50")
  /\ toStr (Nbr (num "1.005")) = "1.005"
  /\ formatPrecision (Nbr (num "1.005")) (Some (ofZ 2)) = Ok (list_ascii_of_string "1,01")
  /\ formatPrecision (Nbr (num "-2.675")) (Some (ofZ 2)) = Ok (list_ascii_of_string "-2,68")
  /\ formatPrecision (Nbr (num "123456789012345680000")) None
     = Ok (list_ascii_of_string "123.456.789.012.345.680.000,00")
  /\ formatPrecision (Str "abc") None = Ok (list_ascii_of_string "abc").
Proof.
  split; [|split; [|split; [|split; [|repeat split; vm_compute; reflexivity]]]].
  - intros value precision digits H. rewrite formatPrecision_branches.
    destruct (isFinite (toNumber value)); [|reflexivity].
    apply toLocaleString_same, H.
  - intros neg m e f s n k H. cbv zeta. unfold formatIdID. rewrite H.
    destruct (fixedDigits (roundDecimal s (n - k) f) f). reflexivity.
  - intros r f Hr. split; [apply fixedDigits_lengths|]. split.
    + rewrite allDigits_app. destruct (fixedDigits_digits r f) as [-> ->]. reflexivity.
    + exact (fixedDigits_value r f Hr).
  - intros s q f Hs. split; [exact (roundDecimal_nonneg s q f Hs)|].
    exact (roundDecimal_nearest s q f).
Qed.

(** The precision 3.7 is taken as 3. *)
Lemma formatPrecision_renders_witness :
  formatPrecision (Str "-1234567.891") (Some (num "3.7"))
  = Ok (list_ascii_of_string "-1.234.567,891")
  /\ formatIdID (S754_finite false 4526117625507348 (-52)) 2 = "1,01"
  /\ digitsToZ ("1" ++ "01") = 101%Z
  /\ ((2 * 101 - 1) * 10 ^ 1 <= 2 * 1005 < (2 * 101 + 1) * 10 ^ 1)%Z.
Proof.
  assert (P : GetNumberOption (precisionOr2 (Some (num "3.7"))) 0 100 = Ok 3)
    by (vm_compute; reflexivity).
  assert (H : shortest 4526117625507348 (-52) = (1005, 1, 4)%Z)
    by (vm_compute; reflexivity).
  destruct formatPrecision_renders as (B & R & D & N & _).
  split; [rewrite (B (Str "-1234567.891") _ _ P); vm_compute; reflexivity|].
  split; [rewrite (R false _ _ 2 _ _ _ H); vm_compute; reflexivity|].
  split; [exact (proj2 (proj2 (D 101%Z 2 ltac:(lia))))|].
  exact (proj2 (proj2 (N 1005%Z (-3)%Z 2 ltac:(lia))) ltac:(lia)).
Defined.

(** More than 100 fraction digits are refused. *)
Lemma formatPrecision_precision_101 :
  formatPrecision (Nbr (num "1234.5")) (Some (ofZ 101)) = Throw RangeError.
Proof. vm_compute. reflexivity. Qed.

(** Claim C10.  The empty string coerces to the finite number 0, so
    [formatPrecision("")] is the rendering of zero with two fraction
    digits, [0,00], and not the empty string; the rendering branch is taken
    exactly when the coercion gives a finite number, the fallback to the
    text of the value exactly when it does not. *)
Theorem formatPrecision_empty_string :
  toNumber (Str "") = S754_zero false
  /\ formatPrecision (Str "") None = Ok (list_ascii_of_string "0,00")
  /\ (forall value precision,
        isFinite (toNumber value) = true ->
        formatPrecision value precision =
        toLocaleString_idID (toNumber value) (precisionOr2 precision) (precisionOr2 precision))
  /\ (forall value precision,
        isFinite (toNumber value) = false ->
        formatPrecision value precision = Ok (toStr value)).
Proof.
  split; [reflexivity|]. split; [vm_compute; reflexivity|].
  split; intros value precision H; rewrite formatPrecision_branches, H; reflexivity.
Qed.

(** A blank string is the number 0; [Infinity] is a number but not a finite one. *)
Lemma formatPrecision_empty_string_witness :
  formatPrecision (Str " ") (Some (ofZ 0)) = Ok (list_ascii_of_string "0")
  /\ formatPrecision (Str "Infinity") (Some (ofZ 0)) = Ok (list_ascii_of_string "Infinity").
Proof.
  split.
  - rewrite (proj1 (proj2 (proj2 formatPrecision_empty_string)) (Str " ") (Some (ofZ 0)));
      reflexivity.
  - rewrite (proj2 (proj2 (proj2 formatPrecision_empty_string)) (Str "Infinity"));
      reflexivity.
Defined.


(** ** Captures: what a match can change *)

Lemma ensures_weaken m (R R' : Captures -> Captures -> Prop) :
  (forall a b, R a b -> R' a b) -> ensures m R -> ensures m R'.
Proof.
  intros H E x c z Hm. destruct (E x c z Hm) as (y & Hy & Hc). exists y. auto.
Qed.

Lemma ensures_seq r1 r2 R1 R2 :
  ensures (compile r1) R1 -> ensures (compile r2) R2 ->
  ensures (compile (Seq r1 r2)) (fun a c => exists b, R1 a b /\ R2 b c).
Proof.
  intros E1 E2 x c z Hm. cbn [compile] in Hm.
  destruct (E1 _ _ _ Hm) as (y1 & H1 & Hc1).
  destruct (E2 _ _ _ Hc1) as (y2 & H2 & Hc2).
  exists y2. split; [exists (caps y1); auto|exact Hc2].
Qed.

Lemma ensures_alt r1 r2 R :
  ensures (compile r1) R -> ensures (compile r2) R -> ensures (compile (Alt r1 r2)) R.
Proof.
  intros E1 E2 x c z Hm. cbn [compile] in Hm. unfold orElse in Hm.
  destruct (compile r1 x c) as [z1|] eqn:H1.
  - rewrite Hm in H1. exact (E1 _ _ _ H1).
  - exact (E2 _ _ _ Hm).
Qed.

Lemma ensures_group i r R :
  ensures (compile r) R ->
  ensures (compile (Group i r)) (fun a c => exists b v, R a b /\ c = setCap (i - 1) (Some v) b).
Proof.
  intros E x c z Hm. cbn [compile] in Hm.
  destruct (E _ _ _ Hm) as (y & Hy & Hc).
  eexists. split; [|exact Hc]. cbn [caps]. exists (caps y). eexists. split; [exact Hy|reflexivity].
Qed.

Lemma ensures_noncapture r R : ensures (compile r) R -> ensures (compile (NonCapture r)) R.
Proof. intros E. exact E. Qed.

Lemma repeatMatcher_frame m :
  ensures m eq ->
  forall fuel min max greedy, ensures (repeatMatcher fuel m min max greedy []) eq.
Proof.
  intros E. induction fuel as [|fuel IH]; intros min max greedy x c z Hm; [discriminate|].
  cbn [repeatMatcher] in Hm. rewrite clearCaps_nil in Hm.
  set (d := fun y : State =>
              if (min =? 0)%nat && (List.length (rest y) =? List.length (rest x))%nat
              then None
              else repeatMatcher fuel m (pred min) (option_map pred max) greedy [] y c) in Hm.
  assert (D : m x d = Some z -> exists y, caps x = caps y /\ c y = Some z).
  { intros Hd. destruct (E _ _ _ Hd) as (y & Hy & Hc). unfold d in Hc.
    destruct ((min =? 0)%nat && _); [discriminate|].
    destruct (IH _ _ _ _ _ _ Hc) as (y' & Hy' & Hc'). exists y'. split; congruence. }
  assert (Done : c x = Some z -> exists y, caps x = caps y /\ c y = Some z)
    by (intros H; exists x; auto).
  assert (Both : forall a b : option State,
            (a = Some z -> exists y, caps x = caps y /\ c y = Some z) ->
            (b = Some z -> exists y, caps x = caps y /\ c y = Some z) ->
            orElse a b = Some z -> exists y, caps x = caps y /\ c y = Some z).
  { intros [a|] b Ha Hb; cbn [orElse]; auto. }
  destruct max as [[|k]|]; [auto| |];
    (destruct (negb (min =? 0)%nat); [auto|]);
    (destruct greedy; [apply (Both _ _ D Done Hm)|apply (Both _ _ Done D Hm)]).
Qed.

(** A pattern without groups leaves the captures as they are. *)
Lemma compile_frame r : groupsOf r = [] -> ensures (compile r) eq.
Proof.
  induction r as [|ch|neg ranges| |r1 IH1 r2 IH2|r1 IH1 r2 IH2|r IH min max greedy
                 |i r IH|r IH|i|r IH|r IH|];
    cbn [groupsOf]; intros G x k z Hm.
  - exists x. auto.
  - cbn [compile] in Hm. unfold charMatcher in Hm. destruct (rest x); [discriminate|].
    destruct (Ascii.eqb _ _); [|discriminate]. eexists. split; [|exact Hm]. reflexivity.
  - cbn [compile] in Hm. unfold charMatcher in Hm. destruct (rest x); [discriminate|].
    destruct (xorb _ _); [|discriminate]. eexists. split; [|exact Hm]. reflexivity.
  - cbn [compile] in Hm. unfold charMatcher in Hm. destruct (rest x); [discriminate|].
    destruct (negb _); [|discriminate]. eexists. split; [|exact Hm]. reflexivity.
  - apply app_eq_nil in G as [G1 G2].
    destruct (ensures_seq _ _ _ _ (IH1 G1) (IH2 G2) _ _ _ Hm) as (y & (b & -> & ->) & Hc).
    exists y. auto.
  - apply app_eq_nil in G as [G1 G2].
    exact (ensures_alt _ _ _ (IH1 G1) (IH2 G2) _ _ _ Hm).
  - cbn [compile] in Hm. rewrite G in Hm.
    exact (repeatMatcher_frame _ (IH G) _ _ _ _ _ _ _ Hm).
  - discriminate.
  - exact (IH G _ _ _ Hm).
  - cbn [compile] in Hm. destruct (getCap i (caps x)); [|exists x; auto].
    destruct (stripPrefix _ _); [|discriminate]. eexists. split; [|exact Hm]. reflexivity.
  - cbn [compile] in Hm. destruct (compile r x Some) as [y|] eqn:H; [|discriminate].
    destruct (IH G _ _ _ H) as (y' & Hy & [= <-]).
    eexists. split; [|exact Hm]. exact Hy.
  - cbn [compile] in Hm. destruct (compile r x Some); [discriminate|]. exists x. auto.
  - cbn [compile] in Hm. destruct (rest x); [|discriminate]. exists x. auto.
Qed.

(** ** formatValue: the keys of a path *)

Lemma rePropName_captures :
  ensures (compile rePropName)
          (fun a b => a = [None; None; None] -> quotedComplete b).
Proof.
  unfold rePropName.
  apply ensures_alt; [|apply ensures_alt].
  - eapply ensures_weaken.
    2: { apply compile_frame. reflexivity. }
    intros a b <- ->. left. reflexivity.
  - eapply ensures_weaken.
    2: { apply ensures_seq; [apply compile_frame; reflexivity|].
         apply ensures_seq; [|apply compile_frame; reflexivity].
         apply ensures_noncapture.
         apply (ensures_alt _ _ (fun a b => a = [None; None; None] -> quotedComplete b)).
         - eapply ensures_weaken.
           2: { apply ensures_group, compile_frame. reflexivity. }
           intros a b (b' & v & <- & ->) ->. left. reflexivity.
         - eapply ensures_weaken.
           2: { apply ensures_seq; [apply ensures_group, compile_frame; reflexivity|].
                apply ensures_seq; [apply ensures_group, compile_frame; reflexivity|].
                apply compile_frame. reflexivity. }
           intros a b (b1 & (a' & v & <- & ->) & b2 & (b1' & w & <- & ->) & <-) ->.
           right. discriminate. }
    intros a b (b1 & <- & b2 & H & <-). exact H.
  - eapply ensures_weaken.
    2: { apply compile_frame. reflexivity. }
    intros a b <- ->. left. reflexivity.
Qed.

Lemma matchAt_rePropName s z :
  matchAt rePropName s = Some z -> quotedComplete (caps z).
Proof.
  unfold matchAt. intros H.
  destruct (rePropName_captures _ _ _ H) as (y & Hy & [= <-]).
  apply Hy. reflexivity.
Qed.

Lemma exec_rePropName s : forall m,
  exec rePropName s = Some m -> quotedComplete (groups m).
Proof.
  induction s as [|ch s IH]; intros m; rewrite exec_eq.
  - destruct (matchAt rePropName []) as [y|] eqn:E; [|discriminate].
    intros [= <-]. exact (matchAt_rePropName _ _ E).
  - destruct (matchAt rePropName (ch :: s)) as [y|] eqn:E.
    + intros [= <-]. exact (matchAt_rePropName _ _ E).
    + destruct (exec rePropName s) as [m'|]; [|discriminate].
      intros [= <-]. exact (IH m' eq_refl).
Qed.

Lemma matchList_rePropName fuel : forall seen s,
  Forall (fun m => quotedComplete (groups m)) (matchListFuel fuel rePropName seen s).
Proof.
  induction fuel as [|fuel IH]; intros seen s; cbn [matchListFuel]; [constructor|].
  destruct (exec rePropName s) as [m|] eqn:E; [|constructor].
  constructor; [exact (exec_rePropName _ _ E)|].
  destruct (matched m); [destruct (after m); [constructor|]|]; apply IH.
Qed.

Lemma pathKey_returns m : quotedComplete (groups m) -> returns (pathKey m).
Proof.
  intros [H|H]; unfold pathKey, returns.
  - rewrite H. destruct (getCap 1 (groups m)); eauto.
  - destruct (getCap 2 (groups m)); [|destruct (getCap 1 (groups m)); eauto].
    destruct (getCap 3 (groups m)); [eauto|contradiction].
Qed.

Lemma collect_returns {A : Type} (rs : list (Result A)) :
  Forall returns rs -> returns (collect rs).
Proof.
  induction 1 as [|r rs [a ->] _ [l IH]]; [exists []; reflexivity|].
  cbn [collect bind]. rewrite IH. exists (a :: l). reflexivity.
Qed.

Lemma stringToPath_returns key : returns (stringToPath key).
Proof.
  unfold stringToPath. apply collect_returns. apply Forall_map.
  eapply Forall_impl; [|apply matchList_rePropName].
  intros m. apply pathKey_returns.
Qed.

Lemma formatValue_returns data key defaultValue :
  returns (formatValue data key defaultValue).
Proof.
  destruct (stringToPath_returns key) as [path Hp].
  rewrite (formatValue_path data key path defaultValue Hp). eexists. reflexivity.
Qed.


(** ** The text of a number inside a pattern *)

Lemma numeralChar_differs c d :
  numeralChar c = true -> numeralChar d = false -> Ascii.eqb c d = false.
Proof.
  intros Hc Hd. destruct (Ascii.eqb c d) eqn:E; [|reflexivity].
  apply Ascii.eqb_eq in E. subst d. congruence.
Qed.

Lemma parseTerm_numeral c : numeralChar c = true -> forall f total next s,
  parseTerm (S f) total next (c :: s)
  = quantified next (if Ascii.eqb c "." then Dot else Chr c) s.
Proof.
  destruct c as [b0 b1 b2 b3 b4 b5 b6 b7].
  destruct b0, b1, b2, b3, b4, b5, b6, b7; intros H; try discriminate H;
    intros; reflexivity.
Qed.

Lemma quantifierPrefix_none c s :
  Ascii.eqb c "*" = false -> Ascii.eqb c "+" = false ->
  Ascii.eqb c "?" = false -> Ascii.eqb c "{" = false ->
  quantifierPrefix (c :: s) = None.
Proof. intros H1 H2 H3 H4. unfold quantifierPrefix, isC. rewrite H1, H2, H3, H4. reflexivity. Qed.

Lemma quantifierPrefix_numeral c s : numeralChar c = true -> quantifierPrefix (c :: s) = None.
Proof.
  intros H. apply quantifierPrefix_none; apply numeralChar_differs; auto.
Qed.

Lemma quantified_none next atom s :
  quantifierPrefix s = None -> quantified next atom s = Good (atom, next, s).
Proof. intros H. unfold quantified, applyQuantifier. rewrite H. reflexivity. Qed.

Lemma quantified_plus next atom d s :
  Ascii.eqb d "?" = false ->
  quantified next atom ("+"%char :: d :: s) = Good (Rep atom 1 None true, next, d :: s).
Proof.
  intros H. unfold quantified, applyQuantifier, quantifierPrefix.
  change (isC "+" "*") with false. change (isC "+" "+") with true. cbv iota.
  unfold isC. rewrite H. reflexivity.
Qed.

(** An alternative made of a tame text and a tail that parses. *)
Lemma parse_tame total next tail ts kt :
  (forall f, kt <= f -> parseAlternative f total next tail = Good (ts, next, [])) ->
  1 <= kt -> quantifierPrefix tail = None ->
  forall n w fuel,
    List.length w <= n -> tame w = true -> List.length w + kt <= fuel ->
    exists ts', parseAlternative fuel total next (w ++ tail) = Good (ts', next, []).
Proof.
  intros Htail Hkt Hq. induction n as [|n IH]; intros w fuel Hn Hw Hf.
  - destruct w; [|cbn in Hn; lia]. exists ts. apply Htail. cbn in Hf. lia.
  - destruct w as [|c w']; [exists ts; apply Htail; cbn in Hf; lia|].
    cbn [List.length] in Hn, Hf.
    destruct fuel as [|[|f]]; [lia|lia|].
    cbn [tame] in Hw. apply andb_prop in Hw as [Hc Hw].
    cbn [app]. rewrite parseAlternative_S. unfold isC.
    rewrite (numeralChar_differs c "|" Hc eq_refl), (numeralChar_differs c ")" Hc eq_refl).
    cbn [orb]. rewrite (parseTerm_numeral c Hc).
    destruct w' as [|p w''].
    + cbn [app]. rewrite (quantified_none _ _ _ Hq).
      rewrite (Htail (S f)) by lia. eexists. reflexivity.
    + destruct (Ascii.eqb p "+") eqn:Ep.
      * apply Ascii.eqb_eq in Ep. subst p.
        apply andb_prop in Hw as [Hd Hw]. destruct w'' as [|d w''']; [discriminate|].
        cbn [app]. rewrite quantified_plus by (apply numeralChar_differs; auto).
        destruct (IH (d :: w''') (S f)) as [ts' E]; [cbn [List.length] in *; lia|exact Hw|
                                                     cbn [List.length] in *; lia|].
        cbn [app] in E. rewrite E. eexists. reflexivity.
      * assert (Hp : numeralChar p = true).
        { cbn [tame] in Hw. apply andb_prop in Hw as [Hp _]. exact Hp. }
        cbn [app]. rewrite (quantified_none _ _ _ (quantifierPrefix_numeral p _ Hp)).
        destruct (IH (p :: w'') (S f)) as [ts' E]; [cbn [List.length] in *; lia|exact Hw|
                                                    cbn [List.length] in *; lia|].
        cbn [app] in E. rewrite E. eexists. reflexivity.
Qed.

Lemma tame_chars w : tame w = true ->
  forall c, In c w -> numeralChar c = true \/ c = "+"%char.
Proof.
  assert (H : forall n w, List.length w <= n -> tame w = true ->
                          forall c, In c w -> numeralChar c = true \/ c = "+"%char).
  { induction n as [|n IH]; intros [|a w'] Hn Hw c Hin; try contradiction;
      cbn [List.length] in Hn; [lia|].
    cbn [tame] in Hw. apply andb_prop in Hw as [Ha Hw].
    destruct Hin as [<-|Hin]; [left; exact Ha|].
    destruct w' as [|p w'']; [contradiction|].
    destruct (Ascii.eqb p "+") eqn:Ep.
    - apply Ascii.eqb_eq in Ep. subst p. apply andb_prop in Hw as [_ Hw].
      destruct Hin as [<-|Hin]; [right; reflexivity|].
      apply (IH w''); [cbn [List.length] in Hn; lia|exact Hw|exact Hin].
    - apply (IH (p :: w'')); [lia|exact Hw|exact Hin]. }
  intros Hw. apply (H (List.length w) w); [lia|exact Hw].
Qed.

Lemma digitsValue_rest s : forall acc, snd (digitsValue acc s) = dropRun isDigit s.
Proof.
  induction s as [|c s IH]; intros acc; cbn [digitsValue dropRun]; [reflexivity|].
  destruct (isDigit c); [apply IH|reflexivity].
Qed.

Lemma dropRun_app_stop p w t :
  forallb p w = false ->
  exists c r, dropRun p w = c :: r /\ p c = false /\ In c w
              /\ dropRun p (w ++ t) = c :: r ++ t.
Proof.
  induction w as [|a w IH]; cbn [forallb dropRun app]; [discriminate|].
  destruct (p a) eqn:Ea.
  - cbn [andb]. intros H. destruct (IH H) as (c & r & E & Hc & Hin & Et).
    exists c, r. repeat split; auto. right. exact Hin.
  - intros _. exists a, w. repeat split; auto. left. reflexivity.
Qed.

(** Where the threshold is not a plain numeral the brace opens no
    quantifier. *)
Lemma parseBraces_none w t :
  tame w = true -> allDigits w && negb (List.length w =? 0)%nat = false ->
  parseBraces (w ++ ","%char :: t) = None.
Proof.
  intros Hw Hd. unfold parseBraces, parseDecimal.
  destruct w as [|c w']; [reflexivity|].
  cbn [app]. destruct (isDigit c) eqn:Ec; [|reflexivity].
  cbn [List.length Nat.eqb negb] in Hd. rewrite andb_true_r in Hd.
  destruct (dropRun_app_stop isDigit (c :: w') (","%char :: t) Hd)
    as (c1 & r & E & Hc1 & Hin & Et).
  pose proof (digitsValue_rest ((c :: w') ++ ","%char :: t) 0) as R.
  cbn [app] in R, Et. rewrite Et in R.
  destruct (digitsValue 0 (c :: w' ++ ","%char :: t)) as [v s1]. cbn [snd] in R. subst s1.
  unfold isC.
  assert (N1 : Ascii.eqb c1 "}" = false /\ Ascii.eqb c1 "," = false).
  { destruct (tame_chars _ Hw c1 Hin) as [H | ->]; [|split; reflexivity].
    split; apply numeralChar_differs; auto. }
  destruct N1 as [-> ->]. reflexivity.
Qed.

Lemma digitsValue_app w : forall acc t,
  allDigits w = true ->
  match t with c :: _ => isDigit c = false | [] => True end ->
  digitsValue acc (w ++ t) = (fst (digitsValue acc w), t).
Proof.
  induction w as [|c w IH]; intros acc t Hw Ht; cbn [app].
  - destruct t as [|c t]; [reflexivity|]. cbn [digitsValue]. rewrite Ht. reflexivity.
  - cbn [allDigits forallb] in Hw. apply andb_prop in Hw as [Hc Hw].
    cbn [digitsValue]. rewrite Hc. apply IH; assumption.
Qed.

Lemma parseBraces_digits w t :
  allDigits w = true -> w <> [] ->
  parseBraces (w ++ ","%char :: "}"%char :: t) = Some (numeralValue w, None, t).
Proof.
  intros Hw Hne. unfold parseBraces, parseDecimal.
  destruct w as [|c w'] eqn:E; [contradiction|]. rewrite <- E in *.
  assert (Hc : isDigit c = true).
  { rewrite E in Hw. cbn [allDigits forallb] in Hw. apply andb_prop in Hw as [Hc _]. exact Hc. }
  replace (match w ++ ","%char :: "}"%char :: t with
           | [] => None
           | c0 :: _ => if isDigit c0 then Some (digitsValue 0 (w ++ ","%char :: "}"%char :: t)) else None
           end) with (Some (digitsValue 0 (w ++ ","%char :: "}"%char :: t)))
    by (rewrite E; cbn [app]; rewrite Hc; reflexivity).
  rewrite digitsValue_app by (try exact Hw; reflexivity). reflexivity.
Qed.

Lemma numeralValue_decimalNat n : numeralValue (decimalNat n) = n.
Proof.
  unfold numeralValue, decimalNat.
  pose proof (digitsValue_uint (Nat.to_uint n) 0 [] I) as H. rewrite app_nil_r in H.
  rewrite H. cbn [fst]. apply Unsigned.of_to.
Qed.

Lemma quantified_digits next atom w tail :
  allDigits w = true -> w <> [] ->
  match tail with c :: _ => isC c "?" = false | [] => True end ->
  quantified next atom ("{"%char :: w ++ ","%char :: "}"%char :: tail)
  = Good (Rep atom (numeralValue w) None true, next, tail).
Proof.
  intros Hw Hne Ht. unfold quantified, applyQuantifier, quantifierPrefix.
  change (isC "{" "*") with false. change (isC "{" "+") with false.
  change (isC "{" "?") with false. change (isC "{" "{") with true. cbv iota.
  rewrite parseBraces_digits by assumption. destruct tail as [|c tail]; [reflexivity|].
  rewrite Ht. reflexivity.
Qed.

(** The pattern for a threshold written in digits. *)
Lemma parse_fold_digits w total fuel :
  allDigits w = true -> w <> [] -> 8 <= fuel ->
  parseDisjunction fuel total 1 ("\.0{" ++ w ++ ",}[1-9][0-9]*$")
  = Good (foldPattern (numeralValue w), 1, []).
Proof.
  intros Hw Hne Hf.
  do 8 (destruct fuel as [|fuel]; [lia|]). clear Hf.
  rewrite parseDisjunction_S.
  cbn [list_ascii_of_string app].
  rewrite parseAlternative_S. change (isC "\" "|" || isC "\" ")") with false. cbv iota.
  rewrite parseTerm_escaped_point.
  change (quantified 1 (Chr ".") ?s) with (@Good (Regex * nat * jsString) (Chr ".", 1, s)).
  cbv iota beta.
  rewrite parseAlternative_S. change (isC "0" "|" || isC "0" ")") with false. cbv iota.
  rewrite parseTerm_zero.
  rewrite (quantified_digits 1 (Chr "0") w) by (try assumption; reflexivity).
  cbv iota beta.
  pose proof (parse_fold_tail (S fuel) total 1) as H. cbn [list_ascii_of_string] in H.
  rewrite H. reflexivity.
Qed.

Lemma parseTerm_brace f total next t :
  parseBraces t = None ->
  parseTerm (S f) total next ("{"%char :: t) = quantified next (Chr "{") t.
Proof.
  intros H. cbn [parseTerm].
  change (isC "{" "$") with false. change (isC "{" "^") with false.
  change (isC "{" "(") with false. change (isC "{" "\") with false.
  change (isC "{" "[") with false. change (isC "{" ".") with false.
  change (isC "{" "*" || isC "{" "+" || isC "{" "?") with false.
  change (isC "{" ")" || isC "{" "|") with false.
  change (isC "{" "{") with true. cbv iota. rewrite H. reflexivity.
Qed.

Lemma parse_literal_tail f total next :
  parseAlternative (S (S (S (S (S (S f)))))) total next ",}[1-9][0-9]*$"
  = Good ([Chr ","; Chr "}"; nonZeroDigit; Rep digit 0 None true; EndAnchor], next, []).
Proof. reflexivity. Qed.

(** The pattern for any other tame threshold text: the brace is an
    ordinary character. *)
Lemma parse_fold_literal w total fuel :
  tame w = true -> allDigits w && negb (List.length w =? 0)%nat = false ->
  List.length w + 12 <= fuel ->
  exists r, parseDisjunction fuel total 1 ("\.0{" ++ w ++ ",}[1-9][0-9]*$") = Good (r, 1, []).
Proof.
  intros Hw Hd Hf.
  do 5 (destruct fuel as [|fuel]; [lia|]).
  rewrite parseDisjunction_S.
  cbn [list_ascii_of_string app].
  rewrite parseAlternative_S. change (isC "\" "|" || isC "\" ")") with false. cbv iota.
  rewrite parseTerm_escaped_point.
  change (quantified 1 (Chr ".") ?s) with (@Good (Regex * nat * jsString) (Chr ".", 1, s)).
  cbv iota beta.
  rewrite parseAlternative_S. change (isC "0" "|" || isC "0" ")") with false. cbv iota.
  rewrite parseTerm_zero.
  pose proof (parseBraces_none w
    ["}"%char; "["%char; "1"%char; "-"%char; "9"%char; "]"%char; "["%char; "0"%char;
     "-"%char; "9"%char; "]"%char; "*"%char; "$"%char] Hw Hd) as Hb.
  rewrite quantified_none by (unfold quantifierPrefix; exact Hb).
  cbv iota beta.
  rewrite parseAlternative_S. change (isC "{" "|" || isC "{" ")") with false. cbv iota.
  rewrite parseTerm_brace by exact Hb.
  assert (Hq : quantifierPrefix (w ++ list_ascii_of_string ",}[1-9][0-9]*$") = None).
  { destruct w as [|c w']; [reflexivity|]. cbn [app].
    apply quantifierPrefix_numeral. cbn [tame] in Hw.
    apply andb_prop in Hw as [Hc _]. exact Hc. }
  cbn [list_ascii_of_string] in Hq.
  rewrite quantified_none by exact Hq. cbv iota beta.
  destruct (parse_tame total 1 (list_ascii_of_string ",}[1-9][0-9]*$")
              [Chr ","; Chr "}"; nonZeroDigit; Rep digit 0 None true; EndAnchor] 6)
    with (n := List.length w) (w := w) (fuel := S fuel) as [ts E].
  - intros f Hk. do 6 (destruct f as [|f]; [lia|]). apply parse_literal_tail.
  - lia.
  - reflexivity.
  - lia.
  - exact Hw.
  - lia.
  - cbn [list_ascii_of_string] in E. rewrite E. eexists. reflexivity.
Qed.

(** [new RegExp] accepts the pattern of every tame threshold text. *)
Lemma newRegExp_tame w :
  tame w = true -> returns (newRegExp ("\.0{" ++ w ++ ",}[1-9][0-9]*$")).
Proof.
  intros Hw. unfold newRegExp, parsePattern.
  assert (Hf : List.length w + 12 <= parseFuel ("\.0{" ++ w ++ ",}[1-9][0-9]*$")).
  { unfold parseFuel. cbn [list_ascii_of_string app List.length].
    rewrite length_app. cbn [List.length]. lia. }
  destruct (allDigits w && negb (List.length w =? 0)%nat) eqn:Hd.
  - apply andb_prop in Hd as [Ha Hn].
    assert (Hne : w <> []) by (destruct w; [discriminate|discriminate]).
    rewrite parse_fold_digits by (try assumption; lia). eexists. reflexivity.
  - destruct (parse_fold_literal w (countGroups false ("\.0{" ++ w ++ ",}[1-9][0-9]*$")) _
                Hw Hd Hf) as [r E].
    rewrite E. eexists. reflexivity.
Qed.

(** *** The shape of Number::toString *)

Lemma plain_app a b : plain (a ++ b) = plain a && plain b.
Proof. apply forallb_app. Qed.

Lemma allDigits_plain s : allDigits s = true -> plain s = true.
Proof.
  unfold allDigits, plain. induction s as [|c s IH]; cbn [forallb]; [reflexivity|].
  intros H. apply andb_prop in H as [Hc H]. rewrite (IH H), andb_true_r.
  unfold numeralChar. rewrite Hc. reflexivity.
Qed.

Lemma forallb_firstn (p : ascii -> bool) n s :
  forallb p s = true -> forallb p (firstn n s) = true.
Proof.
  revert n. induction s as [|c s IH]; intros [|n]; cbn [firstn forallb]; auto.
  intros H. apply andb_prop in H as [-> H]. cbn [andb]. apply IH, H.
Qed.

Lemma forallb_skipn (p : ascii -> bool) n s :
  forallb p s = true -> forallb p (skipn n s) = true.
Proof.
  revert n. induction s as [|c s IH]; intros [|n]; cbn [skipn forallb]; auto.
  intros H. apply andb_prop in H as [_ H]. apply IH, H.
Qed.

Lemma plain_zeros n : plain (zeros n) = true.
Proof. unfold zeros. induction n as [|n IH]; cbn [repeat plain forallb]; auto. Qed.

Lemma tame_cons c w : numeralChar c = true -> tame w = true -> tame (c :: w) = true.
Proof.
  intros Hc Hw. cbn [tame]. rewrite Hc. cbn [andb].
  destruct w as [|p w']; [reflexivity|].
  cbn [tame] in Hw. apply andb_prop in Hw as [Hp Hw'].
  rewrite (numeralChar_differs p "+" Hp eq_refl). cbn [tame]. rewrite Hp. exact Hw'.
Qed.

Lemma plain_tame s : plain s = true -> tame s = true.
Proof.
  unfold plain. induction s as [|c s IH]; cbn [forallb]; [reflexivity|].
  intros H. apply andb_prop in H as [Hc H]. apply tame_cons; auto.
Qed.

(** A plain text, [+], a plain text: the shape of an exponent. *)
Lemma tame_plus a b :
  plain a = true -> a <> [] -> plain b = true -> b <> [] ->
  tame (a ++ "+"%char :: b) = true.
Proof.
  intros Ha Hna Hb Hnb. induction a as [|c a IH]; [contradiction|].
  unfold plain in Ha. cbn [forallb] in Ha. apply andb_prop in Ha as [Hc Ha].
  destruct a as [|c' a'].
  - cbn [app tame]. rewrite Hc. change (Ascii.eqb "+" "+") with true. cbv iota. cbn [andb].
    destruct b as [|d b']; [contradiction|].
    pose proof Hb as Hb'. unfold plain in Hb'. cbn [forallb] in Hb'.
    apply andb_prop in Hb' as [Hd _]. rewrite Hd. apply plain_tame, Hb.
  - apply tame_cons; [exact Hc|]. apply IH; [exact Ha|discriminate].
Qed.

Lemma decimal_allDigits n : allDigits (decimal n) = true.
Proof. apply uintChars_allDigits. Qed.

Lemma NumberToString_tame x : tame (NumberToString x) = true.
Proof.
  destruct x as [s|s| |neg m e]; try (destruct s; reflexivity); [reflexivity|].
  unfold NumberToString. destruct (shortest m e) as [[s n] k].
  pose proof (decimal_allDigits (Z.to_N s)) as Hd.
  pose proof (decimal_nonempty (Z.to_N s)) as Hne.
  pose proof (allDigits_plain _ Hd) as Hp.
  remember (decimal (Z.to_N s)) as ds eqn:Eds. clear Eds.
  assert (Sign : forall body, tame body = true -> tame (signChars neg ++ body) = true).
  { intros body Hb. destruct neg; [|exact Hb]. apply (tame_cons "-"); auto. }
  apply Sign.
  destruct ((k <=? n)%Z && (n <=? 21)%Z).
  { apply plain_tame. rewrite plain_app, Hp, plain_zeros. reflexivity. }
  destruct ((0 <? n)%Z && (n <=? 21)%Z).
  { apply plain_tame. rewrite !plain_app. unfold plain.
    rewrite forallb_firstn, forallb_skipn by exact Hp. reflexivity. }
  destruct ((-6 <? n)%Z && (n <=? 0)%Z).
  { apply plain_tame. rewrite !plain_app, Hp, plain_zeros. reflexivity. }
  pose proof (allDigits_plain _ (decimal_allDigits (Z.to_N (Z.abs (n - 1))))) as Hex.
  pose proof (decimal_nonempty (Z.to_N (Z.abs (n - 1)))) as Hexne.
  remember (decimal (Z.to_N (Z.abs (n - 1)))) as ex eqn:Eex. clear Eex.
  assert (Exp : forall pre, plain pre = true ->
            tame (pre ++ "e" ++ (if (n - 1 <? 0)%Z then "-" else "+") ++ ex) = true).
  { intros pre Hpre. destruct (n - 1 <? 0)%Z.
    - apply plain_tame. rewrite !plain_app, Hpre, Hex. reflexivity.
    - change (pre ++ "e" ++ "+" ++ ex) with (pre ++ "e"%char :: "+"%char :: ex).
      replace (pre ++ "e"%char :: "+"%char :: ex) with ((pre ++ ["e"%char]) ++ "+"%char :: ex)
        by (rewrite <- app_assoc; reflexivity).
      apply tame_plus; auto.
      + rewrite plain_app, Hpre. reflexivity.
      + destruct pre; discriminate. }
  destruct (k =? 1)%Z.
  - apply Exp, Hp.
  - rewrite !app_assoc. rewrite <- !app_assoc.
    replace (firstn 1 ds ++ "." ++ skipn 1 ds ++ "e" ++
             (if (n - 1 <? 0)%Z then "-" else "+") ++ ex)
      with ((firstn 1 ds ++ "." ++ skipn 1 ds) ++ "e" ++
             (if (n - 1 <? 0)%Z then "-" else "+") ++ ex)
      by (rewrite <- !app_assoc; reflexivity).
    apply Exp. rewrite !plain_app. unfold plain.
    rewrite forallb_firstn, forallb_skipn by exact Hp. reflexivity.
Qed.

(** ** formatFoldDecimal returns *)

Lemma formatFoldDecimal_returns value threshold format :
  returns (formatFoldDecimal value threshold format).
Proof.
  unfold formatFoldDecimal.
  destruct (newRegExp_tame _ (NumberToString_tame threshold)) as [reg ->].
  cbn [bind]. destruct (test reg (toStr value)); [|eexists; reflexivity].
  destruct (exec reZeros _); eexists; reflexivity.
Qed.


(** ** The two policies of formatFoldDecimal *)

Lemma formatFoldDecimal_short value threshold t format :
  NumberToString threshold = decimalNat t -> shortRun t (toStr value) ->
  formatFoldDecimal value threshold format = Ok (toStr value).
Proof.
  intros Ht Hs. rewrite (formatFoldDecimal_natural value threshold t format Ht).
  unfold shortRun in Hs. destruct (lastPoint (toStr value)) as [[int frac]|]; [|reflexivity].
  unfold foldableFraction.
  replace (t <=? List.length (takeRun isZero frac))%nat with false
    by (symmetry; apply Nat.leb_gt; exact Hs).
  reflexivity.
Qed.

(** Claim C2.  With threshold 4, the text [0.0000000123] is folded to
    [0.0{7}123] by [formatFoldDecimalForCurlyBracket] and to [0.0₇123] by
    [formatFoldDecimalForSubscript]: one zero is kept before the count.
    The number 0.0000000123 prints as [1.23e-8], which has no decimal
    point followed by zeros, so both policies return [1.23e-8].  And for
    every value whose run of zeros after the last decimal point is shorter
    than a natural threshold, both policies return the text of the value
    unchanged. *)
Theorem foldDecimal_policies :
  formatFoldDecimalForCurlyBracket (Str "0.0000000123") (ofZ 4)
    = Ok (list_ascii_of_string "0.0{7}123")
  /\ formatFoldDecimalForSubscript (Str "0.0000000123") (ofZ 4)
    = Ok (list_ascii_of_string "0.0₇123")
  /\ toStr (Nbr (num "0.0000000123")) = "1.23e-8"
  /\ formatFoldDecimalForCurlyBracket (Nbr (num "0.0000000123")) (ofZ 4)
    = Ok (list_ascii_of_string "1.23e-8")
  /\ formatFoldDecimalForSubscript (Nbr (num "0.0000000123")) (ofZ 4)
    = Ok (list_ascii_of_string "1.23e-8")
  /\ (forall value threshold t,
        NumberToString threshold = decimalNat t -> shortRun t (toStr value) ->
        formatFoldDecimalForCurlyBracket value threshold = Ok (toStr value)
        /\ formatFoldDecimalForSubscript value threshold = Ok (toStr value)).
Proof.
  do 5 (split; [vm_compute; reflexivity|]).
  intros value threshold t Ht Hs.
  split; apply (formatFoldDecimal_short value threshold t); assumption.
Qed.

(** Two zeros after the decimal point, threshold 4. *)
Lemma foldDecimal_policies_witness :
  formatFoldDecimalForCurlyBracket (Nbr (num "0.00123")) (ofZ 4)
    = Ok (list_ascii_of_string "0.00123")
  /\ formatFoldDecimalForSubscript (Nbr (num "0.00123")) (ofZ 4)
    = Ok (list_ascii_of_string "0.00123").
Proof.
  apply (proj2 (proj2 (proj2 (proj2 (proj2 foldDecimal_policies))))
           (Nbr (num "0.00123")) (ofZ 4) 4).
  - reflexivity.
  - vm_compute. lia.
Defined.

(** The outputs on the number and on its decimal text are not the ones with
    the count right after the decimal point. *)
Lemma foldDecimal_number_literal :
  formatFoldDecimalForCurlyBracket (Nbr (num "0.0000000123")) (ofZ 4)
    = Ok (list_ascii_of_string "1.23e-8")
  /\ formatFoldDecimalForSubscript (Nbr (num "0.0000000123")) (ofZ 4)
    = Ok (list_ascii_of_string "1.23e-8")
  /\ formatFoldDecimalForCurlyBracket (Str "0.0000000123") (ofZ 4)
    <> Ok (list_ascii_of_string "0.{7}123")
  /\ formatFoldDecimalForSubscript (Str "0.0000000123") (ofZ 4)
    <> Ok (list_ascii_of_string "0.₇123").
Proof. repeat split; vm_compute; (reflexivity || discriminate). Qed.

(** ** Every operation returns *)

Lemma formatDateToDateTime_returns fmt timestamp :
  returns (formatDateToDateTime fmt timestamp) <->
  returns (formatToParts fmt (newDate timestamp)).
Proof.
  unfold formatDateToDateTime.
  destruct (formatToParts fmt (newDate timestamp)) as [parts|e]; cbn [bind].
  - split; intros _; eexists; reflexivity.
  - split; intros [a H]; discriminate.
Qed.

Lemma formatDateToString_returns fmt timestamp template :
  returns (formatDateToString fmt timestamp template) <->
  returns (formatToParts fmt (newDate timestamp)).
Proof.
  rewrite <- formatDateToDateTime_returns. unfold formatDateToString.
  destruct (formatDateToDateTime fmt timestamp) as [date|e]; cbn [bind].
  - split; intros _; eexists; reflexivity.
  - split; intros [a H]; discriminate.
Qed.

Lemma formatPrecision_returns value precision :
  returns (formatPrecision value precision) <->
  isFinite (toNumber value) = false \/
  returns (GetNumberOption (precisionOr2 precision) 0 100).
Proof.
  rewrite formatPrecision_branches.
  destruct (isFinite (toNumber value)).
  - unfold toLocaleString_idID.
    destruct (GetNumberOption (precisionOr2 precision) 0 100) as [digits|e]; cbn [bind].
    + rewrite Nat.ltb_irrefl. split; [intros _; right|intros _]; eexists; reflexivity.
    + split; [intros [a H]; discriminate|intros [H|[a H]]; discriminate].
  - split; [intros _; left; reflexivity|intros _; eexists; reflexivity].
Qed.

(** Claim C3.  [formatValue], [formatFoldDecimal] and its two policies
    return for every input; in particular the pattern built from the
    threshold is accepted for every number.  [formatDateToDateTime] and
    [formatDateToString] return exactly when the formatter they are given
    returns for the date.  [formatPrecision] returns exactly when the value
    does not coerce to a finite number or the precision is absent or a
    number from 0 to 100.  ([formatBigNumber] and [formatThousands] call
    nothing that can raise and are functions to strings.) *)
Theorem operations_return :
  (forall data key defaultValue, returns (formatValue data key defaultValue))
  /\ (forall fmt timestamp,
        returns (formatDateToDateTime fmt timestamp) <->
        returns (formatToParts fmt (newDate timestamp)))
  /\ (forall fmt timestamp template,
        returns (formatDateToString fmt timestamp template) <->
        returns (formatToParts fmt (newDate timestamp)))
  /\ (forall value precision,
        returns (formatPrecision value precision) <->
        isFinite (toNumber value) = false \/
        returns (GetNumberOption (precisionOr2 precision) 0 100))
  /\ (forall value threshold renderCount,
        returns (formatFoldDecimal value threshold renderCount))
  /\ (forall value threshold, returns (formatFoldDecimalForCurlyBracket value threshold))
  /\ (forall value threshold, returns (formatFoldDecimalForSubscript value threshold)).
Proof.
  split; [exact formatValue_returns|].
  split; [exact formatDateToDateTime_returns|].
  split; [exact formatDateToString_returns|].
  split; [exact formatPrecision_returns|].
  split; [exact formatFoldDecimal_returns|].
  split; intros value threshold; apply formatFoldDecimal_returns.
Qed.

(** A valid date and the largest precision accepted. *)
Lemma operations_return_witness :
  returns (formatDateToDateTime (strictFormat midnight) (ofZ 1709164800000))
  /\ returns (formatDateToString (strictFormat midnight) (ofZ 1709164800000) "HH:mm")
  /\ returns (formatPrecision (Str "12") (Some (ofZ 100))).
Proof.
  split; [|split].
  - apply (proj1 (proj2 operations_return)). eexists. reflexivity.
  - apply (proj1 (proj2 (proj2 operations_return))). eexists. reflexivity.
  - apply (proj1 (proj2 (proj2 (proj2 operations_return)))). right. eexists. reflexivity.
Defined.

(** A negative precision, and an invalid date given to a formatter that
    refuses it. *)
Lemma operations_raise :
  formatPrecision (Nbr (ofZ 1)) (Some (ofZ (-1))) = Throw RangeError
  /\ formatDateToDateTime (strictFormat midnight) NaN = Throw RangeError
  /\ formatDateToString (strictFormat midnight) NaN "YYYY" = Throw RangeError.
Proof. repeat split. Qed.

(** The parts of 29 February 2024 with the hour given as 24. *)
Lemma formatDateToString_substitutes_witness :
  formatDateToString (strictFormat midnight) (ofZ 1709164800000) "YYYY-MM-DD HH:mm:ss"
  = Ok (list_ascii_of_string "2024-02-29 00:05:09").
Proof.
  rewrite (formatDateToString_substitutes (strictFormat midnight) (ofZ 1709164800000)
             "YYYY-MM-DD HH:mm:ss" midnight "2024" "02" "29" "24" "05" "09");
    reflexivity.
Defined.


(** ** The patterns as they are written *)

(** Each pattern of the module is what its text parses to. *)
Lemma reEscapeChar_parsed : parsePattern reEscapeChar_source = Good reEscapeChar.
Proof. vm_compute. reflexivity. Qed.

Lemma rePropName_parsed : parsePattern rePropName_source = Good rePropName.
Proof. vm_compute. reflexivity. Qed.

Lemma reDateToken_parsed : parsePattern reDateToken_source = Good reDateToken.
Proof. vm_compute. reflexivity. Qed.

Lemma reThousands_parsed : parsePattern reThousands_source = Good reThousands.
Proof. vm_compute. reflexivity. Qed.

Lemma reZeros_parsed : parsePattern reZeros_source = Good reZeros.
Proof. vm_compute. reflexivity. Qed.

Lemma reDigit_parsed : parsePattern reDigit_source = Good reDigit.
Proof. vm_compute. reflexivity. Qed.

(** ** The matcher never runs out of fuel *)

Lemma stripPrefix_length w s r : stripPrefix w s = Some r -> List.length r <= List.length s.
Proof.
  intros H. rewrite (stripPrefix_some _ _ _ H), length_app. lia.
Qed.

Lemma charMatcher_local p : local (charMatcher p).
Proof.
  intros x c c' H. unfold charMatcher. destruct (rest x) as [|ch s] eqn:E; [reflexivity|].
  destruct (p ch); [|reflexivity]. apply H. cbn [rest List.length]. lia.
Qed.

Lemma rest_clearCaps gs x : rest (clearCaps gs x) = rest x.
Proof. reflexivity. Qed.

Lemma repeatMatcher_local m :
  local m -> forall fuel min max greedy gs, local (repeatMatcher fuel m min max greedy gs).
Proof.
  intros L. induction fuel as [|fuel IH]; intros min max greedy gs x c c' H; [reflexivity|].
  cbn [repeatMatcher].
  assert (Hx : c x = c' x) by (apply H; lia).
  set (d := fun y : State =>
              if (min =? 0)%nat && (List.length (rest y) =? List.length (rest x))%nat
              then None
              else repeatMatcher fuel m (pred min) (option_map pred max) greedy gs y c).
  set (d' := fun y : State =>
              if (min =? 0)%nat && (List.length (rest y) =? List.length (rest x))%nat
              then None
              else repeatMatcher fuel m (pred min) (option_map pred max) greedy gs y c').
  assert (D : m (clearCaps gs x) d = m (clearCaps gs x) d').
  { apply L. intros y Hy. rewrite rest_clearCaps in Hy. unfold d, d'.
    destruct ((min =? 0)%nat && _); [reflexivity|].
    apply IH. intros y' Hy'. apply H. lia. }
  rewrite D, Hx. reflexivity.
Qed.

Lemma compile_local r : local (compile r).
Proof.
  induction r as [|ch|neg ranges| |r1 IH1 r2 IH2|r1 IH1 r2 IH2|r IH min max greedy
                 |i r IH|r IH|i|r IH|r IH|];
    cbn [compile]; try apply charMatcher_local; intros x k k' H.
  - apply H. lia.
  - apply IH1. intros y Hy. apply IH2. intros y' Hy'. apply H. lia.
  - rewrite (IH1 x k k' H), (IH2 x k k' H). reflexivity.
  - apply repeatMatcher_local; assumption.
  - apply IH. intros y Hy. apply H. exact Hy.
  - apply IH, H.
  - destruct (getCap i (caps x)); [|apply H; lia].
    destruct (stripPrefix _ _) eqn:E; [|reflexivity].
    apply H. cbn [rest]. exact (stripPrefix_length _ _ _ E).
  - destruct (compile r x Some); [|reflexivity]. apply H. cbn [rest]. lia.
  - destruct (compile r x Some); [reflexivity|]. apply H. lia.
  - destruct (rest x) eqn:E; [|reflexivity]. apply H. rewrite E. apply Nat.le_refl.
Qed.

(** Two amounts of fuel above the bound give the same run. *)
Lemma repeatMatcher_fuel m :
  local m ->
  forall f1 f2 min max greedy gs x c,
    min + List.length (rest x) < f1 -> min + List.length (rest x) < f2 ->
    repeatMatcher f1 m min max greedy gs x c = repeatMatcher f2 m min max greedy gs x c.
Proof.
  intros L. induction f1 as [|f1 IH]; intros f2 min max greedy gs x c H1 H2; [lia|].
  destruct f2 as [|f2]; [lia|]. cbn [repeatMatcher].
  set (d1 := fun y : State =>
              if (min =? 0)%nat && (List.length (rest y) =? List.length (rest x))%nat
              then None
              else repeatMatcher f1 m (pred min) (option_map pred max) greedy gs y c).
  set (d2 := fun y : State =>
              if (min =? 0)%nat && (List.length (rest y) =? List.length (rest x))%nat
              then None
              else repeatMatcher f2 m (pred min) (option_map pred max) greedy gs y c).
  assert (D : m (clearCaps gs x) d1 = m (clearCaps gs x) d2).
  { apply L. intros y Hy. rewrite rest_clearCaps in Hy. unfold d1, d2.
    destruct (min =? 0)%nat eqn:Em;
      destruct (List.length (rest y) =? List.length (rest x))%nat eqn:Ey;
      cbn [andb]; try reflexivity.
    - apply Nat.eqb_eq in Em. apply Nat.eqb_neq in Ey. apply IH; lia.
    - apply Nat.eqb_neq in Em. apply IH; lia.
    - apply Nat.eqb_neq in Em. apply IH; lia. }
  rewrite D. reflexivity.
Qed.

(** The quantifier of a pattern computes the same with any fuel from
    [repeatFuel] on: the bound is never what stops it. *)
Theorem repeat_fuel_enough r min max greedy x c fuel :
  repeatFuel min x <= fuel ->
  repeatMatcher fuel (compile r) min max greedy (groupsOf r) x c
  = compile (Rep r min max greedy) x c.
Proof.
  intros H. cbn [compile]. unfold repeatFuel in *.
  apply repeatMatcher_fuel; [apply compile_local|lia|lia].
Qed.

(** ** A match is a piece of the text *)

Lemma repeatMatcher_advances m :
  advances m -> forall fuel min max greedy gs, advances (repeatMatcher fuel m min max greedy gs).
Proof.
  intros A. induction fuel as [|fuel IH]; intros min max greedy gs x c z Hm; [discriminate|].
  cbn [repeatMatcher] in Hm.
  set (d := fun y : State =>
              if (min =? 0)%nat && (List.length (rest y) =? List.length (rest x))%nat
              then None
              else repeatMatcher fuel m (pred min) (option_map pred max) greedy gs y c) in Hm.
  assert (Done : c x = Some z -> exists y w, rest x = w ++ rest y /\ c y = Some z)
    by (intros H; exists x, []; auto).
  assert (D : m (clearCaps gs x) d = Some z ->
              exists y w, rest x = w ++ rest y /\ c y = Some z).
  { intros Hd. destruct (A _ _ _ Hd) as (y & w & Hw & Hc). unfold d in Hc.
    destruct ((min =? 0)%nat && _); [discriminate|].
    destruct (IH _ _ _ _ _ _ _ Hc) as (y' & w' & Hw' & Hc').
    exists y', (w ++ w'). split; [|exact Hc'].
    rewrite rest_clearCaps in Hw. rewrite Hw, Hw', app_assoc. reflexivity. }
  assert (Both : forall a b : option State,
            (a = Some z -> exists y w, rest x = w ++ rest y /\ c y = Some z) ->
            (b = Some z -> exists y w, rest x = w ++ rest y /\ c y = Some z) ->
            orElse a b = Some z -> exists y w, rest x = w ++ rest y /\ c y = Some z).
  { intros [a|] b Ha Hb; cbn [orElse]; auto. }
  destruct max as [[|k]|]; [auto| |];
    (destruct (negb (min =? 0)%nat); [auto|]);
    (destruct greedy; [apply (Both _ _ D Done Hm)|apply (Both _ _ Done D Hm)]).
Qed.

Lemma charMatcher_advances p : advances (charMatcher p).
Proof.
  intros x c z Hm. unfold charMatcher in Hm. destruct (rest x) as [|ch s] eqn:E; [discriminate|].
  destruct (p ch); [|discriminate]. eexists. exists [ch]. split; [|exact Hm]. reflexivity.
Qed.

Lemma compile_advances r : advances (compile r).
Proof.
  induction r as [|ch|neg ranges| |r1 IH1 r2 IH2|r1 IH1 r2 IH2|r IH min max greedy
                 |i r IH|r IH|i|r IH|r IH|];
    cbn [compile]; try apply charMatcher_advances; intros x k z Hm.
  - exists x, []. auto.
  - destruct (IH1 _ _ _ Hm) as (y1 & w1 & H1 & Hc1).
    destruct (IH2 _ _ _ Hc1) as (y2 & w2 & H2 & Hc2).
    exists y2, (w1 ++ w2). split; [|exact Hc2]. rewrite H1, H2, app_assoc. reflexivity.
  - unfold orElse in Hm. destruct (compile r1 x k) as [z1|] eqn:H1.
    + rewrite Hm in H1. exact (IH1 _ _ _ H1).
    + exact (IH2 _ _ _ Hm).
  - exact (repeatMatcher_advances _ IH _ _ _ _ _ _ _ _ Hm).
  - destruct (IH _ _ _ Hm) as (y & w & Hw & Hc).
    eexists. exists w. split; [|exact Hc]. exact Hw.
  - exact (IH _ _ _ Hm).
  - destruct (getCap i (caps x)); [|exists x, []; auto].
    destruct (stripPrefix _ _) eqn:E; [|discriminate].
    eexists. eexists. split; [|exact Hm]. cbn [rest]. exact (stripPrefix_some _ _ _ E).
  - destruct (compile r x Some) as [y|]; [|discriminate].
    eexists. exists []. split; [|exact Hm]. reflexivity.
  - destruct (compile r x Some); [discriminate|]. exists x, []. auto.
  - destruct (rest x) eqn:E; [|discriminate]. exists x, []. rewrite E. auto.
Qed.

Lemma matchAt_suffix r s y : matchAt r s = Some y -> exists w, s = w ++ rest y.
Proof.
  unfold matchAt. intros H.
  destruct (compile_advances r _ _ _ H) as (y' & w & Hw & [= <-]).
  exists w. exact Hw.
Qed.

Lemma firstn_suffix (t w r : jsString) :
  t = w ++ r -> firstn (List.length t - List.length r) t ++ r = t.
Proof.
  intros ->. rewrite length_app.
  replace (List.length w + List.length r - List.length r) with (List.length w) by lia.
  rewrite firstn_app, Nat.sub_diag, firstn_all. cbn [firstn]. rewrite app_nil_r.
  reflexivity.
Qed.

(** The text searched is the text before the match, the match and the
    text after it. *)
Theorem exec_splits r s m : exec r s = Some m -> s = before m ++ matched m ++ after m.
Proof.
  revert m. induction s as [|ch s IH]; intros m; rewrite exec_eq;
    destruct (matchAt _ _) as [y|] eqn:M.
  - intros [= <-]. destruct (matchAt_suffix _ _ _ M) as [w Hw].
    cbn [before matched after app]. symmetry. exact (firstn_suffix _ _ _ Hw).
  - discriminate.
  - intros [= <-]. destruct (matchAt_suffix _ _ _ M) as [w Hw].
    cbn [before matched after app]. symmetry. exact (firstn_suffix _ _ _ Hw).
  - destruct (exec r s) as [m'|]; [|discriminate]. intros [= <-].
    cbn [shift before matched after app]. rewrite <- (IH m' eq_refl). reflexivity.
Qed.

(** ** The replacement loop never runs out of fuel *)

Lemma replaceAllFuel_fuel r f :
  forall f1 f2 seen s,
    List.length s < f1 -> List.length s < f2 ->
    replaceAllFuel f1 r f seen s = replaceAllFuel f2 r f seen s.
Proof.
  induction f1 as [|f1 IH]; intros f2 seen s H1 H2; [lia|].
  destruct f2 as [|f2]; [lia|]. cbn [replaceAllFuel].
  destruct (exec r s) as [m|] eqn:E; [|reflexivity].
  pose proof (exec_splits _ _ _ E) as Hs. apply (f_equal (@List.length ascii)) in Hs.
  rewrite !length_app in Hs.
  destruct (matched m) as [|a w]; cbn [List.length] in Hs.
  - destruct (after m) as [|ch s']; [reflexivity|]. cbn [List.length] in Hs.
    do 3 f_equal. apply IH; lia.
  - do 2 f_equal. apply IH; lia.
Qed.

Lemma matchListFuel_fuel r :
  forall f1 f2 seen s,
    List.length s < f1 -> List.length s < f2 ->
    matchListFuel f1 r seen s = matchListFuel f2 r seen s.
Proof.
  induction f1 as [|f1 IH]; intros f2 seen s H1 H2; [lia|].
  destruct f2 as [|f2]; [lia|]. cbn [matchListFuel].
  destruct (exec r s) as [m|] eqn:E; [|reflexivity].
  pose proof (exec_splits _ _ _ E) as Hs. apply (f_equal (@List.length ascii)) in Hs.
  rewrite !length_app in Hs.
  destruct (matched m) as [|a w]; cbn [List.length] in Hs.
  - destruct (after m) as [|ch s']; [reflexivity|]. cbn [List.length] in Hs.
    f_equal. apply IH; lia.
  - f_equal. apply IH; lia.
Qed.

(** The loops of [replace] compute the same with any fuel above the length
    of the text. *)
Theorem replace_fuel_enough r f s fuel :
  List.length s < fuel ->
  replaceAllFuel fuel r f [] s = replaceAll r f s
  /\ matchListFuel fuel r [] s = matchList r s.
Proof.
  intros H. split.
  - apply replaceAllFuel_fuel; lia.
  - apply matchListFuel_fuel; lia.
Qed.


(** ** formatValue: what it can answer *)

(** Whatever the data, the key and the default, [formatValue] answers with
    a value that is neither [null] nor [undefined]: a value found is
    returned only if it is valid, and the default only if it is. *)
Theorem formatValue_never_nullish data key defaultValue :
  exists v, formatValue data key defaultValue = Ok v /\ isValid v = true.
Proof.
  assert (N : isValid (nullish defaultValue placeholder) = true)
    by (destruct defaultValue; reflexivity).
  unfold formatValue. destruct (isValid data).
  - destruct (stringToPath_returns key) as [path ->]. cbn [bind].
    destruct (walk_access path data) as (v & -> & _). cbn [bind].
    destruct (isValid v) eqn:Hv; eexists; (split; [reflexivity|]); assumption.
  - eexists. split; [reflexivity|exact N].
Qed.

(** ** The date components *)

(** Each field of the record [formatDateToDateTime] returns holds the value
    of the last part of its type, and is left unset when there is no such
    part; parts of other types are passed over; the hour is written [00]
    when the part says [24], so the field [HH] is never [24]. *)
Theorem formatDateToDateTime_fields fmt timestamp parts :
  formatToParts fmt (newDate timestamp) = Ok parts ->
  exists date,
    formatDateToDateTime fmt timestamp = Ok date
    /\ YYYY date = lastOf "year" parts
    /\ MM date = lastOf "month" parts
    /\ DD date = lastOf "day" parts
    /\ HH date = option_map normalHour (lastOf "hour" parts)
    /\ mm date = lastOf "minute" parts
    /\ ss date = lastOf "second" parts
    /\ HH date <> Some (list_ascii_of_string "24").
Proof.
  intros H. exists (componentsOf parts).
  split; [exact (formatDateToDateTime_components fmt timestamp parts H)|].
  repeat (split; [reflexivity|]).
  cbn [componentsOf HH]. destruct (lastOf "hour" parts) as [h|]; [|discriminate].
  cbn [option_map]. unfold normalHour. destruct (str_eqb h "24") eqn:E; [discriminate|].
  intros [= ->]. rewrite str_eqb_refl in E. discriminate.
Qed.

Lemma formatDateToDateTime_fields_witness :
  exists date,
    formatDateToDateTime (strictFormat clockParts) (ofZ 0) = Ok date
    /\ YYYY date = None
    /\ HH date = Some (list_ascii_of_string "00").
Proof.
  destruct (formatDateToDateTime_fields (strictFormat clockParts) (ofZ 0) clockParts
              eq_refl) as (date & H & Hy & _ & _ & Hh & _).
  exists date. split; [exact H|]. split; [rewrite Hy|rewrite Hh]; reflexivity.
Defined.

(** For every template and whatever parts the formatter gives,
    [formatDateToString] replaces each token by its component, and by the
    text [undefined] when the formatter gave no part of that type. *)
Theorem formatDateToString_missing_parts fmt timestamp template parts :
  formatToParts fmt (newDate timestamp) = Ok parts ->
  let component := fun tok : jsString =>
    if str_eqb tok "YYYY" then orUndefined (lastOf "year" parts)
    else if str_eqb tok "MM" then orUndefined (lastOf "month" parts)
    else if str_eqb tok "DD" then orUndefined (lastOf "day" parts)
    else if str_eqb tok "HH" then orUndefined (option_map normalHour (lastOf "hour" parts))
    else if str_eqb tok "mm" then orUndefined (lastOf "minute" parts)
    else orUndefined (lastOf "second" parts) in
  formatDateToString fmt timestamp template = Ok (substitute component 0 template).
Proof.
  intros Hp component. unfold formatDateToString.
  rewrite (formatDateToDateTime_components fmt timestamp parts Hp). cbn [bind].
  f_equal. unfold replaceAll.
  rewrite <- (replaceAll_reDateToken component (List.length template) template
                (S (List.length template)) []) by lia.
  assert (E : forall n s fuel seen, List.length s <= n ->
            replaceAllFuel fuel reDateToken
              (fun m => dateField (componentsOf parts) (matched m)) seen s
            = replaceAllFuel fuel reDateToken (fun m => component (matched m)) seen s).
  { induction n as [|n IH]; intros s fuel seen Hn.
    - destruct s; [|cbn in Hn; lia]. rewrite !replaceAll_done; reflexivity.
    - destruct s as [|c s]; [rewrite !replaceAll_done; reflexivity|].
      destruct fuel as [|fuel]; [reflexivity|]. cbn [List.length] in Hn.
      pose proof (matchAt_reDateToken (c :: s)) as M.
      destruct (tokenAt tokens (c :: s)) as [[tok r]|] eqn:T.
      + destruct (tokenAt_some _ _ _ _ T) as [Hs' Hin].
        assert (Htok : tok <> []) by (cbn in Hin; intuition (subst; discriminate)).
        rewrite !(replaceAll_here fuel reDateToken _ seen (c :: s) (mkState r []) tok M Hs' Htok).
        cbn [matched rest]. f_equal.
        * unfold dateField, componentsOf, component, orUndefined. cbn [YYYY MM DD HH mm ss].
          cbn in Hin.
          destruct Hin as [<-|[<-|[<-|[<-|[<-|[<-|[]]]]]]]; reflexivity.
        * apply IH.
          assert (L : List.length (c :: s) = List.length (tok ++ r)) by (rewrite Hs'; reflexivity).
          rewrite length_app in L. cbn [List.length] in L.
          destruct tok; [contradiction|]. cbn [List.length] in L. lia.
      + rewrite !replaceAll_skip by exact M. f_equal. apply IH. lia. }
  apply (E (List.length template)). lia.
Qed.

Lemma formatDateToString_missing_parts_witness :
  formatDateToString (strictFormat clockParts) (ofZ 0) "YYYY HH:mm"
  = Ok (list_ascii_of_string "undefined 00:30").
Proof.
  rewrite (formatDateToString_missing_parts (strictFormat clockParts) (ofZ 0)
             "YYYY HH:mm" clockParts); reflexivity.
Defined.

Lemma tokenAt_other c s : tokenLetter c = false -> tokenAt tokens (c :: s) = None.
Proof.
  unfold tokenLetter. intros H.
  repeat (apply orb_false_elim in H as [H ?]).
  unfold tokens. cbn [map list_ascii_of_string tokenAt stripPrefix].
  rewrite !(Ascii.eqb_sym _ c).
  repeat match goal with E : Ascii.eqb c _ = false |- _ => rewrite E; clear E end.
  reflexivity.
Qed.

Lemma substitute_other component s :
  forallb (fun c => negb (tokenLetter c)) s = true -> substitute component 0 s = s.
Proof.
  induction s as [|c s IH]; [reflexivity|]. cbn [forallb]. intros H.
  apply andb_prop in H as [Hc H]. apply negb_true_iff in Hc.
  cbn [substitute]. rewrite (tokenAt_other c s Hc), (IH H). reflexivity.
Qed.

(** A template in which none of the letters Y, M, D, H, m, s occurs is
    returned as it is, whenever the formatter returns: lower-case [yyyy]
    or [dd] are no tokens. *)
Theorem formatDateToString_plain_template fmt timestamp template :
  returns (formatToParts fmt (newDate timestamp)) ->
  forallb (fun c => negb (tokenLetter c)) template = true ->
  formatDateToString fmt timestamp template = Ok template.
Proof.
  intros [parts Hp] Ht. unfold formatDateToString.
  rewrite (formatDateToDateTime_components fmt timestamp parts Hp). cbn [bind].
  f_equal. unfold replaceAll.
  rewrite (replaceAll_reDateToken (dateField (componentsOf parts))
             (List.length template) template (S (List.length template)) []) by lia.
  apply substitute_other, Ht.
Qed.

Lemma formatDateToString_plain_template_witness :
  formatDateToString (strictFormat midnight) (ofZ 0) "yyyy/dd, 12 o'clock"
  = Ok (list_ascii_of_string "yyyy/dd, 12 o'clock").
Proof.
  apply formatDateToString_plain_template; [eexists|]; reflexivity.
Defined.

(** ** formatBigNumber: what is left as it is *)

Lemma gt_units v :
  gt v (ofZ 1000) = false ->
  gt v (ofZ 1000000) = false /\ gt v (ofZ 1000000000) = false.
Proof.
  replace (ofZ 1000) with (S754_finite false 8796093022208000 (-43))
    by (vm_compute; reflexivity).
  replace (ofZ 1000000) with (S754_finite false 8589934592000000 (-33))
    by (vm_compute; reflexivity).
  replace (ofZ 1000000000) with (S754_finite false 8388608000000000 (-23))
    by (vm_compute; reflexivity).
  unfold gt, SFltb, SFcompare.
  destruct v as [s|s| |s m e]; try (split; reflexivity).
  - destruct s; [split; reflexivity|discriminate].
  - destruct s; [split; reflexivity|].
    destruct (Z.compare_spec (-43) e) as [E|E|E]; [| discriminate |];
      intros _;
      (destruct (Z.compare_spec (-33) e); [lia|lia|]);
      (destruct (Z.compare_spec (-23) e); [lia|lia|]); split; reflexivity.
Qed.

(** A value whose number is not greater than 1000 is returned as its own
    text; so is every negative number, however large its magnitude, for
    the comparisons are made on the signed value. *)
Theorem formatBigNumber_not_above_1000 :
  (forall value,
     gt (toNumber value) (ofZ 1000) = false -> formatBigNumber value = toStr value)
  /\ (forall m e,
        formatBigNumber (Nbr (S754_finite true m e)) = NumberToString (S754_finite true m e)).
Proof.
  assert (A : forall value,
            gt (toNumber value) (ofZ 1000) = false -> formatBigNumber value = toStr value).
  { intros value H. destruct (gt_units _ H) as [H6 H9].
    unfold formatBigNumber. rewrite H, H6, H9, !andb_false_r. reflexivity. }
  split; [exact A|]. intros m e. apply (A (Nbr (S754_finite true m e))).
  replace (ofZ 1000) with (S754_finite false 8796093022208000 (-43))
    by (vm_compute; reflexivity).
  reflexivity.
Qed.

Lemma formatBigNumber_not_above_1000_witness :
  formatBigNumber (Nbr (ofZ (-5000000))) = "-5000000"
  /\ formatBigNumber (Str "-2500000000") = "-2500000000".
Proof.
  split.
  - rewrite (proj1 formatBigNumber_not_above_1000 (Nbr (ofZ (-5000000)))); reflexivity.
  - rewrite (proj1 formatBigNumber_not_above_1000 (Str "-2500000000")); reflexivity.
Defined.

(** ** formatThousands: what it adds and what it keeps *)

Lemma without_mark c s : without c (mark [c] s) = without c s.
Proof.
  unfold without. induction s as [|d s IH]; [reflexivity|]. cbn [mark].
  destruct (isDigit d && groupable s); cbn [filter app];
    [rewrite (Ascii.eqb_refl c); cbn [negb]|]; rewrite IH; reflexivity.
Qed.

Lemma without_absent c s : includes c s = false -> without c s = s.
Proof.
  unfold without, includes. induction s as [|x s IH]; [reflexivity|].
  cbn [existsb filter]. intros H. apply orb_false_elim in H as [Hx H].
  rewrite Ascii.eqb_sym, Hx. cbn [negb]. rewrite (IH H). reflexivity.
Qed.

Lemma without_app c a b : without c (a ++ b) = without c a ++ without c b.
Proof. apply filter_app. Qed.

(** With a separator of one character that does not occur in the text of
    the value, taking the separator out of the result gives the text
    back: [formatThousands] only inserts, it changes and drops nothing
    (the text having at most one decimal point). *)
Theorem formatThousands_only_inserts value c :
  includes c (toStr value) = false ->
  decimalPoints (toStr value) <= 1 ->
  without c (formatThousands value [c]) = toStr value.
Proof.
  intros Hc Hd. rewrite formatThousands_text.
  assert (Hne : [c] <> []) by discriminate.
  destruct (includes "." (toStr value)) eqn:Ei.
  - destruct (includes_first _ _ Ei) as (a & b & E & Ha). rewrite E in *.
    rewrite decimalPoints_at in Hd.
    assert (Hb : includes "." b = false) by (apply decimalPoints_none; lia).
    rewrite formatThousands_dot, split_none by assumption.
    cbn [itemText nth_error]. rewrite includes_app in Hc.
    apply orb_false_elim in Hc as [Hca Hcb].
    rewrite without_app, without_mark, (without_absent c a Hca).
    change ("." ++ b) with ("."%char :: b). rewrite (without_absent c _ Hcb). reflexivity.
  - rewrite formatThousands_nodot by assumption.
    rewrite without_mark. apply without_absent, Hc.
Qed.

Lemma formatThousands_only_inserts_witness :
  without "," (formatThousands (Str "-1234567.1234567") ",") = "-1234567.1234567".
Proof.
  apply (formatThousands_only_inserts (Str "-1234567.1234567") ","); [reflexivity|].
  vm_compute. lia.
Defined.

(** When the text has a second decimal point, the result stops before it:
    the grouped integer part, the first point and the text between the
    two points; what follows the second point is dropped. *)
Theorem formatThousands_second_point a b c sep :
  sep <> [] -> includes "." a = false -> includes "." b = false ->
  formatThousands (Str (a ++ "." ++ b ++ "." ++ c)) sep = groupInteger sep a ++ "." ++ b.
Proof.
  intros Hs Ha Hb. change (a ++ "." ++ b ++ "." ++ c) with (a ++ "."%char :: b ++ "."%char :: c).
  rewrite formatThousands_dot, (split_at "." b c Hb) by assumption.
  cbn [itemText nth_error]. rewrite mark_groupInteger. reflexivity.
Qed.

Lemma formatThousands_second_point_witness :
  formatThousands (Str "192168.1.10") " " = "192 168.1".
Proof.
  apply (formatThousands_second_point "192168" "1" "10" " "); [discriminate|reflexivity..].
Defined.

Lemma before_trailing int : beforeDigits int ++ trailingDigits int = int.
Proof.
  unfold beforeDigits, trailingDigits.
  rewrite <- rev_app_distr, takeRun_dropRun, rev_involutive. reflexivity.
Qed.

(** A value whose integer part ends with at most three digits is returned
    as its own text, whatever the separator (the text having at most one
    decimal point). *)
Theorem formatThousands_short value sep :
  decimalPoints (toStr value) <= 1 ->
  List.length (trailingDigits (integerPart (toStr value))) <= 3 ->
  formatThousands value sep = toStr value.
Proof.
  intros Hd Hl. rewrite formatThousands_text. unfold integerPart in Hl.
  destruct sep as [|c sep'] eqn:Es; [reflexivity|].
  rewrite <- Es. assert (Hne : sep <> []) by (rewrite Es; discriminate).
  destruct (includes "." (toStr value)) eqn:Ei.
  - destruct (includes_first _ _ Ei) as (a & b & E & Ha). rewrite E in *.
    rewrite decimalPoints_at in Hd.
    assert (Hb : includes "." b = false) by (apply decimalPoints_none; lia).
    rewrite splitFirst_at in Hl by assumption. cbn [fst] in Hl.
    rewrite formatThousands_dot, split_none by assumption.
    cbn [itemText nth_error]. rewrite mark_groupInteger. unfold groupInteger.
    rewrite grouped_short, before_trailing by exact Hl. reflexivity.
  - rewrite splitFirst_none in Hl by assumption. cbn [fst] in Hl.
    rewrite formatThousands_nodot by assumption.
    rewrite mark_groupInteger. unfold groupInteger.
    rewrite grouped_short, before_trailing by exact Hl. reflexivity.
Qed.

Lemma formatThousands_short_witness :
  formatThousands (Str "-999.123456") "," = "-999.123456".
Proof.
  apply (formatThousands_short (Str "-999.123456") ","); vm_compute; lia.
Defined.

Lemma div3_step n :
  n / 3 = (if (0 <? n)%nat && (n mod 3 =? 0)%nat then 1 else 0) + (n - 1) / 3.
Proof.
  destruct n as [|n]; [reflexivity|].
  replace (S n - 1) with n by lia. cbn [Nat.ltb Nat.leb andb].
  pose proof (Nat.div_mod_eq (S n) 3) as A. pose proof (Nat.mod_upper_bound (S n) 3) as B.
  pose proof (Nat.div_mod_eq n 3) as A'. pose proof (Nat.mod_upper_bound n 3) as B'.
  destruct (S n mod 3 =? 0)%nat eqn:E;
    [apply Nat.eqb_eq in E|apply Nat.eqb_neq in E]; lia.
Qed.

Lemma grouped_length sep ds :
  List.length (grouped sep ds)
  = List.length ds + List.length sep * ((List.length ds - 1) / 3).
Proof.
  induction ds as [|d ds IH]; [cbn; lia|]. cbn [grouped].
  replace (List.length (d :: ds) - 1) with (List.length ds) by (cbn [List.length]; lia).
  rewrite (div3_step (List.length ds)).
  destruct ((0 <? List.length ds)%nat && (List.length ds mod 3 =? 0)%nat);
    cbn [List.length]; rewrite ?length_app, IH; lia.
Qed.

(** On a text of [n] digits the result has one separator for every full
    group of three digits after the first digit: its length is
    [n + |sep| * ((n - 1) / 3)]. *)
Theorem formatThousands_length ds sep :
  allDigits ds = true ->
  List.length (formatThousands (Str ds) sep)
  = List.length ds + List.length sep * ((List.length ds - 1) / 3).
Proof.
  intros Hd. destruct sep as [|c sep'] eqn:Es; [cbn; lia|].
  rewrite <- Es. assert (Hne : sep <> []) by (rewrite Es; discriminate).
  rewrite formatThousands_nodot by (try assumption; apply allDigits_no_point, Hd).
  rewrite mark_digits by exact Hd. apply grouped_length.
Qed.

Lemma formatThousands_length_witness :
  List.length (formatThousands (Str "1234567") ", ") = 11.
Proof.
  rewrite (formatThousands_length "1234567" ", "); reflexivity.
Defined.

(** ** formatFoldDecimal: thresholds, policies, folding twice *)

(** The result for a natural threshold and a count text without [$]. *)
Lemma formatFoldDecimal_rendered value threshold t render :
  NumberToString threshold = decimalNat t ->
  (forall count, includes "$" (render count) = false) ->
  formatFoldDecimal value threshold render =
  match lastPoint (toStr value) with
  | Some (int, frac) =>
    if foldableFraction t frac
    then Ok (int ++ "." ++ "0" ++ render (List.length (takeRun isZero frac))
                 ++ dropRun isZero frac)
    else Ok (toStr value)
  | None => Ok (toStr value)
  end.
Proof.
  intros Ht Hr. rewrite (formatFoldDecimal_natural value threshold t render Ht).
  destruct (lastPoint (toStr value)) as [[int frac]|]; [|reflexivity].
  destruct (foldableFraction t frac); [|reflexivity].
  rewrite getSubstitution_plain.
  - cbn [app]. rewrite <- app_assoc. reflexivity.
  - cbn [app]. unfold includes. cbn [existsb]. apply Hr.
Qed.

Lemma foldableFraction_le t t' frac :
  t <= t' -> foldableFraction t' frac = true -> foldableFraction t frac = true.
Proof.
  unfold foldableFraction. intros Hle H. apply andb_prop in H as [H1 H2].
  rewrite H2, andb_true_r. apply Nat.leb_le in H1. apply Nat.leb_le. lia.
Qed.

(** Raising a natural threshold never changes what is folded: the result
    for the higher threshold is the result for the lower one, or else the
    text of the value unchanged. *)
Theorem formatFoldDecimal_higher_threshold value low high t t' render :
  NumberToString low = decimalNat t ->
  NumberToString high = decimalNat t' ->
  t <= t' ->
  formatFoldDecimal value high render = formatFoldDecimal value low render
  \/ formatFoldDecimal value high render = Ok (toStr value).
Proof.
  intros Hl Hh Hle.
  rewrite (formatFoldDecimal_natural value low t render Hl).
  rewrite (formatFoldDecimal_natural value high t' render Hh).
  destruct (lastPoint (toStr value)) as [[int frac]|]; [|left; reflexivity].
  destruct (foldableFraction t' frac) eqn:E; [|right; reflexivity].
  rewrite (foldableFraction_le t t' frac Hle E). left. reflexivity.
Qed.

Lemma formatFoldDecimal_higher_threshold_witness :
  formatFoldDecimalForCurlyBracket (Str "0.00000123") (ofZ 5)
  = formatFoldDecimalForCurlyBracket (Str "0.00000123") (ofZ 2)
  /\ formatFoldDecimalForCurlyBracket (Str "0.00000123") (ofZ 6)
     = Ok (list_ascii_of_string "0.00000123").
Proof.
  split.
  - destruct (formatFoldDecimal_higher_threshold (Str "0.00000123") (ofZ 2) (ofZ 5) 2 5
                (fun count => "{" ++ countText count ++ "}") eq_refl eq_refl) as [H|H];
      [lia|exact H|vm_compute in H; discriminate H].
  - reflexivity.
Defined.

Lemma countText_digits count : allDigits (countText count) = true.
Proof. apply decimal_allDigits. Qed.

Lemma allDigits_no_dollar s : allDigits s = true -> includes "$" s = false.
Proof.
  unfold allDigits, includes. induction s as [|c s IH]; [reflexivity|].
  cbn [forallb existsb]. intros H. apply andb_prop in H as [Hc H].
  rewrite (IH H), orb_false_r.
  destruct (Ascii.eqb "$" c) eqn:E; [|reflexivity].
  apply Ascii.eqb_eq in E. subst c. discriminate.
Qed.

Lemma curly_no_dollar count : includes "$" ("{" ++ countText count ++ "}") = false.
Proof.
  cbn [list_ascii_of_string app]. unfold includes. cbn [existsb].
  rewrite existsb_app. cbn [existsb].
  change (existsb (Ascii.eqb "$") (countText count)) with (includes "$" (countText count)).
  rewrite (allDigits_no_dollar _ (countText_digits count)). reflexivity.
Qed.

(** For every value and every natural threshold, the curly-bracket policy
    returns the text unchanged unless what follows the last decimal point
    is at least that many zeros, a digit from 1 to 9 and digits to the end;
    then the zeros are replaced by one zero and their number in decimal
    between braces. *)
Theorem formatFoldDecimalForCurlyBracket_folds value threshold t :
  NumberToString threshold = decimalNat t ->
  formatFoldDecimalForCurlyBracket value threshold =
  match lastPoint (toStr value) with
  | Some (int, frac) =>
    if foldableFraction t frac
    then Ok (int ++ ".0{" ++ countText (List.length (takeRun isZero frac)) ++ "}"
                 ++ dropRun isZero frac)
    else Ok (toStr value)
  | None => Ok (toStr value)
  end.
Proof.
  intros Ht. unfold formatFoldDecimalForCurlyBracket.
  rewrite (formatFoldDecimal_rendered value threshold t _ Ht curly_no_dollar).
  destruct (lastPoint (toStr value)) as [[int frac]|]; [|reflexivity].
  destruct (foldableFraction t frac); [|reflexivity].
  cbn [list_ascii_of_string app]. rewrite <- !app_assoc. reflexivity.
Qed.

Lemma formatFoldDecimalForCurlyBracket_folds_witness :
  formatFoldDecimalForCurlyBracket (Str "-3.0000000000005") (ofZ 4)
  = Ok (list_ascii_of_string "-3.0{12}5").
Proof.
  rewrite (formatFoldDecimalForCurlyBracket_folds (Str "-3.0000000000005") (ofZ 4) 4);
    reflexivity.
Defined.

Lemma exec_reDigit d ds :
  isDigit d = true -> exec reDigit (d :: ds) = Some (mkMatch [] [d] [] ds).
Proof.
  intros H. rewrite exec_eq. unfold matchAt.
  change (compile reDigit) with (charMatcher digitP).
  change (repeat None (maxGroup reDigit)) with (@nil (option jsString)).
  rewrite charMatcher_cons, digitP_isDigit, H. cbn [rest caps List.length].
  replace (S (List.length ds) - List.length ds) with 1 by lia. reflexivity.
Qed.

Lemma subscript_rendered count :
  replaceFirstWith reDigit
    (fun m => match subscriptNumbers (matched m) with
              | Some glyph => glyph
              | None => []
              end)
    (countText count)
  = subscriptFirst count.
Proof.
  unfold subscriptFirst, replaceFirstWith. pose proof (countText_digits count) as H.
  destruct (countText count) as [|d ds] eqn:E.
  - exfalso. exact (decimal_nonempty _ E).
  - unfold allDigits in H. cbn [forallb] in H. apply andb_prop in H as [Hd _].
    rewrite (exec_reDigit d ds Hd). reflexivity.
Qed.

Lemma subscriptGlyph_clean d :
  includes "$" (subscriptGlyph d) = false /\ includes "." (subscriptGlyph d) = false.
Proof.
  unfold subscriptGlyph, subscriptNumbers.
  repeat (destruct (str_eqb [d] _); [split; reflexivity|]). split; reflexivity.
Qed.

Lemma subscriptFirst_no_dollar count : includes "$" (subscriptFirst count) = false.
Proof.
  unfold subscriptFirst. pose proof (countText_digits count) as H.
  destruct (countText count) as [|d ds]; [reflexivity|].
  unfold allDigits in H. cbn [forallb] in H. apply andb_prop in H as [_ H].
  rewrite includes_app, (proj1 (subscriptGlyph_clean d)).
  apply allDigits_no_dollar, H.
Qed.

(** For every value and every natural threshold, the subscript policy
    folds like the curly-bracket one, and writes the number of zeros with
    the subscript glyph of its first digit only: the other digits of a
    number of ten or more stay ordinary digits. *)
Theorem formatFoldDecimalForSubscript_folds value threshold t :
  NumberToString threshold = decimalNat t ->
  formatFoldDecimalForSubscript value threshold =
  match lastPoint (toStr value) with
  | Some (int, frac) =>
    if foldableFraction t frac
    then Ok (int ++ ".0" ++ subscriptFirst (List.length (takeRun isZero frac))
                 ++ dropRun isZero frac)
    else Ok (toStr value)
  | None => Ok (toStr value)
  end.
Proof.
  intros Ht. unfold formatFoldDecimalForSubscript.
  rewrite (formatFoldDecimal_rendered value threshold t _ Ht).
  - destruct (lastPoint (toStr value)) as [[int frac]|]; [|reflexivity].
    destruct (foldableFraction t frac); [|reflexivity].
    rewrite subscript_rendered. reflexivity.
  - intros count. rewrite subscript_rendered. apply subscriptFirst_no_dollar.
Qed.

Lemma formatFoldDecimalForSubscript_folds_witness :
  formatFoldDecimalForSubscript (Str "-3.0000000000005") (ofZ 4)
  = Ok (list_ascii_of_string "-3.0₁25").
Proof.
  rewrite (formatFoldDecimalForSubscript_folds (Str "-3.0000000000005") (ofZ 4) 4);
    reflexivity.
Defined.

Lemma lastPoint_at a b : includes "." b = false -> lastPoint (a ++ "."%char :: b) = Some (a, b).
Proof.
  intros Hb. induction a as [|x a IH]; cbn [app lastPoint].
  - rewrite (lastPoint_none b Hb), Ascii.eqb_refl. reflexivity.
  - rewrite IH. reflexivity.
Qed.

Lemma nonZeroDigit_isDigit c : isNonZeroDigit c = true -> isDigit c = true.
Proof.
  unfold isNonZeroDigit, isDigit, inRange, code. intros H.
  apply andb_prop in H as [H1 H2]. rewrite H2, andb_true_r.
  apply N.leb_le in H1. apply N.leb_le. cbn in *. lia.
Qed.

Lemma isZero_isDigit c : isZero c = true -> isDigit c = true.
Proof. unfold isZero. intros H. apply Ascii.eqb_eq in H. subst c. reflexivity. Qed.

(** A fraction already folded is not folded again: after its zero comes
    the count text, which does not start with a digit. *)
Lemma folded_not_foldable t r rs rem :
  isDigit r = false -> foldableFraction t ("0"%char :: (r :: rs) ++ rem) = false.
Proof.
  intros Hr. unfold foldableFraction. cbn [takeRun dropRun app].
  change (isZero "0") with true. cbv iota.
  destruct (isZero r) eqn:Z; [rewrite (isZero_isDigit r Z) in Hr; discriminate|].
  destruct (isNonZeroDigit r) eqn:Nz; [rewrite (nonZeroDigit_isDigit r Nz) in Hr; discriminate|].
  apply andb_false_r.
Qed.

Lemma dropRun_no_point p s : includes "." s = false -> includes "." (dropRun p s) = false.
Proof.
  intros H. rewrite <- (takeRun_dropRun p s), includes_app in H.
  apply orb_false_elim in H as [_ H]. exact H.
Qed.

Lemma formatFoldDecimal_stable value threshold t render out :
  NumberToString threshold = decimalNat t ->
  (forall count, includes "$" (render count) = false) ->
  (forall count, includes "." (render count) = false) ->
  (forall count, match render count with
                 | c :: _ => isDigit c = false
                 | [] => False
                 end) ->
  formatFoldDecimal value threshold render = Ok out ->
  formatFoldDecimal (Str out) threshold render = Ok out.
Proof.
  intros Ht Hd Hp Hh.
  rewrite (formatFoldDecimal_rendered value threshold t render Ht Hd).
  rewrite (formatFoldDecimal_rendered (Str out) threshold t render Ht Hd).
  cbn [toStr].
  destruct (lastPoint (toStr value)) as [[int frac]|] eqn:L.
  - destruct (foldableFraction t frac) eqn:F.
    + intros [= <-].
      set (n := List.length (takeRun isZero frac)).
      specialize (Hh n). specialize (Hp n).
      destruct (render n) as [|r rs] eqn:R; [contradiction|].
      change (int ++ "." ++ "0" ++ (r :: rs) ++ dropRun isZero frac)
        with (int ++ "."%char :: "0"%char :: (r :: rs) ++ dropRun isZero frac).
      rewrite lastPoint_at.
      * rewrite folded_not_foldable by exact Hh. reflexivity.
      * change ("0"%char :: (r :: rs) ++ dropRun isZero frac)
          with (["0"%char] ++ (r :: rs) ++ dropRun isZero frac).
        rewrite !includes_app, Hp.
        rewrite (dropRun_no_point isZero frac (foldable_no_point t frac F)). reflexivity.
    + intros [= <-]. rewrite L, F. reflexivity.
  - intros [= <-]. rewrite L. reflexivity.
Qed.

Lemma subscriptGlyph_head d :
  isDigit d = true ->
  match subscriptGlyph d with
  | c :: _ => isDigit c = false
  | [] => False
  end.
Proof.
  intros H.
  destruct d as [[|] [|] [|] [|] [|] [|] [|] [|]];
    try (cbv in H; discriminate H); vm_compute; reflexivity.
Qed.

(** Folding is done once: each policy, applied to its own result for a
    natural threshold, returns that result unchanged. *)
Theorem foldDecimal_policies_stable threshold t :
  NumberToString threshold = decimalNat t ->
  (forall value out,
     formatFoldDecimalForCurlyBracket value threshold = Ok out ->
     formatFoldDecimalForCurlyBracket (Str out) threshold = Ok out)
  /\ (forall value out,
        formatFoldDecimalForSubscript value threshold = Ok out ->
        formatFoldDecimalForSubscript (Str out) threshold = Ok out).
Proof.
  intros Ht. split; intros value out.
  - apply (formatFoldDecimal_stable value threshold t _ out Ht curly_no_dollar).
    + intros count. cbn [list_ascii_of_string app]. unfold includes. cbn [existsb].
      rewrite existsb_app. cbn [existsb].
      change (existsb (Ascii.eqb ".") (countText count))
        with (includes "." (countText count)).
      rewrite (allDigits_no_point _ (countText_digits count)). reflexivity.
    + intros count. reflexivity.
  - unfold formatFoldDecimalForSubscript.
    apply (formatFoldDecimal_stable value threshold t _ out Ht).
    + intros count. rewrite subscript_rendered. apply subscriptFirst_no_dollar.
    + intros count. rewrite subscript_rendered. unfold subscriptFirst.
      pose proof (countText_digits count) as H.
      destruct (countText count) as [|d ds]; [reflexivity|].
      unfold allDigits in H. cbn [forallb] in H. apply andb_prop in H as [_ H].
      rewrite includes_app, (proj2 (subscriptGlyph_clean d)).
      apply allDigits_no_point, H.
    + intros count. rewrite subscript_rendered. unfold subscriptFirst.
      pose proof (countText_digits count) as H.
      destruct (countText count) as [|d ds] eqn:E; [exact (decimal_nonempty _ E)|].
      unfold allDigits in H. cbn [forallb] in H. apply andb_prop in H as [Hd _].
      pose proof (subscriptGlyph_head d Hd) as G.
      destruct (subscriptGlyph d) as [|c g]; [contradiction|]. exact G.
Qed.

Lemma foldDecimal_policies_stable_witness :
  formatFoldDecimalForCurlyBracket (Str "0.0{7}123") (ofZ 1)
    = Ok (list_ascii_of_string "0.0{7}123")
  /\ formatFoldDecimalForSubscript (Str "0.0₇123") (ofZ 1)
    = Ok (list_ascii_of_string "0.0₇123").
Proof.
  split.
  - apply (proj1 (foldDecimal_policies_stable (ofZ 1) 1 eq_refl) (Str "0.0000000123")).
    reflexivity.
  - apply (proj2 (foldDecimal_policies_stable (ofZ 1) 1 eq_refl) (Str "0.0000000123")).
    reflexivity.
Defined.

(** *** A text without a decimal point *)

(** The pattern built from a threshold text that is no numeral: the point,
    the zero and the opening brace are three characters to be matched. *)
Lemma parse_fold_literal_shape w total fuel :
  tame w = true -> allDigits w && negb (List.length w =? 0)%nat = false ->
  List.length w + 12 <= fuel ->
  exists ts, parseDisjunction fuel total 1 ("\.0{" ++ w ++ ",}[1-9][0-9]*$")
             = Good (Seq (Chr ".") (Seq (Chr "0") (seqOf (Chr "{" :: ts))), 1, []).
Proof.
  intros Hw Hd Hf.
  do 5 (destruct fuel as [|fuel]; [lia|]).
  rewrite parseDisjunction_S.
  cbn [list_ascii_of_string app].
  rewrite parseAlternative_S. change (isC "\" "|" || isC "\" ")") with false. cbv iota.
  rewrite parseTerm_escaped_point.
  change (quantified 1 (Chr ".") ?s) with (@Good (Regex * nat * jsString) (Chr ".", 1, s)).
  cbv iota beta.
  rewrite parseAlternative_S. change (isC "0" "|" || isC "0" ")") with false. cbv iota.
  rewrite parseTerm_zero.
  pose proof (parseBraces_none w
    ["}"%char; "["%char; "1"%char; "-"%char; "9"%char; "]"%char; "["%char; "0"%char;
     "-"%char; "9"%char; "]"%char; "*"%char; "$"%char] Hw Hd) as Hb.
  rewrite quantified_none by (unfold quantifierPrefix; exact Hb).
  cbv iota beta.
  rewrite parseAlternative_S. change (isC "{" "|" || isC "{" ")") with false. cbv iota.
  rewrite parseTerm_brace by exact Hb.
  assert (Hq : quantifierPrefix (w ++ list_ascii_of_string ",}[1-9][0-9]*$") = None).
  { destruct w as [|c w']; [reflexivity|]. cbn [app].
    apply quantifierPrefix_numeral. cbn [tame] in Hw.
    apply andb_prop in Hw as [Hc _]. exact Hc. }
  cbn [list_ascii_of_string] in Hq.
  rewrite quantified_none by exact Hq. cbv iota beta.
  destruct (parse_tame total 1 (list_ascii_of_string ",}[1-9][0-9]*$")
              [Chr ","; Chr "}"; nonZeroDigit; Rep digit 0 None true; EndAnchor] 6)
    with (n := List.length w) (w := w) (fuel := S fuel) as [ts E].
  - intros f Hk. do 6 (destruct f as [|f]; [lia|]). apply parse_literal_tail.
  - lia.
  - reflexivity.
  - lia.
  - exact Hw.
  - lia.
  - cbn [list_ascii_of_string] in E. rewrite E. exists ts. reflexivity.
Qed.

Lemma parse_fold_literal_point w total fuel :
  tame w = true -> allDigits w && negb (List.length w =? 0)%nat = false ->
  List.length w + 12 <= fuel ->
  exists r, parseDisjunction fuel total 1 ("\.0{" ++ w ++ ",}[1-9][0-9]*$")
            = Good (Seq (Chr ".") r, 1, []).
Proof.
  intros Hw Hd Hf.
  destruct (parse_fold_literal_shape w total fuel Hw Hd Hf) as [ts E].
  rewrite E. eexists. reflexivity.
Qed.

Lemma newRegExp_point w :
  tame w = true ->
  exists r, newRegExp ("\.0{" ++ w ++ ",}[1-9][0-9]*$") = Ok (Seq (Chr ".") r).
Proof.
  intros Hw. unfold newRegExp, parsePattern.
  assert (Hf : List.length w + 12 <= parseFuel ("\.0{" ++ w ++ ",}[1-9][0-9]*$")).
  { unfold parseFuel. cbn [list_ascii_of_string app List.length].
    rewrite length_app. cbn [List.length]. lia. }
  destruct (allDigits w && negb (List.length w =? 0)%nat) eqn:Hd.
  - apply andb_prop in Hd as [Ha Hn].
    assert (Hne : w <> []) by (destruct w; [discriminate|discriminate]).
    rewrite parse_fold_digits by (try assumption; lia). eexists. reflexivity.
  - destruct (parse_fold_literal_point w (countGroups false ("\.0{" ++ w ++ ",}[1-9][0-9]*$")) _
                Hw Hd Hf) as [r E].
    rewrite E. eexists. reflexivity.
Qed.

Lemma compile_seq_chr a r x (c : Continuation) :
  compile (Seq (Chr a) r) x c = charMatcher (Ascii.eqb a) x (fun y => compile r y c).
Proof. reflexivity. Qed.

Lemma exec_point_absent r s :
  includes "." s = false -> exec (Seq (Chr ".") r) s = None.
Proof.
  induction s as [|c s IH]; intros H; rewrite exec_eq; unfold matchAt; cbn [compile].
  - rewrite charMatcher_nil. reflexivity.
  - unfold includes in H. cbn [existsb] in H. apply orb_false_elim in H as [Hc H].
    rewrite charMatcher_cons, Hc, (IH H). reflexivity.
Qed.

(** A value whose text has no decimal point is returned as its text, for
    every threshold, a number or not, and every way of writing the count. *)
Theorem formatFoldDecimal_without_point value threshold render :
  includes "." (toStr value) = false ->
  formatFoldDecimal value threshold render = Ok (toStr value).
Proof.
  intros H. unfold formatFoldDecimal.
  destruct (newRegExp_point _ (NumberToString_tame threshold)) as [r ->].
  cbn [bind]. unfold test. rewrite (exec_point_absent r _ H). reflexivity.
Qed.

Lemma formatFoldDecimal_without_point_witness :
  formatFoldDecimal (Nbr (ofZ 1000000)) NaN (fun _ => "?")
  = Ok (list_ascii_of_string "1000000").
Proof.
  apply (formatFoldDecimal_without_point (Nbr (ofZ 1000000)) NaN). reflexivity.
Defined.

(** *** A threshold that is not a natural number *)

Lemma compile_seqOf_chr a ts s cs (k : Continuation) :
  includes a s = false -> compile (seqOf (Chr a :: ts)) (mkState s cs) k = None.
Proof.
  intros H.
  assert (C : charMatcher (Ascii.eqb a) (mkState s cs)
                (fun y => match ts with [] => k y | _ :: _ => compile (seqOf ts) y k end)
              = None).
  { destruct s as [|c s]; [apply charMatcher_nil|]. rewrite charMatcher_cons.
    unfold includes in H. cbn [existsb] in H. apply orb_false_elim in H as [Hc _].
    rewrite Hc. reflexivity. }
  destruct ts as [|t ts]; exact C.
Qed.

Lemma exec_brace_absent ts s :
  includes "{" s = false ->
  exec (Seq (Chr ".") (Seq (Chr "0") (seqOf (Chr "{" :: ts)))) s = None.
Proof.
  induction s as [|c s IH]; intros H; rewrite exec_eq; unfold matchAt;
    rewrite compile_seq_chr.
  - rewrite charMatcher_nil. reflexivity.
  - unfold includes in H. cbn [existsb] in H. apply orb_false_elim in H as [_ H].
    rewrite charMatcher_cons, (IH H).
    destruct (Ascii.eqb "." c); [|reflexivity].
    rewrite compile_seq_chr.
    destruct s as [|c2 s2]; [rewrite charMatcher_nil; reflexivity|].
    rewrite charMatcher_cons. destruct (Ascii.eqb "0" c2); [|reflexivity].
    unfold includes in H. cbn [existsb] in H. apply orb_false_elim in H as [_ H].
    rewrite (compile_seqOf_chr "{" ts s2 _ Some H). reflexivity.
Qed.

Lemma tame_no_brace w : tame w = true -> includes "{" w = false.
Proof.
  intros H. pose proof (tame_chars w H) as C. clear H. unfold includes.
  induction w as [|c w IH]; [reflexivity|]. cbn [existsb].
  rewrite IH by (intros d Hd; apply C; right; exact Hd).
  destruct (Ascii.eqb "{" c) eqn:E; [|reflexivity].
  apply Ascii.eqb_eq in E. subst c.
  destruct (C "{"%char (or_introl eq_refl)) as [N|N]; discriminate N.
Qed.

(** With a threshold that is not written as a natural number (a negative
    one, a fraction, [NaN], an infinity, [1e+21]) the braces of the pattern
    are characters to be matched: a value whose text has no opening brace
    is returned unchanged, and so is every number. *)
Theorem formatFoldDecimal_not_natural threshold render :
  naturalNumeral (NumberToString threshold) = false ->
  (forall value,
     includes "{" (toStr value) = false ->
     formatFoldDecimal value threshold render = Ok (toStr value))
  /\ (forall x, formatFoldDecimal (Nbr x) threshold render = Ok (NumberToString x)).
Proof.
  intros Hn.
  assert (A : forall value,
            includes "{" (toStr value) = false ->
            formatFoldDecimal value threshold render = Ok (toStr value)).
  { intros value Hv. unfold formatFoldDecimal, newRegExp, parsePattern.
    pose proof (NumberToString_tame threshold) as Hw.
    set (w := NumberToString threshold) in *.
    assert (Hf : List.length w + 12 <= parseFuel ("\.0{" ++ w ++ ",}[1-9][0-9]*$")).
    { unfold parseFuel. cbn [list_ascii_of_string app List.length].
      rewrite length_app. cbn [List.length]. lia. }
    destruct (parse_fold_literal_shape w
                (countGroups false ("\.0{" ++ w ++ ",}[1-9][0-9]*$")) _ Hw Hn Hf) as [ts E].
    rewrite E. cbn [bind]. unfold test. rewrite (exec_brace_absent ts _ Hv). reflexivity. }
  split; [exact A|]. intros x. apply (A (Nbr x)). cbn [toStr].
  apply tame_no_brace, NumberToString_tame.
Qed.

Lemma formatFoldDecimal_not_natural_witness :
  formatFoldDecimal (Str "0.0000000123") (num "2.5") (fun _ => "?")
    = Ok (list_ascii_of_string "0.0000000123")
  /\ formatFoldDecimal (Nbr (num "0.00001")) (ofZ (-4)) (fun _ => "?")
    = Ok (list_ascii_of_string "0.00001").
Proof.
  split.
  - apply (proj1 (formatFoldDecimal_not_natural (num "2.5") (fun _ => "?") eq_refl)
             (Str "0.0000000123")).
    reflexivity.
  - apply (proj2 (formatFoldDecimal_not_natural (ofZ (-4)) (fun _ => "?") eq_refl)
             (num "0.00001")).
Defined.


(** ** formatValue: the paths a key is read as *)

Lemma inRange_same a c : inRange a a c = Ascii.eqb c a.
Proof.
  unfold inRange. destruct (Ascii.eqb_spec c a) as [->|Hn].
  - rewrite N.leb_refl. reflexivity.
  - destruct ((code a <=? code c)%N && (code c <=? code a)%N) eqn:E; [|reflexivity].
    apply andb_prop in E as [E1 E2]. apply N.leb_le in E1, E2.
    assert (E : code a = code c) by lia. unfold code in E.
    apply (f_equal ascii_of_N) in E. rewrite !ascii_N_embedding in E.
    congruence.
Qed.

Lemma keyP_keyChar c : keyP c = keyChar c.
Proof.
  unfold keyP, keyChar, inClass. cbn [existsb fst snd].
  rewrite !inRange_same, orb_false_r, orb_assoc.
  destruct (Ascii.eqb c "." || Ascii.eqb c "[" || Ascii.eqb c "]"); reflexivity.
Qed.

Lemma compile_alt r1 r2 x (c : Continuation) :
  compile (Alt r1 r2) x c = orElse (compile r1 x c) (compile r2 x c).
Proof. reflexivity. Qed.

Lemma compile_seq r1 r2 x (c : Continuation) :
  compile (Seq r1 r2) x c = compile r1 x (fun y => compile r2 y c).
Proof. reflexivity. Qed.

Lemma compile_chr ch x (c : Continuation) :
  compile (Chr ch) x c = charMatcher (Ascii.eqb ch) x c.
Proof. reflexivity. Qed.

Lemma compile_plainRun s cs (c : Continuation) :
  compile plainRun (mkState s cs) c = repChar keyP 1 c cs s.
Proof.
  unfold plainRun. cbn [compile groupsOf].
  change (fun ch : ascii => xorb true (inClass _ ch)) with keyP.
  apply repeat_min_char. unfold repeatFuel. cbn [rest]. lia.
Qed.

Lemma rePropName_alternatives :
  exists bracket ahead, rePropName = Alt plainRun (Alt (Seq (Chr "[") bracket) (LookAhead ahead))
    /\ ahead = Seq (NonCapture (Alt (Chr ".") (Seq (Chr "[") (Chr "]"))))
                   (NonCapture (Alt (Chr ".") (Alt (Seq (Chr "[") (Chr "]")) EndAnchor))).
Proof. eexists. eexists. split; reflexivity. Qed.

(** At a plain character the pattern takes the whole run of them. *)
Lemma compile_rePropName_key c s cs :
  keyChar c = true ->
  compile rePropName (mkState (c :: s) cs) Some = Some (mkState (dropRun keyP s) cs).
Proof.
  intros Hc. destruct rePropName_alternatives as (bracket & ahead & -> & _).
  rewrite compile_alt, compile_plainRun. cbn [repChar].
  rewrite keyP_keyChar, Hc.
  rewrite starChar_accepted by discriminate. reflexivity.
Qed.

Lemma keyChar_differs c :
  keyChar c = true -> Ascii.eqb "." c = false /\ Ascii.eqb "[" c = false.
Proof.
  unfold keyChar. intros H. apply negb_true_iff in H.
  apply orb_false_elim in H as [H H3]. apply orb_false_elim in H as [H1 H2].
  rewrite (Ascii.eqb_sym "." c), (Ascii.eqb_sym "[" c). auto.
Qed.

(** At a point followed by a plain character nothing matches. *)
Lemma compile_rePropName_point c s cs :
  keyChar c = true ->
  compile rePropName (mkState ("."%char :: c :: s) cs) Some = None.
Proof.
  intros Hc. destruct (keyChar_differs c Hc) as [Hp Hb].
  destruct rePropName_alternatives as (bracket & ahead & -> & ->).
  rewrite compile_alt, compile_plainRun. cbn [repChar].
  change (keyP ".") with false. cbv iota. cbn [orElse].
  rewrite compile_alt, compile_seq, compile_chr, charMatcher_cons.
  change (Ascii.eqb "[" ".") with false. cbv iota. cbn [orElse].
  rewrite rest_lookahead.
  rewrite compile_seq. cbn [compile]. unfold charMatcher. cbn [rest caps].
  rewrite Ascii.eqb_refl, Hp, Hb. change (Ascii.eqb "[" ".") with false.
  reflexivity.
Qed.

Lemma matchAt_rePropName_nil : matchAt rePropName [] = None.
Proof. reflexivity. Qed.

Lemma dropRun_run p k tail :
  forallb p k = true ->
  match tail with
  | [] => True
  | x :: _ => p x = false
  end ->
  dropRun p (k ++ tail) = tail.
Proof.
  intros Hk Ht. induction k as [|c k IH]; cbn [app dropRun].
  - destruct tail as [|x t]; [reflexivity|]. cbn [dropRun]. rewrite Ht. reflexivity.
  - cbn [forallb] in Hk. apply andb_prop in Hk as [Hc Hk]. rewrite Hc. exact (IH Hk).
Qed.

Lemma plainKey_run k : plainKey k = true -> k <> [] /\ forallb keyP k = true.
Proof.
  unfold plainKey. intros H. apply andb_prop in H as [Hn Hk]. split.
  - intros ->. discriminate.
  - rewrite <- Hk. clear. induction k as [|c k IH]; [reflexivity|].
    cbn [forallb]. rewrite keyP_keyChar, IH. reflexivity.
Qed.

Lemma exec_rePropName_key k tail :
  plainKey k = true -> keyTail tail ->
  exec rePropName (k ++ tail) = Some (mkMatch [] k noCaptures tail).
Proof.
  intros Hk Ht. destruct (plainKey_run k Hk) as [Hne Hrun].
  destruct k as [|c k]; [contradiction|]. cbn [forallb] in Hrun.
  apply andb_prop in Hrun as [Hc Hrun]. rewrite keyP_keyChar in Hc.
  rewrite exec_eq. unfold matchAt. cbn [app].
  change (repeat None (maxGroup rePropName)) with noCaptures.
  rewrite (compile_rePropName_key c (k ++ tail) noCaptures Hc).
  assert (D : dropRun keyP (k ++ tail) = tail).
  { apply dropRun_run; [exact Hrun|]. destruct tail as [|x t]; [exact I|].
    rewrite keyP_keyChar. exact Ht. }
  rewrite D. cbn [rest caps]. f_equal. f_equal.
  apply (app_inv_tail tail).
  exact (firstn_suffix (c :: k ++ tail) (c :: k) tail eq_refl).
Qed.

(** No match at the first character: the search goes on after it. *)
Lemma matchList_skip fuel r seen ch s :
  matchAt r (ch :: s) = None ->
  matchListFuel (S fuel) r seen (ch :: s) = matchListFuel (S fuel) r (seen ++ [ch]) s.
Proof.
  intros H. cbn [matchListFuel]. rewrite (exec_eq r (ch :: s)), H.
  destruct (exec r s) as [m|]; cbn [option_map shift before matched groups after];
    [|reflexivity].
  rewrite <- !app_assoc. cbn [app]. reflexivity.
Qed.

Lemma join_cons c k ks : ks <> [] -> join c (k :: ks) = k ++ c :: join c ks.
Proof. destruct ks; [contradiction|reflexivity]. Qed.

Lemma join_head_plain k ks :
  plainKey k = true ->
  exists c s, join "." (k :: ks) = c :: s /\ keyChar c = true.
Proof.
  intros Hk. destruct (plainKey_run k Hk) as [Hne Hrun].
  destruct k as [|c k]; [contradiction|]. cbn [forallb] in Hrun.
  apply andb_prop in Hrun as [Hc _]. rewrite keyP_keyChar in Hc.
  destruct ks as [|k2 ks]; eexists; eexists; (split; [reflexivity|exact Hc]).
Qed.

(** The keys the replacer is called with on a dotted path. *)
Lemma matchList_dotted keys : forall fuel seen,
  forallb plainKey keys = true ->
  List.length (join "." keys) < fuel ->
  map pathKey (matchListFuel fuel rePropName seen (join "." keys)) = map (@Ok jsString) keys.
Proof.
  induction keys as [|k keys IH]; intros fuel seen Hk Hf.
  - destruct fuel as [|fuel]; reflexivity.
  - cbn [forallb] in Hk. apply andb_prop in Hk as [Hk Hks].
    destruct (plainKey_run k Hk) as [Hne _].
    destruct fuel as [|fuel]; [lia|].
    destruct keys as [|k2 keys].
    + cbn [join]. cbn [matchListFuel].
      rewrite <- (app_nil_r k) at 1. rewrite (exec_rePropName_key k [] Hk I).
      cbn [before matched groups after map].
      destruct k as [|c k]; [contradiction|].
      assert (E : forall sn, matchListFuel fuel rePropName sn [] = []).
      { intros sn. destruct fuel; reflexivity. }
      rewrite E. reflexivity.
    + rewrite join_cons by discriminate. rewrite join_cons in Hf by discriminate.
      rewrite length_app in Hf. cbn [List.length] in Hf.
      cbn [matchListFuel].
      rewrite (exec_rePropName_key k ("."%char :: join "." (k2 :: keys)) Hk eq_refl).
      cbn [before matched groups after map].
      destruct k as [|c k]; [contradiction|].
      f_equal.
      cbn [forallb] in Hks. pose proof Hks as Hks'. apply andb_prop in Hks' as [Hk2 _].
      destruct (join_head_plain k2 keys Hk2) as (c2 & s2 & E2 & Hc2).
      destruct fuel as [|fuel]; [cbn [List.length] in Hf; lia|].
      rewrite E2. rewrite matchList_skip.
      * rewrite <- E2. apply IH; [exact Hks|]. cbn [List.length] in Hf. lia.
      * unfold matchAt. change (repeat None (maxGroup rePropName)) with noCaptures.
        apply compile_rePropName_point, Hc2.
Qed.

Lemma collect_oks {A : Type} (l : list A) : collect (map (@Ok A) l) = Ok l.
Proof.
  induction l as [|a l IH]; [reflexivity|]. cbn [map collect bind]. rewrite IH. reflexivity.
Qed.

(** Plain keys joined by points are read back as those keys. *)
Lemma stringToPath_dotted keys :
  forallb plainKey keys = true -> stringToPath (join "." keys) = Ok keys.
Proof.
  intros H. unfold stringToPath, matchList.
  rewrite (matchList_dotted keys _ [] H) by lia. apply collect_oks.
Qed.

(** For every list of plain keys (not empty, without point or bracket),
    [formatValue] on the keys joined by points walks the data along
    exactly those keys: it answers with the value the accesses reach if
    all the values met, the last included, are valid, and with the default
    (or [--]) otherwise.  With no key at all the key is the empty text and
    the data itself is the value reached. *)
Theorem formatValue_dotted_path data keys defaultValue :
  forallb plainKey keys = true ->
  formatValue data (join "." keys) defaultValue
  = Ok (resolved (access data keys) defaultValue).
Proof.
  intros H. apply formatValue_path, stringToPath_dotted, H.
Qed.

Lemma formatValue_dotted_path_witness :
  formatValue userTags "user.tags.1" Undefined = Ok (String "y")
  /\ formatValue userTags "user.tags.length" Undefined = Ok (Number (ofZ 2))
  /\ formatValue userTags "user.name.first" (String "?") = Ok (String "?")
  /\ formatValue userTags "" Undefined = Ok userTags.
Proof.
  split; [|split; [|split]].
  - apply (formatValue_dotted_path userTags
             (map list_ascii_of_string ["user"; "tags"; "1"]) Undefined). reflexivity.
  - apply (formatValue_dotted_path userTags
             (map list_ascii_of_string ["user"; "tags"; "length"]) Undefined). reflexivity.
  - apply (formatValue_dotted_path userTags
             (map list_ascii_of_string ["user"; "name"; "first"]) (String "?")). reflexivity.
  - apply (formatValue_dotted_path userTags [] Undefined). reflexivity.
Defined.


(** ** formatValue: keys between brackets *)

Lemma rePropName_bracket :
  exists ahead,
    rePropName =
    Alt plainRun
        (Alt (Seq (Chr "[") (Seq (NonCapture (Alt unquoted quoted)) (Chr "]")))
             (LookAhead ahead)).
Proof. eexists. reflexivity. Qed.

Lemma compile_group i r x (c : Continuation) :
  compile (Group i r) x c =
  compile r x (fun y => c (mkState (rest y) (setCap (i - 1) (Some (consumed x y)) (caps y)))).
Proof. reflexivity. Qed.

Lemma compile_class neg ranges :
  compile (Class neg ranges) = charMatcher (fun ch => xorb neg (inClass ranges ch)).
Proof. reflexivity. Qed.

Lemma compile_rep r min max greedy x (c : Continuation) :
  compile (Rep r min max greedy) x c =
  repeatMatcher (repeatFuel min x) (compile r) min max greedy (groupsOf r) x c.
Proof. reflexivity. Qed.

Lemma orElse_none {A : Type} (a : option A) : orElse a None = a.
Proof. destruct a; reflexivity. Qed.

(** One character of a quoted key is passed by the first alternative of
    [escaped]. *)
Lemma compile_escaped_step q ch s cs (d : Continuation) :
  getCap 2 cs = Some [q] -> quotedChar q ch = true ->
  compile escaped (mkState (ch :: s) cs) d = d (mkState s cs).
Proof.
  intros Hc Hk. unfold quotedChar in Hk. apply andb_prop in Hk as [Hq Hb].
  apply negb_true_iff in Hq, Hb.
  unfold escaped. cbn [compile]. unfold charMatcher. cbn [rest caps].
  rewrite Hc. cbn [stripPrefix]. rewrite (Ascii.eqb_sym q ch), Hq.
  unfold inClass. cbn [existsb fst snd]. rewrite inRange_same, Hb.
  cbn [orb xorb]. rewrite (Ascii.eqb_sym "\" ch), Hb. apply orElse_none.
Qed.

(** The lazy quantifier of group 3: it stops at the first place where what
    follows succeeds, here after the whole key. *)
Lemma lazy_escaped q k : forall fuel cs tail (c : Continuation) z,
  List.length (k ++ tail) < fuel ->
  forallb (quotedChar q) k = true ->
  getCap 2 cs = Some [q] ->
  (forall ch s', quotedChar q ch = true -> c (mkState (ch :: s') cs) = None) ->
  c (mkState tail cs) = Some z ->
  repeatMatcher fuel (compile escaped) 0 None false [] (mkState (k ++ tail) cs) c = Some z.
Proof.
  induction k as [|ch k IH]; intros fuel cs tail c z Hf Hk Hc Hfail Hz;
    (destruct fuel as [|fuel]; [lia|]); rewrite repeatMatcher_lazy, clearCaps_nil.
  - cbn [app]. rewrite Hz. reflexivity.
  - cbn [forallb] in Hk. apply andb_prop in Hk as [Hch Hk].
    cbn [app]. rewrite (Hfail ch (k ++ tail) Hch). cbn [orElse].
    rewrite (compile_escaped_step q ch (k ++ tail) cs _ Hc Hch).
    cbn [rest List.length].
    replace (List.length (k ++ tail) =? S (List.length (k ++ tail)))%nat with false
      by (symmetry; apply Nat.eqb_neq; lia).
    apply IH; try assumption. cbn [app List.length] in Hf. lia.
Qed.

Lemma consumed_prefix w tail cs cs' :
  consumed (mkState (w ++ tail) cs) (mkState tail cs') = w.
Proof.
  unfold consumed. cbn [rest]. apply (app_inv_tail tail).
  exact (firstn_suffix (w ++ tail) w tail eq_refl).
Qed.

Lemma quoteP_isQuote q :
  isQuote q = true ->
  xorb false (inClass [(dquote, dquote); ("'"%char, "'"%char)] q) = true
  /\ xorb true (inClass [(dquote, dquote); ("'"%char, "'"%char)] q) = false.
Proof.
  unfold isQuote, inClass. cbn [existsb fst snd]. rewrite !inRange_same, orb_false_r.
  intros ->. split; reflexivity.
Qed.

(** The quoted alternative on a quoted key followed by the closing
    bracket. *)
Lemma compile_quoted q k tail :
  isQuote q = true -> forallb (quotedChar q) k = true ->
  compile quoted (mkState (q :: k ++ q :: "]"%char :: tail) noCaptures)
          (fun y => compile (Chr "]") y Some)
  = Some (mkState tail [None; Some [q]; Some k]).
Proof.
  intros Hq Hk. unfold quoted.
  rewrite compile_seq, compile_group, compile_class, charMatcher_cons.
  rewrite (proj1 (quoteP_isQuote q Hq)).
  change (q :: k ++ q :: "]"%char :: tail) with ([q] ++ (k ++ q :: "]"%char :: tail)).
  cbn [rest caps]. rewrite consumed_prefix.
  change (setCap (2 - 1) (Some [q]) noCaptures) with [None; Some [q]; @None jsString].
  rewrite compile_seq, compile_group, compile_rep.
  change (groupsOf escaped) with (@nil nat).
  apply (lazy_escaped q k).
  - unfold repeatFuel. cbn [rest]. lia.
  - exact Hk.
  - reflexivity.
  - intros ch s' Hch. cbn [rest caps compile setCap Nat.sub getCap nth].
    cbn [stripPrefix]. unfold quotedChar in Hch. apply andb_prop in Hch as [Hch _].
    apply negb_true_iff in Hch. rewrite (Ascii.eqb_sym q ch), Hch. reflexivity.
  - cbn [rest caps]. rewrite consumed_prefix.
    cbn [compile setCap Nat.sub getCap nth rest caps stripPrefix].
    rewrite Ascii.eqb_refl. unfold charMatcher. cbn [rest caps]. rewrite Ascii.eqb_refl.
    reflexivity.
Qed.

Lemma notOpen_spec c : notOpen c = negb (Ascii.eqb c "[").
Proof.
  unfold notOpen, inClass. cbn [existsb fst snd]. rewrite inRange_same, orb_false_r.
  destruct (Ascii.eqb c "["); reflexivity.
Qed.

(** A greedy run that can only be left at the character [x]: it is left at
    the last [x] of the run. *)
Lemma starChar_fails p (c : Continuation) cs x b :
  p x = true ->
  includes x (takeRun p b) = false ->
  (forall s, match s with y :: _ => Ascii.eqb x y = false | [] => True end ->
             c (mkState s cs) = None) ->
  starChar p c cs b = None.
Proof.
  intros Hx Hb Hc. induction b as [|y b IH]; cbn [starChar].
  - apply Hc. exact I.
  - cbn [takeRun] in Hb. destruct (p y) eqn:Py.
    + unfold includes in Hb. cbn [existsb] in Hb. apply orb_false_elim in Hb as [Hy Hb].
      rewrite (IH Hb). cbn [orElse]. apply Hc. exact Hy.
    + apply Hc. destruct (Ascii.eqb x y) eqn:E; [|reflexivity].
      apply Ascii.eqb_eq in E. subst y. congruence.
Qed.

Lemma starChar_only p (c : Continuation) cs a x b :
  p x = true -> forallb p a = true ->
  includes x a = false -> includes x (takeRun p b) = false ->
  (forall s, match s with y :: _ => Ascii.eqb x y = false | [] => True end ->
             c (mkState s cs) = None) ->
  starChar p c cs (a ++ x :: b) = c (mkState (x :: b) cs).
Proof.
  intros Hx Ha Hna Hb Hc. induction a as [|y a IH]; cbn [app starChar].
  - rewrite Hx, (starChar_fails p c cs x b Hx Hb Hc). reflexivity.
  - cbn [forallb] in Ha. apply andb_prop in Ha as [Py Ha].
    unfold includes in Hna. cbn [existsb] in Hna. apply orb_false_elim in Hna as [Hy Hna].
    rewrite Py, (IH Ha Hna). rewrite (Hc (y :: a ++ x :: b) Hy). apply orElse_none.
Qed.

Lemma indexChar_spec c :
  indexChar c = true -> notOpen c = true /\ Ascii.eqb "]" c = false.
Proof.
  unfold indexChar. intros H. apply andb_prop in H as [H1 H2].
  rewrite notOpen_spec, H1. split; [reflexivity|].
  rewrite Ascii.eqb_sym. apply negb_true_iff, H2.
Qed.

Lemma indexChars_spec k :
  forallb indexChar k = true -> forallb notOpen k = true /\ includes "]" k = false.
Proof.
  induction k as [|c k IH]; [split; reflexivity|]. cbn [forallb]. intros H.
  apply andb_prop in H as [Hc H]. destruct (indexChar_spec c Hc) as [H1 H2].
  destruct (IH H) as [H3 H4]. unfold includes in *. cbn [existsb].
  rewrite H1, H2, H3, H4. split; reflexivity.
Qed.

(** The alternative without quotation marks on a key followed by the
    closing bracket. *)
Lemma compile_unquoted c k tail :
  isQuote c = false -> forallb indexChar (c :: k) = true -> closedBefore tail = true ->
  compile unquoted (mkState (c :: k ++ "]"%char :: tail) noCaptures)
          (fun y => compile (Chr "]") y Some)
  = Some (mkState tail [Some (c :: k); None; None]).
Proof.
  intros Hq Hk Ht. unfold unquoted.
  rewrite compile_group, compile_seq, compile_class, charMatcher_cons.
  assert (Q : xorb true (inClass [(dquote, dquote); ("'"%char, "'"%char)] c) = true).
  { unfold isQuote in Hq. unfold inClass. cbn [existsb fst snd].
    rewrite !inRange_same, orb_false_r, Hq. reflexivity. }
  rewrite Q. rewrite compile_rep, compile_class.
  change (groupsOf (Class true [("["%char, "["%char)])) with (@nil nat).
  change (fun ch : ascii => xorb true (inClass [("["%char, "["%char)] ch)) with notOpen.
  rewrite repeat_star_char by (unfold repeatFuel; cbn [rest]; lia).
  cbn [forallb] in Hk. apply andb_prop in Hk as [_ Hk].
  destruct (indexChars_spec k Hk) as [Hrun Hno].
  rewrite (starChar_only notOpen _ noCaptures k "]" tail).
  - cbn [rest caps].
    change (c :: k ++ "]"%char :: tail) with ((c :: k) ++ "]"%char :: tail).
    rewrite consumed_prefix.
    cbn [compile setCap Nat.sub noCaptures]. unfold charMatcher. cbn [rest caps].
    rewrite Ascii.eqb_refl. reflexivity.
  - reflexivity.
  - exact Hrun.
  - exact Hno.
  - unfold closedBefore in Ht. apply negb_true_iff in Ht. exact Ht.
  - intros s Hs. cbn [rest caps compile]. unfold charMatcher. cbn [rest caps].
    destruct s as [|y s]; [reflexivity|]. rewrite Hs. reflexivity.
Qed.

Lemma compile_nonCapture r x (c : Continuation) :
  compile (NonCapture r) x c = compile r x c.
Proof. reflexivity. Qed.

(** The pattern at a quoted key between brackets. *)
Lemma compile_rePropName_quoted q k tail :
  isQuote q = true -> forallb (quotedChar q) k = true ->
  compile rePropName (mkState ("["%char :: q :: k ++ q :: "]"%char :: tail) noCaptures) Some
  = Some (mkState tail [None; Some [q]; Some k]).
Proof.
  intros Hq Hk. destruct rePropName_bracket as [ahead ->].
  rewrite compile_alt, compile_plainRun. cbn [repChar].
  change (keyP "[") with false. cbv iota. cbn [orElse].
  rewrite compile_alt, compile_seq, compile_chr, charMatcher_cons, Ascii.eqb_refl.
  rewrite compile_seq, compile_nonCapture, compile_alt.
  assert (U : compile unquoted (mkState (q :: k ++ q :: "]"%char :: tail) noCaptures)
                      (fun y => compile (Chr "]") y Some) = None).
  { unfold unquoted.
    rewrite compile_group, compile_seq, compile_class, charMatcher_cons.
    rewrite (proj2 (quoteP_isQuote q Hq)). reflexivity. }
  rewrite U, (compile_quoted q k tail Hq Hk). reflexivity.
Qed.

(** The pattern at a key between brackets without quotation marks. *)
Lemma compile_rePropName_index c k tail :
  isQuote c = false -> forallb indexChar (c :: k) = true -> closedBefore tail = true ->
  compile rePropName (mkState ("["%char :: c :: k ++ "]"%char :: tail) noCaptures) Some
  = Some (mkState tail [Some (c :: k); None; None]).
Proof.
  intros Hq Hk Ht. destruct rePropName_bracket as [ahead ->].
  rewrite compile_alt, compile_plainRun. cbn [repChar].
  change (keyP "[") with false. cbv iota. cbn [orElse].
  rewrite compile_alt, compile_seq, compile_chr, charMatcher_cons, Ascii.eqb_refl.
  rewrite compile_seq, compile_nonCapture, compile_alt.
  rewrite (compile_unquoted c k tail Hq Hk Ht). reflexivity.
Qed.

(** *** Paths *)

Lemma keyChar_notOpen c : keyChar c = true -> notOpen c = true /\ Ascii.eqb "]" c = false.
Proof.
  unfold keyChar. intros H. apply negb_true_iff in H.
  apply orb_false_elim in H as [H H3]. apply orb_false_elim in H as [H1 H2].
  rewrite notOpen_spec, H2, (Ascii.eqb_sym "]" c), H3. split; reflexivity.
Qed.

Lemma closedBefore_plain k tail :
  forallb keyChar k = true -> closedBefore tail = true -> closedBefore (k ++ tail) = true.
Proof.
  intros Hk Ht. induction k as [|c k IH]; [exact Ht|].
  cbn [forallb] in Hk. apply andb_prop in Hk as [Hc Hk].
  destruct (keyChar_notOpen c Hc) as [H1 H2].
  unfold closedBefore in *. cbn [app takeRun]. rewrite H1.
  unfold includes in *. cbn [existsb]. rewrite H2. exact (IH Hk).
Qed.

Lemma closedBefore_pathText segs :
  forallb wellFormed segs = true -> closedBefore (pathText false segs) = true.
Proof.
  induction segs as [|seg segs IH]; [reflexivity|]. cbn [forallb]. intros H.
  apply andb_prop in H as [Hs H]. destruct seg as [k|k|q k]; cbn [pathText]; try reflexivity.
  cbn [wellFormed] in Hs. unfold plainKey in Hs. apply andb_prop in Hs as [_ Hk].
  change (("."%char :: k) ++ pathText false segs)
    with ("."%char :: (k ++ pathText false segs)).
  pose proof (closedBefore_plain k _ Hk (IH H)) as C.
  unfold closedBefore in *. cbn [takeRun].
  change (notOpen ".") with true. cbv iota. unfold includes in *. cbn [existsb].
  change (Ascii.eqb "]" ".") with false. exact C.
Qed.

Lemma keyTail_pathText segs : keyTail (pathText false segs).
Proof. destruct segs as [|[k|k|q k] segs]; cbn [pathText keyTail app]; reflexivity. Qed.

Lemma exec_char_absent a r s :
  includes a s = false -> exec (Seq (Chr a) r) s = None.
Proof.
  induction s as [|c s IH]; intros H; rewrite exec_eq; unfold matchAt; cbn [compile].
  - rewrite charMatcher_nil. reflexivity.
  - unfold includes in H. cbn [existsb] in H. apply orb_false_elim in H as [Hc H].
    rewrite charMatcher_cons, Hc, (IH H). reflexivity.
Qed.

Lemma reEscapeChar_absent k :
  includes "\" k = false ->
  replaceAll reEscapeChar (fun e => getSubstitution e "$1") k = k.
Proof.
  intros H. unfold replaceAll. cbn [replaceAllFuel].
  change reEscapeChar with (Seq (Chr "\") (Rep (Group 1 (Chr "\")) 0 (Some 1) true)).
  rewrite exec_char_absent by exact H. reflexivity.
Qed.

Lemma quotedChars_no_backslash q k :
  forallb (quotedChar q) k = true -> includes "\" k = false.
Proof.
  induction k as [|c k IH]; [reflexivity|]. cbn [forallb]. intros H.
  apply andb_prop in H as [Hc H]. unfold quotedChar in Hc. apply andb_prop in Hc as [_ Hb].
  apply negb_true_iff in Hb. unfold includes in *. cbn [existsb].
  rewrite (Ascii.eqb_sym "\" c), Hb. exact (IH H).
Qed.

(** What the replacer makes of the match of a step. *)
Lemma pathKey_plain before k after :
  pathKey (mkMatch before k noCaptures after) = Ok k.
Proof. reflexivity. Qed.

Lemma pathKey_index before w k after :
  pathKey (mkMatch before w [Some k; None; None] after) = Ok (trim k).
Proof. reflexivity. Qed.

Lemma pathKey_quoted before w q k after :
  includes "\" k = false ->
  pathKey (mkMatch before w [None; Some [q]; Some k] after) = Ok k.
Proof.
  intros H. unfold pathKey. cbn [groups getCap nth Nat.sub].
  rewrite (reEscapeChar_absent k H). reflexivity.
Qed.

Lemma exec_here r s y w :
  matchAt r s = Some y -> s = w ++ rest y ->
  exec r s = Some (mkMatch [] w (caps y) (rest y)).
Proof.
  intros H Hs. rewrite exec_eq, H. f_equal. f_equal.
  apply (app_inv_tail (rest y)). rewrite (firstn_suffix s w (rest y) Hs). exact Hs.
Qed.

(** One step of the search: a match at the start that is not empty. *)
Lemma matchList_here fuel r seen s y w :
  matchAt r s = Some y -> s = w ++ rest y -> w <> [] ->
  matchListFuel (S fuel) r seen s =
  mkMatch seen w (caps y) (rest y) :: matchListFuel fuel r (seen ++ w) (rest y).
Proof.
  intros H Hs Hw. cbn [matchListFuel]. rewrite (exec_here r s y w H Hs).
  cbn [before matched groups after]. rewrite !app_nil_r.
  destruct w as [|a w]; [contradiction|]. reflexivity.
Qed.

Lemma matchList_nil fuel seen : matchListFuel fuel rePropName seen [] = [].
Proof. destruct fuel; reflexivity. Qed.

(** The keys the replacer is called with on a path. *)
Lemma matchList_path segs : forall first fuel seen,
  forallb wellFormed segs = true ->
  List.length (pathText first segs) < fuel ->
  map pathKey (matchListFuel fuel rePropName seen (pathText first segs))
  = map (@Ok jsString) (map segmentKey segs).
Proof.
  induction segs as [|seg segs IH]; intros first fuel seen Hw Hf.
  - cbn [pathText]. rewrite matchList_nil. reflexivity.
  - cbn [forallb] in Hw. apply andb_prop in Hw as [Hs Hw].
    destruct fuel as [|fuel]; [lia|].
    assert (Key : forall k fuel seen,
              plainKey k = true ->
              List.length (k ++ pathText false segs) < S fuel ->
              map pathKey (matchListFuel (S fuel) rePropName seen (k ++ pathText false segs))
              = Ok k :: map (@Ok jsString) (map segmentKey segs)).
    { intros k f sn Hk Hl. destruct (plainKey_run k Hk) as [Hne Hrun].
      destruct k as [|c k]; [contradiction|]. cbn [forallb] in Hrun.
      apply andb_prop in Hrun as [Hc Hrun]. rewrite keyP_keyChar in Hc.
      assert (D : dropRun keyP (k ++ pathText false segs) = pathText false segs).
      { apply dropRun_run; [exact Hrun|]. pose proof (keyTail_pathText segs) as T.
        destruct (pathText false segs) as [|x t]; [exact I|].
        rewrite keyP_keyChar. exact T. }
      rewrite (matchList_here f rePropName sn _
                 (mkState (pathText false segs) noCaptures) (c :: k)).
      - cbn [map caps rest]. rewrite pathKey_plain. f_equal.
        apply IH; [exact Hw|]. rewrite length_app in Hl. cbn [List.length] in Hl. lia.
      - unfold matchAt. change (repeat None (maxGroup rePropName)) with noCaptures.
        cbn [app]. rewrite (compile_rePropName_key c _ noCaptures Hc), D. reflexivity.
      - reflexivity.
      - discriminate. }
    destruct seg as [k|k|q k]; cbn [pathText map segmentKey].
    + cbn [wellFormed] in Hs. destruct first.
      * apply Key; [exact Hs|exact Hf].
      * cbn [pathText] in Hf. cbn [app List.length] in Hf.
        destruct (plainKey_run k Hs) as [Hne Hrun].
        destruct k as [|c k]; [contradiction|]. cbn [forallb] in Hrun.
        apply andb_prop in Hrun as [Hc _]. rewrite keyP_keyChar in Hc.
        cbn [app]. rewrite matchList_skip.
        -- destruct fuel as [|fuel]; [cbn [List.length] in Hf; lia|].
           apply (Key (c :: k)); [exact Hs|]. cbn [app List.length] in *. lia.
        -- unfold matchAt. change (repeat None (maxGroup rePropName)) with noCaptures.
           apply compile_rePropName_point, Hc.
    + cbn [wellFormed] in Hs. destruct k as [|c k]; [discriminate|].
      apply andb_prop in Hs as [Hs _]. apply andb_prop in Hs as [Hq Hk].
      apply negb_true_iff in Hq.
      rewrite (matchList_here fuel rePropName seen _
                 (mkState (pathText false segs) [Some (c :: k); None; None])
                 ("["%char :: (c :: k) ++ ["]"%char])).
      * cbn [map caps rest]. rewrite pathKey_index. f_equal.
        apply IH; [exact Hw|]. cbn [pathText List.length] in Hf.
        rewrite length_app in Hf. cbn [List.length] in Hf. lia.
      * unfold matchAt. change (repeat None (maxGroup rePropName)) with noCaptures.
        cbn [app]. apply compile_rePropName_index; try assumption.
        apply closedBefore_pathText, Hw.
      * cbn [rest app]. rewrite <- app_assoc. reflexivity.
      * discriminate.
    + cbn [wellFormed] in Hs. apply andb_prop in Hs as [Hq Hk].
      rewrite (matchList_here fuel rePropName seen _
                 (mkState (pathText false segs) [None; Some [q]; Some k])
                 ("["%char :: q :: k ++ [q; "]"%char])).
      * cbn [map caps rest].
        rewrite (pathKey_quoted _ _ q k _ (quotedChars_no_backslash q k Hk)). f_equal.
        apply IH; [exact Hw|]. cbn [pathText List.length] in Hf.
        rewrite length_app in Hf. cbn [List.length] in Hf. lia.
      * unfold matchAt. change (repeat None (maxGroup rePropName)) with noCaptures.
        apply compile_rePropName_quoted; assumption.
      * cbn [rest app]. rewrite <- app_assoc. reflexivity.
      * discriminate.
Qed.

(** A path is read back as the keys of its steps. *)
Lemma stringToPath_path segs :
  forallb wellFormed segs = true ->
  stringToPath (pathText true segs) = Ok (map segmentKey segs).
Proof.
  intros H. unfold stringToPath, matchList.
  rewrite (matchList_path segs true _ [] H) by lia. apply collect_oks.
Qed.

(** For every path made of plain keys, keys between brackets and quoted
    keys between brackets, [formatValue] walks the data along the keys of
    the steps, in order: a quoted key is taken as it is, points and
    brackets included, and a key between brackets without quotation marks
    is trimmed. *)
Theorem formatValue_bracket_path data segs defaultValue :
  forallb wellFormed segs = true ->
  formatValue data (pathText true segs) defaultValue
  = Ok (resolved (access data (map segmentKey segs)) defaultValue).
Proof.
  intros H. apply formatValue_path, stringToPath_path, H.
Qed.

Lemma formatValue_bracket_path_witness :
  formatValue rowsData "rows[ 1 ]['x[0]']" Undefined = Ok (Number (ofZ 2))
  /\ formatValue rowsData ("rows[0][" ++ [dquote] ++ "a.b" ++ [dquote] ++ "]") Undefined
     = Ok (Number (ofZ 1)).
Proof.
  split.
  - apply (formatValue_bracket_path rowsData
             [Plain "rows"; Index " 1 "; Quoted "'" "x[0]"] Undefined). reflexivity.
  - apply (formatValue_bracket_path rowsData
             [Plain "rows"; Index "0"; Quoted dquote "a.b"] Undefined). reflexivity.
Defined.

